(** * iMessage MCP server: query and mapping layer

    A shallow embedding of [src/lib/utils.ts] and [src/lib/database.ts],
    with the sending of messages ([src/lib/applescript.ts]) and the query
    tools of the server ([src/index.ts]).

    Conventions of the embedding.
    - A JavaScript [number] is one of [NaN], the two infinities, or a finite
      value.  A finite value is the rational it denotes ([Q]); every
      arithmetic operation rounds its exact result to the nearest double
      (IEEE-754 binary64, ties to even) and overflows to an infinity.  The
      two zeros are not told apart.
    - A [Date] holds an integral number of milliseconds or is invalid, as
      the [TimeClip] operation of the language prescribes.
    - [Date.now()], the file system, the SQLite engine, [osascript] and
      the locale used by [toLocaleString] are inputs of the functions that
      consult them; so are [String(x)] and [Number(s)] where a tool
      handler or [toFixed] falls back on them.
    - The arguments of a tool are untyped JSON values; the functions of
      [utils.ts] and [database.ts] are modelled on the types they declare.
    - An INTEGER column is read as the double nearest to the stored
      integer; the engine compares a stored integer with a bound number
      exactly.
    - A [string] is the sequence of the code units of the text; the
      functions modelled here compare characters with ASCII ones only. *)

From Stdlib Require Import ZArith QArith Qround Qabs Qpower Lqa Lia.
From Stdlib Require Import Bool List String Ascii DecimalString.
From Stdlib Require Import Sorting.Sorted Permutation.
Import ListNotations.

Set Implicit Arguments.

(* ================================================================= *)
(** ** Rounding to a double *)

Module Binary64.

Local Open Scope Q_scope.

(** The power of two [2^k], for any whole [k]. *)
Definition pow2 (k : Z) : Q := (2 # 1) ^ k.

(** For a positive rational [q], the whole number [k] with
    [2^k <= q < 2^(k+1)]. *)
Definition ilog2 (q : Q) : Z :=
  let k := (Z.log2 (Qnum q) - Z.log2 (Zpos (Qden q)))%Z in
  if Qle_bool (pow2 k) q then k else (k - 1)%Z.

(** The exponent of the last of the 53 significant bits of a double near
    [q]; it does not go below -1074, the exponent of the least positive
    double. *)
Definition ulp_exp (q : Q) : Z := Z.max (ilog2 q - 52) (-1074).

(** The whole number nearest to [x]; halfway between two, the even one. *)
Definition nearest_even (x : Q) : Z :=
  let f := Qfloor x in
  match Qcompare (x - inject_Z f) (1 # 2) with
  | Lt => f
  | Gt => (f + 1)%Z
  | Eq => if Z.even f then f else (f + 1)%Z
  end.

(** A positive rational rounded to 53 significant bits. *)
Definition round_pos (q : Q) : Q :=
  let k := ulp_exp q in inject_Z (nearest_even (q / pow2 k)) * pow2 k.

(** Round to nearest, ties to even, with no bound on the exponent above. *)
Definition rnd (q : Q) : Q :=
  match Qcompare q 0 with
  | Eq => 0
  | Gt => round_pos q
  | Lt => - round_pos (- q)
  end.

End Binary64.

Import Binary64.

(* ================================================================= *)
(** ** JavaScript numbers *)

Module JsNumber.

Inductive number : Type :=
| NaN
| NegInf
| PosInf
| Fin (q : Q).

Definition of_Z (z : Z) : number := Fin (inject_Z z).

(** The result of an arithmetic operation: the exact value [q] rounded
    to the nearest double, ties to even; an infinity when the rounded value
    leaves the range of doubles. *)
Definition round64 (q : Q) : number :=
  let r := Qred (rnd q) in
  if Qle_bool (pow2 1024) (Qabs r) then
    if Qle_bool 0 r then PosInf else NegInf
  else Fin r.

(** A stored 64-bit integer as the database driver hands it over: the
    double nearest to it. *)
Definition of_int64 (z : Z) : number := round64 (inject_Z z).

(** Sign of a finite value, used by the rules for infinities. *)
Definition Qsign (q : Q) : comparison := (q ?= 0)%Q.

(** [a + b] *)
Definition add (a b : number) : number :=
  match a, b with
  | NaN, _ | _, NaN => NaN
  | PosInf, NegInf | NegInf, PosInf => NaN
  | PosInf, _ | _, PosInf => PosInf
  | NegInf, _ | _, NegInf => NegInf
  | Fin x, Fin y => round64 (x + y)
  end.

(** unary [-a] *)
Definition neg (a : number) : number :=
  match a with
  | NaN => NaN
  | NegInf => PosInf
  | PosInf => NegInf
  | Fin x => Fin (- x)
  end.

(** [a - b] *)
Definition sub (a b : number) : number :=
  match a, b with
  | NaN, _ | _, NaN => NaN
  | PosInf, PosInf | NegInf, NegInf => NaN
  | PosInf, _ | _, NegInf => PosInf
  | NegInf, _ | _, PosInf => NegInf
  | Fin x, Fin y => round64 (x - y)
  end.

Definition inf_of_sign (s : comparison) : number :=
  match s with
  | Gt => PosInf
  | Lt => NegInf
  | Eq => NaN
  end.

Definition sign_of (a : number) : comparison :=
  match a with
  | NaN => Eq
  | NegInf => Lt
  | PosInf => Gt
  | Fin x => Qsign x
  end.

Definition sign_mul (s t : comparison) : comparison :=
  match s, t with
  | Eq, _ | _, Eq => Eq
  | Gt, Gt | Lt, Lt => Gt
  | Gt, Lt | Lt, Gt => Lt
  end.

(** [a * b] *)
Definition mul (a b : number) : number :=
  match a, b with
  | NaN, _ | _, NaN => NaN
  | Fin x, Fin y => round64 (x * y)
  | _, _ => inf_of_sign (sign_mul (sign_of a) (sign_of b))
  end.

(** [a / b]; a finite value divided by zero is an infinity of the sign of
    the dividend (the divisor is read as the positive zero). *)
Definition div (a b : number) : number :=
  match a, b with
  | NaN, _ | _, NaN => NaN
  | Fin x, Fin y =>
      if Qeq_bool y 0 then inf_of_sign (Qsign x) else round64 (x / y)
  | Fin _, _ => Fin 0
  | _, Fin y =>
      if Qeq_bool y 0 then a else inf_of_sign (sign_mul (sign_of a) (Qsign y))
  | _, _ => NaN
  end.

(** [a <= b]; any comparison with [NaN] is false. *)
Definition le (a b : number) : bool :=
  match a, b with
  | NaN, _ | _, NaN => false
  | NegInf, _ => true
  | _, PosInf => true
  | Fin x, Fin y => Qle_bool x y
  | _, _ => false
  end.

(** [a > b]; any comparison with [NaN] is false. *)
Definition gt (a b : number) : bool :=
  match a, b with
  | NaN, _ | _, NaN => false
  | PosInf, PosInf => false
  | PosInf, _ => true
  | NegInf, _ => false
  | Fin _, NegInf => true
  | Fin _, PosInf => false
  | Fin x, Fin y => negb (Qle_bool x y)
  end.

(** [Math.floor] *)
Definition floor (a : number) : number :=
  match a with
  | Fin x => of_Z (Qfloor x)
  | _ => a
  end.

(** Two numbers denote the same value: rationals are compared up to
    [Qeq], and [NaN] is the same value as itself. *)
Definition same (a b : number) : Prop :=
  match a, b with
  | NaN, NaN | NegInf, NegInf | PosInf, PosInf => True
  | Fin x, Fin y => x == y
  | _, _ => False
  end.

(** Integral part of a rational, rounding toward zero ([ToIntegerOrInfinity]). *)
Definition Qtrunc (q : Q) : Z :=
  if Qle_bool 0 q then Qfloor q else Qceiling q.

End JsNumber.

Import JsNumber.

Declare Scope js_scope.
Delimit Scope js_scope with js.
Infix "+" := add : js_scope.
Infix "-" := sub : js_scope.
Infix "*" := mul : js_scope.
Infix "/" := div : js_scope.
Infix "<=?" := le : js_scope.
Infix ">?" := gt : js_scope.
Infix "≡" := same (at level 70, no associativity).

Coercion of_Z : Z >-> number.

(* ================================================================= *)
(** ** Dates *)

Module JsDate.

(** The time value of a [Date]: a whole number of milliseconds since the
    Unix epoch, or invalid. *)
Inductive Date : Type :=
| InvalidDate
| TimeValue (ms : Z).

(** Largest magnitude of a time value: 8.64e15 milliseconds. *)
Definition MAX_TIME : Z := 8640000000000000.

(** [TimeClip]: what [new Date(n)] stores for a number [n]. *)
Definition TimeClip (n : number) : Date :=
  match n with
  | Fin q =>
      if Qle_bool (Qabs q) (inject_Z MAX_TIME) then TimeValue (Qtrunc q)
      else InvalidDate
  | _ => InvalidDate
  end.

(** [new Date(n)] *)
Definition newDate (n : number) : Date := TimeClip n.

(** [date.getTime()] *)
Definition getTime (d : Date) : number :=
  match d with
  | InvalidDate => NaN
  | TimeValue ms => of_Z ms
  end.

(** Two dates lie within one second (1000 ms) of each other.  An invalid
    date is within one second of nothing. *)
Definition within_one_second (a b : Date) : Prop :=
  match a, b with
  | TimeValue x, TimeValue y => (Z.abs (x - y) <= 1000)%Z
  | _, _ => False
  end.

(** A number that a [Date] can hold as it is: a whole number of
    milliseconds of magnitude at most [MAX_TIME]. *)
Definition is_time_value (q : Q) : Prop :=
  exists ms : Z, q == inject_Z ms /\ (Z.abs ms <= MAX_TIME)%Z.

End JsDate.

Import JsDate.

(* ================================================================= *)
(** ** Timestamp translator ([utils.ts]) *)

Module Timestamp.

Local Open Scope js_scope.

(** [export const COCOA_EPOCH_DIFF = 978307200;] *)
Definition COCOA_EPOCH_DIFF : number := of_Z 978307200.

(** The literals [1e12] and [1e9]. *)
Definition lit_1e12 : number := of_Z 1000000000000.
Definition lit_1e9 : number := of_Z 1000000000.

(** [cocoaTimestampToDate(timestamp)] *)
Definition cocoaTimestampToDate (timestamp : number) : Date :=
  let timestamp :=
    if timestamp >? lit_1e12 then timestamp / lit_1e9 else timestamp in
  newDate ((timestamp + COCOA_EPOCH_DIFF) * of_Z 1000).

(** [dateToCocoaTimestamp(date)] *)
Definition dateToCocoaTimestamp (date : Date) : number :=
  let unixSeconds := getTime date / of_Z 1000 in
  (unixSeconds - COCOA_EPOCH_DIFF) * lit_1e9.

(** [hoursAgoToCocoaTimestamp(hours)], with [now] the value of [Date.now()]. *)
Definition hoursAgoToCocoaTimestamp (now : Z) (hours : number) : number :=
  let cutoffTime := of_Z now - hours * of_Z 60 * of_Z 60 * of_Z 1000 in
  (cutoffTime / of_Z 1000 - COCOA_EPOCH_DIFF) * lit_1e9.

(** [daysAgoToCocoaTimestamp(days)], with [now] the value of [Date.now()]. *)
Definition daysAgoToCocoaTimestamp (now : Z) (days : number) : number :=
  let cutoffTime :=
    of_Z now - days * of_Z 24 * of_Z 60 * of_Z 60 * of_Z 1000 in
  (cutoffTime / of_Z 1000 - COCOA_EPOCH_DIFF) * lit_1e9.

(** The custom epoch, 2001-01-01T00:00:00Z, and the instant 1000 seconds
    later, both as Unix milliseconds. *)
Definition COCOA_EPOCH_MS : Z := 978307200000.
Definition THRESHOLD_MS : Z := 978308200000.

End Timestamp.

Import Timestamp.

(* ================================================================= *)
(** ** Parameter normalizer ([utils.ts]) *)

Module Normalizer.

Local Open Scope js_scope.

(** A parameter of type [number | undefined]; the functions also test
    for [null]. *)
Inductive param : Type :=
| Undefined
| Null
| Num (n : number).

(** [normalizeLimit(limit, defaultLimit, maxLimit)] *)
Definition normalizeLimit (limit : param) (defaultLimit maxLimit : number)
  : number :=
  match limit with
  | Undefined | Null => defaultLimit
  | Num limit =>
      if limit <=? of_Z 0 then defaultLimit
      else if limit >? maxLimit then maxLimit
      else floor limit
  end.

(** [normalizeHours(hours, defaultHours, maxHours)] *)
Definition normalizeHours (hours : param) (defaultHours maxHours : number)
  : number :=
  match hours with
  | Undefined | Null => defaultHours
  | Num hours =>
      if hours <=? of_Z 0 then defaultHours
      else if hours >? maxHours then maxHours
      else hours
  end.

(** [normalizeDays(days, defaultDays, maxDays)] *)
Definition normalizeDays (days : param) (defaultDays maxDays : number)
  : number :=
  match days with
  | Undefined | Null => defaultDays
  | Num days =>
      if days <=? of_Z 0 then defaultDays
      else if days >? maxDays then maxDays
      else days
  end.

End Normalizer.

Import Normalizer.

(* ================================================================= *)
(** ** Strings and contact normalization ([utils.ts]) *)

Module Strings.

Local Open Scope string_scope.
Local Open Scope char_scope.

(** The character class [\d]: the ten ASCII digits. *)
Definition is_digit (c : ascii) : bool :=
  let n := N_of_ascii c in ((48 <=? n) && (n <=? 57))%N.

(** Membership in the class [[\d+]]. *)
Definition digit_or_plus (c : ascii) : bool := is_digit c || (c =? "+").

(** [s.replace(/[^...]/g, "")] for a character class given by [keep]. *)
Fixpoint keep_chars (keep : ascii -> bool) (s : string) : string :=
  match s with
  | EmptyString => EmptyString
  | String c rest =>
      if keep c then String c (keep_chars keep rest) else keep_chars keep rest
  end.

(** [s.startsWith(p)] *)
Definition startsWith (s p : string) : bool := String.prefix p s.

(** [formatPhoneNumber(phone)] *)
Definition formatPhoneNumber (phone : string) : string :=
  let cleaned := keep_chars digit_or_plus phone in
  if (String.length cleaned =? 11)%nat && startsWith cleaned "1" then
    ("+" ++ cleaned)%string
  else if (String.length cleaned =? 10)%nat then
    ("+1" ++ cleaned)%string
  else if startsWith cleaned "+" then
    cleaned
  else
    phone.

(** [sanitizeForSqlLike(str)]: a backslash is put before every [%] and [_]. *)
Fixpoint sanitizeForSqlLike (str : string) : string :=
  match str with
  | EmptyString => EmptyString
  | String c rest =>
      if (c =? "%") || (c =? "_") then
        String "\" (String c (sanitizeForSqlLike rest))
      else String c (sanitizeForSqlLike rest)
  end.

(** [truncate(str, maxLength)] *)
Definition truncate (str : string) (maxLength : Z) : string :=
  if (Z.of_nat (String.length str) <=? maxLength)%Z then str
  else (String.substring 0 (Z.to_nat (maxLength - 3)) str ++ "...")%string.

(** A value of type [string | null | undefined] is truthy when it is a
    non-empty string. *)
Definition truthy (v : option string) : bool :=
  match v with
  | Some s => negb (String.eqb s EmptyString)
  | None => false
  end.

(** [a || b] between two possibly absent strings. *)
Definition or_opt (a b : option string) : option string :=
  if truthy a then a else b.

(** [a || b] where [b] is a string. *)
Definition or_else (a : option string) (b : string) : string :=
  match a with
  | Some s => if String.eqb s EmptyString then b else s
  | None => b
  end.

(** What the contact-normalization paragraph of the specification says,
    read literally: a [+] survives the stripping only in leading
    position, and the two length tests count digits. *)
Fixpoint all_digits (s : string) : bool :=
  match s with
  | EmptyString => true
  | String c rest => is_digit c && all_digits rest
  end.

Definition strip_spec (s : string) : string :=
  match s with
  | String c rest =>
      if c =? "+" then String c (keep_chars is_digit rest)
      else keep_chars is_digit s
  | EmptyString => EmptyString
  end.

Definition formatPhoneNumber_spec (s : string) : string :=
  let stripped := strip_spec s in
  if all_digits stripped && (String.length stripped =? 11)%nat
     && startsWith stripped "1" then ("+" ++ stripped)%string
  else if all_digits stripped && (String.length stripped =? 10)%nat then
    ("+1" ++ stripped)%string
  else if startsWith stripped "+" then stripped
  else s.

End Strings.

Import Strings.

(* ================================================================= *)
(** ** Access diagnostics ([database.ts]) *)

Module Access.

Local Open Scope string_scope.

(** A thrown value, as [getErrorMessage] tells them apart. *)
Inductive thrown : Type :=
| ErrorObject (message : string)      (* [error instanceof Error] *)
| StringValue (s : string)            (* [typeof error === "string"] *)
| OtherValue (asString : string).     (* anything else, with [String(error)] *)

(** [getErrorMessage(error)] *)
Definition getErrorMessage (error : thrown) : string :=
  match error with
  | ErrorObject message => message
  | StringValue s => s
  | OtherValue asString => asString
  end.

(** What the host answers to each of the calls made by the check: whether
    the path exists, and for the three calls that can throw, the value
    thrown if any. *)
Record Host : Type := {
  host_exists : string -> bool;
  host_access : string -> option thrown;
  host_open : string -> option thrown;
  host_close : string -> option thrown
}.

(** The calls made to the host, in the order they are made. *)
Inductive call : Type :=
| ExistsSync (path : string)
| AccessSync (path : string)
| OpenDatabase (path : string)
| CloseDatabase (path : string).

Inductive completion (A : Type) : Type :=
| Normal (a : A)
| Throw (e : thrown).
Arguments Normal {A} a.
Arguments Throw {A} e.

(** Computations that consult the host, may throw, and log their calls. *)
Definition IO (A : Type) : Type := Host -> completion A * list call.

Definition ret {A} (a : A) : IO A := fun _ => (Normal a, []).

Definition bind {A B} (m : IO A) (f : A -> IO B) : IO B :=
  fun h =>
    match m h with
    | (Normal a, t) => let (r, t') := f a h in (r, (t ++ t')%list)
    | (Throw e, t) => (Throw e, t)
    end.

(** [try { body } catch (error) { handler }] *)
Definition try_catch {A} (body : IO A) (handler : thrown -> IO A) : IO A :=
  fun h =>
    match body h with
    | (Throw e, t) => let (r, t') := handler e h in (r, (t ++ t')%list)
    | done => done
    end.

Notation "x <- m ;; k" := (bind m (fun x => k))
  (at level 61, m at next level, right associativity).
Notation "m ;;; k" := (bind m (fun _ => k))
  (at level 61, right associativity).

Definition of_outcome (o : option thrown) : completion unit :=
  match o with
  | None => Normal tt
  | Some e => Throw e
  end.

(** [existsSync(path)] *)
Definition existsSync (path : string) : IO bool :=
  fun h => (Normal (host_exists h path), [ExistsSync path]).

(** [accessSync(path, constants.R_OK)] *)
Definition accessSync (path : string) : IO unit :=
  fun h => (of_outcome (host_access h path), [AccessSync path]).

(** [new Database(path, { readonly: true })]; the handle is the path. *)
Definition openDatabase (path : string) : IO string :=
  fun h =>
    (match host_open h path with
     | None => Normal path
     | Some e => Throw e
     end, [OpenDatabase path]).

(** [db.close()] *)
Definition closeDatabase (db : string) : IO unit :=
  fun h => (of_outcome (host_close h db), [CloseDatabase db]).

(** [DatabaseAccessResult] *)
Record DatabaseAccessResult : Type := {
  accessible : bool;
  error : option string
}.

Section CheckDatabaseAccess.

(** [MESSAGES_DB_PATH], which depends on the home directory. *)
Variable MESSAGES_DB_PATH : string.

(** [checkDatabaseAccess()] *)
Definition checkDatabaseAccess : IO DatabaseAccessResult :=
  found <- existsSync MESSAGES_DB_PATH ;;
  if negb found then
    ret {| accessible := false;
           error :=
             Some ("Messages database not found at " ++ MESSAGES_DB_PATH
                   ++ ". Make sure Messages app has been used.") |}
  else
    try_catch
      (accessSync MESSAGES_DB_PATH ;;;
       db <- openDatabase MESSAGES_DB_PATH ;;
       closeDatabase db ;;;
       ret {| accessible := true; error := None |})
      (fun e =>
         ret {| accessible := false;
                error :=
                  Some ("Cannot access Messages database. Grant Full Disk Access to your terminal in System Preferences → Privacy & Security → Full Disk Access. Error: "
                        ++ getErrorMessage e) |}).

End CheckDatabaseAccess.

End Access.

Import Access.

(* ================================================================= *)
(** ** The message store and the SQL it is queried with *)

Module Sql.

Local Open Scope string_scope.
Local Open Scope char_scope.

(** *** Tables (the columns the queries read) *)

Record message_t : Type := {
  m_rowid : Z;
  m_text : option string;
  m_date : Z;
  m_is_from_me : Z;
  m_cache_has_attachments : Z;
  m_handle_id : Z
}.

Record handle_t : Type := { h_rowid : Z; h_id : string }.

Record chat_t : Type := {
  c_rowid : Z;
  c_chat_identifier : string;
  c_display_name : option string;
  c_service_name : string;
  c_style : Z
}.

Record chat_message_join_t : Type := { cmj_chat_id : Z; cmj_message_id : Z }.

Record Store : Type := {
  tbl_message : list message_t;
  tbl_handle : list handle_t;
  tbl_chat : list chat_t;
  tbl_chat_message_join : list chat_message_join_t
}.

(** *** Prepared statements: a text with [?] placeholders and the values
    bound to them, in order. *)

Inductive bind_value : Type :=
| BindNumber (n : number)
| BindText (s : string).

Record statement : Type := { sql : string; params : list bind_value }.

(** *** The [LIKE] operator: [%] matches any run of characters, [_] any
    one character, letters match without regard to ASCII case.  There is
    no escape character unless an [ESCAPE] clause names one, and no query
    here has such a clause. *)

Definition lower (c : ascii) : ascii :=
  let n := N_of_ascii c in
  if ((65 <=? n) && (n <=? 90))%N then ascii_of_N (n + 32) else c.

Definition eq_nocase (a b : ascii) : bool := (lower a =? lower b)%char.

Fixpoint like (pattern text : string) : bool :=
  match pattern with
  | EmptyString =>
      match text with EmptyString => true | String _ _ => false end
  | String p pattern' =>
      if p =? "%" then
        (fix any (t : string) : bool :=
           like pattern' t
           || match t with
              | EmptyString => false
              | String _ t' => any t'
              end) text
      else
        match text with
        | EmptyString => false
        | String c text' =>
            ((p =? "_") || eq_nocase p c) && like pattern' text'
        end
  end.

(** [column LIKE ?] on a column that may be [NULL]. *)
Definition like_opt (pattern : string) (column : option string) : bool :=
  match column with
  | Some v => like pattern v
  | None => false
  end.

(** *** [LEFT JOIN] *)

Definition left_join {A B : Type} (on : A -> B -> bool)
  (l : list A) (r : list B) : list (A * option B) :=
  flat_map
    (fun a =>
       match filter (on a) r with
       | [] => [(a, None)]
       | bs => map (fun b => (a, Some b)) bs
       end) l.

(** *** [ORDER BY]: a stable insertion sort along a comparison. *)

Section OrderBy.

Variable A : Type.
Variable leb : A -> A -> bool.

Fixpoint insert (x : A) (l : list A) : list A :=
  match l with
  | [] => [x]
  | y :: l' => if leb x y then x :: l else y :: insert x l'
  end.

Fixpoint order_by (l : list A) : list A :=
  match l with
  | [] => []
  | x :: l' => insert x (order_by l')
  end.

End OrderBy.

(** *** [LIMIT ?]: the bound value must be a whole number that fits a
    signed 64-bit integer, the two extremes excluded (so strictly between
    -2^63 and 2^63); a negative one means no bound; anything else is
    refused by the engine. *)

Definition limit_rows {A : Type} (n : number) (l : list A)
  : option (list A) :=
  match n with
  | Fin q =>
      if Qeq_bool (inject_Z (Qfloor q)) q
         && (-9223372036854775808 <? Qfloor q)%Z
         && (Qfloor q <? 9223372036854775808)%Z
      then
        Some (if (Qfloor q <? 0)%Z then l else firstn (Z.to_nat (Qfloor q)) l)
      else None
  | _ => None
  end.

(** *** The joins of the message queries *)

Record joined : Type := {
  j_m : message_t;
  j_h : option handle_t;
  j_c : option chat_t
}.

(** [FROM message m LEFT JOIN handle h ON m.handle_id = h.rowid] *)
Definition message_handle (db : Store) : list (message_t * option handle_t) :=
  left_join (fun m h => (m_handle_id m =? h_rowid h)%Z)
    (tbl_message db) (tbl_handle db).

(** [... LEFT JOIN chat_message_join cmj ON m.rowid = cmj.message_id
         LEFT JOIN chat c ON cmj.chat_id = c.rowid] *)
Definition message_handle_chat (db : Store) : list joined :=
  let with_cmj :=
    left_join (fun (mh : message_t * option handle_t) j =>
                 (m_rowid (fst mh) =? cmj_message_id j)%Z)
      (message_handle db) (tbl_chat_message_join db) in
  let with_chat :=
    left_join (fun (r : (message_t * option handle_t)
                        * option chat_message_join_t) c =>
                 match snd r with
                 | Some j => (cmj_chat_id j =? c_rowid c)%Z
                 | None => false
                 end)
      with_cmj (tbl_chat db) in
  map (fun r => {| j_m := fst (fst (fst r));
                   j_h := snd (fst (fst r));
                   j_c := snd r |}) with_chat.

Definition message_handle_only (db : Store) : list joined :=
  map (fun mh => {| j_m := fst mh; j_h := snd mh; j_c := None |})
    (message_handle db).

(** [m.date > ?] *)
Definition date_after (since : number) (r : joined) : bool :=
  (of_Z (m_date (j_m r)) >? since)%js.

(** [(h.id LIKE ? OR h.id = ? OR h.id LIKE ?)] *)
Definition contact_match (p1 p2 p3 : string) (r : joined) : bool :=
  match j_h r with
  | Some h => like p1 (h_id h) || String.eqb (h_id h) p2 || like p3 (h_id h)
  | None => false
  end.

(** [m.text LIKE ?] *)
Definition text_like (p : string) (r : joined) : bool :=
  like_opt p (m_text (j_m r)).

Definition date_asc (a b : joined) : bool :=
  (m_date (j_m a) <=? m_date (j_m b))%Z.

Definition date_desc (a b : joined) : bool :=
  (m_date (j_m b) <=? m_date (j_m a))%Z.

End Sql.

Import Sql.

(* ================================================================= *)
(** ** Rows and entities ([types.ts]) *)

Module RawMessageRow.
Record t : Type := {
  rowid : Z;
  text : option string;
  date : Z;
  is_from_me : Z;
  cache_has_attachments : Z;
  handle_id : option string;
  chat_name : option string;
  chat_identifier : option string
}.
End RawMessageRow.

Module RawChatRow.
Record t : Type := {
  rowid : Z;
  chat_identifier : string;
  display_name : option string;
  service_name : string;
  style : Z;
  message_count : Z;
  last_message_date : option Z;
  last_message : option string
}.
End RawChatRow.

Module Message.
Record t : Type := {
  id : Z;
  text : string;
  date : string;
  isFromMe : bool;
  hasAttachments : bool;
  contact : string;
  chatName : string
}.
End Message.

Module ConversationMessage.
Record t : Type := {
  id : Z;
  text : string;
  date : string;
  isFromMe : bool;
  hasAttachments : bool;
  sender : string
}.
End ConversationMessage.

Module Chat.
Record t : Type := {
  id : Z;
  identifier : string;
  displayName : string;
  service : string;
  isGroupChat : bool;
  messageCount : Z;
  lastMessageDate : string;
  lastMessage : string
}.
End Chat.

(* ================================================================= *)
(** ** Query repository and row mapper ([database.ts]) *)

Module Database.

Local Open Scope string_scope.

(** *** What the engine returns for each statement *)

(** The [SELECT] list of the message queries. *)
Definition select_message (r : joined) : RawMessageRow.t :=
  {| RawMessageRow.rowid := m_rowid (j_m r);
     RawMessageRow.text := m_text (j_m r);
     RawMessageRow.date := m_date (j_m r);
     RawMessageRow.is_from_me := m_is_from_me (j_m r);
     RawMessageRow.cache_has_attachments := m_cache_has_attachments (j_m r);
     RawMessageRow.handle_id := option_map h_id (j_h r);
     RawMessageRow.chat_name :=
       match j_c r with Some c => c_display_name c | None => None end;
     RawMessageRow.chat_identifier := option_map c_chat_identifier (j_c r) |}.

(** [SELECT ... FROM <source> WHERE <keep> ORDER BY m.date <dir> LIMIT ?] *)
Definition query_messages (source : list joined) (keep : joined -> bool)
  (dir : joined -> joined -> bool) (limit : number)
  : option (list RawMessageRow.t) :=
  option_map (map select_message)
    (limit_rows limit (order_by dir (filter keep source))).

(** The statement of [getRecentMessages], in its two shapes. *)
Definition all_recent (db : Store) (params : list bind_value)
  : option (list RawMessageRow.t) :=
  match params with
  | [BindNumber since; BindNumber limit] =>
      query_messages (message_handle_chat db) (date_after since)
        date_desc limit
  | [BindNumber since; BindText p1; BindText p2; BindText p3;
     BindNumber limit] =>
      query_messages (message_handle_chat db)
        (fun r => date_after since r && contact_match p1 p2 p3 r)
        date_desc limit
  | _ => None
  end.

(** The statement of [getConversation]. *)
Definition all_conversation (db : Store) (params : list bind_value)
  : option (list RawMessageRow.t) :=
  match params with
  | [BindNumber since; BindText p1; BindText p2; BindText p3;
     BindNumber limit] =>
      query_messages (message_handle_only db)
        (fun r => date_after since r && contact_match p1 p2 p3 r)
        date_asc limit
  | _ => None
  end.

(** The statement of [searchMessages]. *)
Definition all_search (db : Store) (params : list bind_value)
  : option (list RawMessageRow.t) :=
  match params with
  | [BindNumber since; BindText p; BindNumber limit] =>
      query_messages (message_handle_chat db)
        (fun r => date_after since r && text_like p r)
        date_desc limit
  | _ => None
  end.

(** The messages of a chat:
    [FROM message m JOIN chat_message_join cmj ON m.rowid = cmj.message_id
     WHERE cmj.chat_id = c.rowid]. *)
Definition chat_messages (db : Store) (c : chat_t) : list message_t :=
  flat_map
    (fun m =>
       map (fun _ => m)
         (filter (fun j => (m_rowid m =? cmj_message_id j)%Z
                           && (cmj_chat_id j =? c_rowid c)%Z)
            (tbl_chat_message_join db)))
    (tbl_message db).

(** [MAX(m.date)], [NULL] over no row. *)
Definition max_date (ms : list message_t) : option Z :=
  fold_right
    (fun m acc =>
       match acc with
       | None => Some (m_date m)
       | Some d => Some (Z.max (m_date m) d)
       end) None ms.

(** [SELECT m.text ... ORDER BY m.date DESC LIMIT 1], [NULL] over no row. *)
Definition newest_text (ms : list message_t) : option string :=
  match order_by (fun a b => (m_date b <=? m_date a)%Z) ms with
  | m :: _ => m_text m
  | [] => None
  end.

(** The [SELECT] list of [listChats]. *)
Definition select_chat (db : Store) (c : chat_t) : RawChatRow.t :=
  {| RawChatRow.rowid := c_rowid c;
     RawChatRow.chat_identifier := c_chat_identifier c;
     RawChatRow.display_name := c_display_name c;
     RawChatRow.service_name := c_service_name c;
     RawChatRow.style := c_style c;
     RawChatRow.message_count :=
       Z.of_nat (List.length
                   (filter (fun j => (cmj_chat_id j =? c_rowid c)%Z)
                      (tbl_chat_message_join db)));
     RawChatRow.last_message_date := max_date (chat_messages db c);
     RawChatRow.last_message := newest_text (chat_messages db c) |}.

(** Comparison of a column that may be [NULL]: [NULL] sorts below every
    value. *)
Definition null_first_le (a b : option Z) : bool :=
  match a, b with
  | None, _ => true
  | Some _, None => false
  | Some x, Some y => (x <=? y)%Z
  end.

Definition last_date_desc (a b : RawChatRow.t) : bool :=
  null_first_le (RawChatRow.last_message_date b)
    (RawChatRow.last_message_date a).

(** The statement of [listChats]; [no_groups] says whether the text
    carries [WHERE c.style != 43]. *)
Definition all_chats (db : Store) (no_groups : bool)
  (params : list bind_value) : option (list RawChatRow.t) :=
  match params with
  | [BindNumber limit] =>
      let chats :=
        if no_groups then
          filter (fun c => negb (c_style c =? 43)%Z) (tbl_chat db)
        else tbl_chat db in
      limit_rows limit (order_by last_date_desc (map (select_chat db) chats))
  | _ => None
  end.

(** *** Query texts *)

Definition recent_select : string := "
      SELECT
        m.rowid,
        m.text,
        m.date,
        m.is_from_me,
        m.cache_has_attachments,
        h.id as handle_id,
        c.display_name as chat_name,
        c.chat_identifier
      FROM message m
      LEFT JOIN handle h ON m.handle_id = h.rowid
      LEFT JOIN chat_message_join cmj ON m.rowid = cmj.message_id
      LEFT JOIN chat c ON cmj.chat_id = c.rowid
      WHERE m.date > ?
    ".

Definition contact_clause : string :=
  " AND (h.id LIKE ? OR h.id = ? OR h.id LIKE ?)".

Definition conversation_select : string := "
      SELECT
        m.rowid,
        m.text,
        m.date,
        m.is_from_me,
        m.cache_has_attachments,
        h.id as handle_id
      FROM message m
      LEFT JOIN handle h ON m.handle_id = h.rowid
      WHERE m.date > ?
        AND (h.id LIKE ? OR h.id = ? OR h.id LIKE ?)
      ORDER BY m.date ASC
      LIMIT ?
    ".

Definition search_select : string := "
      SELECT
        m.rowid,
        m.text,
        m.date,
        m.is_from_me,
        m.cache_has_attachments,
        h.id as handle_id,
        c.display_name as chat_name,
        c.chat_identifier
      FROM message m
      LEFT JOIN handle h ON m.handle_id = h.rowid
      LEFT JOIN chat_message_join cmj ON m.rowid = cmj.message_id
      LEFT JOIN chat c ON cmj.chat_id = c.rowid
      WHERE m.date > ?
        AND m.text LIKE ?
      ORDER BY m.date DESC
      LIMIT ?
    ".

Definition chats_select : string := "
      SELECT
        c.rowid,
        c.chat_identifier,
        c.display_name,
        c.service_name,
        c.style,
        (SELECT COUNT(*) FROM chat_message_join WHERE chat_id = c.rowid) as message_count,
        (SELECT MAX(m.date) FROM message m
         JOIN chat_message_join cmj ON m.rowid = cmj.message_id
         WHERE cmj.chat_id = c.rowid) as last_message_date,
        (SELECT m.text FROM message m
         JOIN chat_message_join cmj ON m.rowid = cmj.message_id
         WHERE cmj.chat_id = c.rowid
         ORDER BY m.date DESC LIMIT 1) as last_message
      FROM chat c
    ".

Definition attachments_select : string := "
      SELECT DISTINCT
        m.rowid,
        m.text,
        m.date,
        m.is_from_me,
        m.cache_has_attachments,
        h.id as handle_id,
        c.display_name as chat_name,
        c.chat_identifier
      FROM message m
      LEFT JOIN handle h ON m.handle_id = h.rowid
      LEFT JOIN chat_message_join cmj ON m.rowid = cmj.message_id
      LEFT JOIN chat c ON cmj.chat_id = c.rowid
      JOIN message_attachment_join maj ON m.rowid = maj.message_id
      WHERE m.date > ?
        AND m.cache_has_attachments = 1
    ".

Definition find_chat_select : string := "
      SELECT
        c.rowid,
        c.chat_identifier,
        c.display_name,
        c.service_name,
        c.style,
        (SELECT COUNT(*) FROM chat_message_join WHERE chat_id = c.rowid) as message_count,
        (SELECT MAX(m.date) FROM message m
         JOIN chat_message_join cmj ON m.rowid = cmj.message_id
         WHERE cmj.chat_id = c.rowid) as last_message_date
      FROM chat c
      WHERE c.chat_identifier LIKE ? OR c.chat_identifier = ? OR c.chat_identifier LIKE ?
      ORDER BY last_message_date DESC
      LIMIT 1
    ".

(** A default parameter value: used when the argument is [undefined]. *)
Definition default_arg (arg : option number) (dflt : Z) : number :=
  match arg with
  | Some n => n
  | None => of_Z dflt
  end.

(** [`%${s}%`] *)
Definition substring_pattern (s : string) : string := "%" ++ s ++ "%".

(** *** Statements built by the operations; [now] is [Date.now()]. *)

Definition getRecentMessages_statement (now : Z) (hours : option number)
  (contact : option string) (limit : option number) : statement :=
  let hours := default_arg hours 24 in
  let limit := default_arg limit 50 in
  let cocoaTimestamp := hoursAgoToCocoaTimestamp now hours in
  let query := recent_select in
  let params := [BindNumber cocoaTimestamp] in
  let '(query, params) :=
    match contact with
    | Some c =>
        if truthy contact then
          let formattedContact := formatPhoneNumber c in
          (query ++ contact_clause,
           (params ++ [BindText (substring_pattern c);
                       BindText formattedContact;
                       BindText (substring_pattern formattedContact)])%list)
        else (query, params)
    | None => (query, params)
    end in
  {| sql := query ++ " ORDER BY m.date DESC LIMIT ?";
     params := (params ++ [BindNumber limit])%list |}.

Definition getConversation_statement (now : Z) (contact : string)
  (days : option number) (limit : option number) : statement :=
  let days := default_arg days 7 in
  let limit := default_arg limit 100 in
  let cocoaTimestamp := daysAgoToCocoaTimestamp now days in
  let formattedContact := formatPhoneNumber contact in
  {| sql := conversation_select;
     params := [BindNumber cocoaTimestamp;
                BindText (substring_pattern contact);
                BindText formattedContact;
                BindText (substring_pattern formattedContact);
                BindNumber limit] |}.

Definition searchMessages_statement (now : Z) (query : string)
  (days : option number) (limit : option number) : statement :=
  let days := default_arg days 30 in
  let limit := default_arg limit 50 in
  let cocoaTimestamp := daysAgoToCocoaTimestamp now days in
  {| sql := search_select;
     params := [BindNumber cocoaTimestamp;
                BindText (substring_pattern query);
                BindNumber limit] |}.

Definition getRecentAttachments_statement (now : Z) (days : option number)
  (contact : option string) (limit : option number) : statement :=
  let days := default_arg days 7 in
  let limit := default_arg limit 50 in
  let cocoaTimestamp := daysAgoToCocoaTimestamp now days in
  let query := attachments_select in
  let params := [BindNumber cocoaTimestamp] in
  let '(query, params) :=
    match contact with
    | Some c =>
        if truthy contact then
          let formattedContact := formatPhoneNumber c in
          (query ++ contact_clause,
           (params ++ [BindText (substring_pattern c);
                       BindText formattedContact;
                       BindText (substring_pattern formattedContact)])%list)
        else (query, params)
    | None => (query, params)
    end in
  {| sql := query ++ " ORDER BY m.date DESC LIMIT ?";
     params := (params ++ [BindNumber limit])%list |}.

Definition findChatByContact_statement (contact : string) : statement :=
  let formattedContact := formatPhoneNumber contact in
  {| sql := find_chat_select;
     params := [BindText (substring_pattern contact);
                BindText formattedContact;
                BindText (substring_pattern formattedContact)] |}.

Definition listChats_statement (limit : option number)
  (includeGroupChats : option bool) : statement :=
  let limit := default_arg limit 30 in
  let includeGroupChats :=
    match includeGroupChats with Some b => b | None => true end in
  let query := chats_select in
  let query :=
    if negb includeGroupChats then query ++ " WHERE c.style != 43"
    else query in
  {| sql := query ++ " ORDER BY last_message_date DESC LIMIT ?";
     params := [BindNumber limit] |}.

Section Operations.

(** [formatDate(date)], that is [date.toLocaleString()]: it depends on the
    locale of the host and never throws. *)
Variable formatDate : Date -> string.

(** *** Row mappers *)

Definition message_of_recent_row (msg : RawMessageRow.t) : Message.t :=
  {| Message.id := RawMessageRow.rowid msg;
     Message.text := or_else (RawMessageRow.text msg) "(attachment or empty)";
     Message.date :=
       formatDate (cocoaTimestampToDate (of_int64 (RawMessageRow.date msg)));
     Message.isFromMe := (RawMessageRow.is_from_me msg =? 1)%Z;
     Message.hasAttachments := (RawMessageRow.cache_has_attachments msg =? 1)%Z;
     Message.contact := or_else (RawMessageRow.handle_id msg) "Unknown";
     Message.chatName :=
       or_else (or_opt (RawMessageRow.chat_name msg)
                  (RawMessageRow.chat_identifier msg)) "Direct Message" |}.

Definition message_of_conversation_row (msg : RawMessageRow.t)
  : ConversationMessage.t :=
  {| ConversationMessage.id := RawMessageRow.rowid msg;
     ConversationMessage.text :=
       or_else (RawMessageRow.text msg) "(attachment or empty)";
     ConversationMessage.date :=
       formatDate (cocoaTimestampToDate (of_int64 (RawMessageRow.date msg)));
     ConversationMessage.isFromMe := (RawMessageRow.is_from_me msg =? 1)%Z;
     ConversationMessage.hasAttachments :=
       (RawMessageRow.cache_has_attachments msg =? 1)%Z;
     ConversationMessage.sender :=
       if (RawMessageRow.is_from_me msg =? 1)%Z then "You"
       else or_else (RawMessageRow.handle_id msg) "Them" |}.

Definition message_of_search_row (msg : RawMessageRow.t) : Message.t :=
  {| Message.id := RawMessageRow.rowid msg;
     Message.text := or_else (RawMessageRow.text msg) "";
     Message.date :=
       formatDate (cocoaTimestampToDate (of_int64 (RawMessageRow.date msg)));
     Message.isFromMe := (RawMessageRow.is_from_me msg =? 1)%Z;
     Message.hasAttachments := (RawMessageRow.cache_has_attachments msg =? 1)%Z;
     Message.contact := or_else (RawMessageRow.handle_id msg) "Unknown";
     Message.chatName :=
       or_else (or_opt (RawMessageRow.chat_name msg)
                  (RawMessageRow.chat_identifier msg)) "Direct Message" |}.

Definition chat_of_row (chat : RawChatRow.t) : Chat.t :=
  {| Chat.id := RawChatRow.rowid chat;
     Chat.identifier := RawChatRow.chat_identifier chat;
     Chat.displayName :=
       or_else (RawChatRow.display_name chat) (RawChatRow.chat_identifier chat);
     Chat.service := RawChatRow.service_name chat;
     Chat.isGroupChat := (RawChatRow.style chat =? 43)%Z;
     Chat.messageCount := RawChatRow.message_count chat;
     Chat.lastMessageDate :=
       match RawChatRow.last_message_date chat with
       | Some d =>
           if (d =? 0)%Z then "Unknown"
           else formatDate (cocoaTimestampToDate (of_int64 d))
       | None => "Unknown"
       end;
     Chat.lastMessage :=
       match RawChatRow.last_message chat with
       | Some s =>
           if String.eqb s "" then "(no messages)" else truncate s 50
       | None => "(no messages)"
       end |}.

(** *** Operations.  [None] stands for an exception of the engine, which
    the operation lets through after closing the connection. *)

Definition getRecentMessages (db : Store) (now : Z) (hours : option number)
  (contact : option string) (limit : option number)
  : option (list Message.t) :=
  let st := getRecentMessages_statement now hours contact limit in
  option_map (map message_of_recent_row) (all_recent db (params st)).

Definition getConversation (db : Store) (now : Z) (contact : string)
  (days : option number) (limit : option number)
  : option (list ConversationMessage.t) :=
  let st := getConversation_statement now contact days limit in
  option_map (map message_of_conversation_row)
    (all_conversation db (params st)).

Definition searchMessages (db : Store) (now : Z) (query : string)
  (days : option number) (limit : option number)
  : option (list Message.t) :=
  let st := searchMessages_statement now query days limit in
  option_map (map message_of_search_row) (all_search db (params st)).

Definition listChats (db : Store) (limit : option number)
  (includeGroupChats : option bool) : option (list Chat.t) :=
  let st := listChats_statement limit includeGroupChats in
  let no_groups :=
    match includeGroupChats with Some b => negb b | None => false end in
  option_map (map chat_of_row) (all_chats db no_groups (params st)).

End Operations.

(** *** The orders of the results *)

Definition oldest_first (a b : RawMessageRow.t) : Prop :=
  (RawMessageRow.date a <= RawMessageRow.date b)%Z.

Definition newest_first (a b : RawMessageRow.t) : Prop :=
  (RawMessageRow.date b <= RawMessageRow.date a)%Z.

(** Most recent message first; chats without any message come last. *)
Definition most_recent_first (a b : RawChatRow.t) : Prop :=
  match RawChatRow.last_message_date a, RawChatRow.last_message_date b with
  | Some x, Some y => (y <= x)%Z
  | Some _, None => True
  | None, Some _ => False
  | None, None => True
  end.



End Database.

Import Database.

(* ================================================================= *)
(** ** Sample data *)

Module Samples.

Local Open Scope string_scope.

(** A host on which the file exists but may not be read. *)
Definition unreadable_host : Host :=
  {| host_exists := fun _ => true;
     host_access := fun _ => Some (ErrorObject "EACCES: permission denied");
     host_open := fun _ => None;
     host_close := fun _ => None |}.

(** A host without the file, and one on which every step passes. *)
Definition missing_host : Host :=
  {| host_exists := fun _ => false;
     host_access := fun _ => None;
     host_open := fun _ => None;
     host_close := fun _ => None |}.

Definition readable_host : Host :=
  {| host_exists := fun _ => true;
     host_access := fun _ => None;
     host_open := fun _ => None;
     host_close := fun _ => None |}.

Definition mk_message (rowid : Z) (text : string) (date : Z) (handle : Z)
  : message_t :=
  {| m_rowid := rowid; m_text := Some text; m_date := date;
     m_is_from_me := 0; m_cache_has_attachments := 0;
     m_handle_id := handle |}.

(** Three messages of one contact, stored out of order, in one chat, and
    a second chat without messages. *)
Definition sample_store : Store :=
  {| tbl_message :=
       [mk_message 1 "see you at 10" 30 1;
        mk_message 2 "abc" 10 1;
        mk_message 3 "a_c" 20 1];
     tbl_handle := [{| h_rowid := 1; h_id := "+15551234567" |}];
     tbl_chat :=
       [{| c_rowid := 8; c_chat_identifier := "chat8";
           c_display_name := None; c_service_name := "iMessage";
           c_style := 43 |};
        {| c_rowid := 7; c_chat_identifier := "+15551234567";
           c_display_name := None; c_service_name := "iMessage";
           c_style := 45 |}];
     tbl_chat_message_join :=
       [{| cmj_chat_id := 7; cmj_message_id := 1 |};
        {| cmj_chat_id := 7; cmj_message_id := 2 |};
        {| cmj_chat_id := 7; cmj_message_id := 3 |}] |}.


(** [Date.now()] one hundred seconds after the custom epoch. *)
Definition sample_now : Z := 978307300000.

Definition no_format : Date -> string := fun _ => "".

End Samples.

Import Samples.

(* ================================================================= *)
(** ** The other functions of [utils.ts] *)

Module Utils.

Local Open Scope string_scope.

(** The double quote and the backslash. *)
Definition dquote : ascii := ascii_of_nat 34.
Definition backslash : ascii := ascii_of_nat 92.

(** [s.replace(/c/g, by)] for a single character [c] and a replacement
    text without [$]. *)
Fixpoint replace_char (c : ascii) (replacement : string) (s : string)
  : string :=
  match s with
  | EmptyString => EmptyString
  | String x rest =>
      if (x =? c)%char then (replacement ++ replace_char c replacement rest)%string
      else String x (replace_char c replacement rest)
  end.

(** [escapeAppleScript(str)]: backslashes are doubled first, then every
    double quote gets a backslash in front. *)
Definition escapeAppleScript (str : string) : string :=
  replace_char dquote (String backslash (String dquote EmptyString))
    (replace_char backslash
       (String backslash (String backslash EmptyString)) str).

(** [isPhoneNumber(value)] *)
Definition isPhoneNumber (value : string) : bool :=
  let digits := keep_chars is_digit value in
  ((10 <=? String.length digits) && (String.length digits <=? 15))%nat.

(** The decimal text of a whole number, as a template literal prints it. *)
Definition show_Z (z : Z) : string := NilZero.string_of_int (Z.to_int z).

(** [relativeTime(date)], with [now] the time value of [new Date()].
    The time values of the two dates are whole numbers of milliseconds;
    for an invalid date every comparison is false and the function falls
    through to [formatDate]. *)
Definition relativeTime (formatDate : Date -> string) (now : Z) (date : Date)
  : string :=
  match date with
  | InvalidDate => formatDate date
  | TimeValue t =>
      let diffMs := (now - t)%Z in
      let diffSec := (diffMs / 1000)%Z in
      let diffMin := (diffSec / 60)%Z in
      let diffHour := (diffMin / 60)%Z in
      let diffDay := (diffHour / 24)%Z in
      if (diffSec <? 60)%Z then "just now"
      else if (diffMin <? 60)%Z then
        (show_Z diffMin ++ " minute"
         ++ (if (diffMin =? 1)%Z then "" else "s") ++ " ago")%string
      else if (diffHour <? 24)%Z then
        (show_Z diffHour ++ " hour"
         ++ (if (diffHour =? 1)%Z then "" else "s") ++ " ago")%string
      else if (diffDay <? 7)%Z then
        (show_Z diffDay ++ " day"
         ++ (if (diffDay =? 1)%Z then "" else "s") ++ " ago")%string
      else formatDate date
  end.

(** The digits of [x >= 0] rounded to a whole number and to one
    decimal: the nearest multiple of the last digit, the larger one on a
    tie. *)
Definition no_decimal (x : Q) : string := show_Z (Qfloor (x + (1 # 2))).

Definition one_decimal (x : Q) : string :=
  let n := Qfloor (x * 10 + (1 # 2)) in
  (show_Z (n / 10) ++ "." ++ show_Z (n mod 10))%string.

Section FormatFileSize.

(** [String(x)] for a finite [x >= 10^21], in the exponent notation of the
    language: [toFixed] falls back on it from 10^21 on. *)
Variable number_text : Q -> string.

(** [x.toFixed(0)] and [x.toFixed(1)]: the sign is set aside first. *)
Definition toFixed0 (x : Q) : string :=
  let (sign, x) := if Qle_bool 0 x then ("", x) else ("-", Qopp x) in
  (sign ++ (if Qle_bool 1000000000000000000000 x then number_text x
            else no_decimal x))%string.

Definition toFixed1 (x : Q) : string :=
  let (sign, x) := if Qle_bool 0 x then ("", x) else ("-", Qopp x) in
  (sign ++ (if Qle_bool 1000000000000000000000 x then number_text x
            else one_decimal x))%string.

(** The loop of [formatFileSize]: the size is divided by 1024 while it is
    at least 1024 and a larger unit is left.  [larger] lists the units
    after the current one.  Dividing a double of that size by 1024 is
    exact. *)
Fixpoint scale_size (larger : list string) (size : Q) (unitIndex : nat)
  (unit : string) : Q * nat * string :=
  match larger with
  | [] => (size, unitIndex, unit)
  | next :: rest =>
      if Qle_bool 1024 size then scale_size rest (size / 1024) (S unitIndex) next
      else (size, unitIndex, unit)
  end.

(** [formatFileSize(bytes)] for a size that is a whole number of bytes or
    [null]. *)
Definition formatFileSize (bytes : option Z) : string :=
  match bytes with
  | None => "Unknown size"
  | Some b =>
      if (b =? 0)%Z then "Unknown size"
      else
        let '(size, unitIndex, unit) :=
          scale_size ["KB"; "MB"; "GB"]%string (inject_Z b) 0 "B" in
        ((if (unitIndex =? 0)%nat then toFixed0 size else toFixed1 size)
         ++ " " ++ unit)%string
  end.

End FormatFileSize.

(** A stand-in for [String(x)], for examples that stay below 10^21. *)
Definition no_text : Q -> string := fun _ => "".

(** [filename.split(".")]: the first segment and the segments after it. *)
Fixpoint split_dot (s : string) : string * list string :=
  match s with
  | EmptyString => (EmptyString, [])
  | String c rest =>
      let (seg, segs) := split_dot rest in
      if (c =? ".")%char then (EmptyString, seg :: segs) else (String c seg, segs)
  end.

(** [filename.split(".").pop()] *)
Definition last_segment (s : string) : string :=
  let (seg, segs) := split_dot s in List.last segs seg.

(** [s.toLowerCase()], on the ASCII letters. *)
Fixpoint toLowerCase (s : string) : string :=
  match s with
  | EmptyString => EmptyString
  | String c rest => String (lower c) (toLowerCase rest)
  end.

(** The table of [getMimeTypeFromFilename]. *)
Definition mimeTypes : list (string * string) :=
  [("jpg", "image/jpeg"); ("jpeg", "image/jpeg"); ("png", "image/png");
   ("gif", "image/gif"); ("heic", "image/heic"); ("heif", "image/heif");
   ("webp", "image/webp"); ("mp4", "video/mp4"); ("mov", "video/quicktime");
   ("m4v", "video/x-m4v"); ("mp3", "audio/mpeg"); ("m4a", "audio/mp4");
   ("aac", "audio/aac"); ("wav", "audio/wav"); ("pdf", "application/pdf");
   ("doc", "application/msword");
   ("docx",
    "application/vnd.openxmlformats-officedocument.wordprocessingml.document");
   ("txt", "text/plain")]%string.

Fixpoint assoc (key : string) (table : list (string * string))
  : option string :=
  match table with
  | [] => None
  | (k, v) :: rest => if String.eqb k key then Some v else assoc key rest
  end.

(** What [getMimeTypeFromFilename] returns: a type of the table, [null],
    or, for the two lower-case names every object inherits, a value that
    is not a string. *)
Inductive mime_result : Type :=
| MimeType (mime : string)
| MimeNull
| MimeInherited (name : string).

(** [mimeTypes[ext] || null] *)
Definition mime_lookup (ext : string) : mime_result :=
  match assoc ext mimeTypes with
  | Some v => MimeType v
  | None =>
      if String.eqb ext "constructor" || String.eqb ext "__proto__"
      then MimeInherited ext
      else MimeNull
  end.

(** [getMimeTypeFromFilename(filename)] *)
Definition getMimeTypeFromFilename (filename : option string) : mime_result :=
  if negb (truthy filename) then MimeNull
  else
    match filename with
    | Some name =>
        let ext := toLowerCase (last_segment name) in
        if String.eqb ext "" then MimeNull else mime_lookup ext
    | None => MimeNull
    end.

(** Reading back a text in which a backslash makes the next character
    literal. *)
Fixpoint unescape (s : string) : string :=
  match s with
  | EmptyString => EmptyString
  | String c rest =>
      if (c =? backslash)%char then
        match rest with
        | EmptyString => EmptyString
        | String d rest' => String d (unescape rest')
        end
      else String c (unescape rest)
  end.

(** Whether a text, read from the left with a backslash taking the next
    character with it, meets a double quote on its own or ends on a
    backslash with nothing after it. *)
Fixpoint breaks_literal (s : string) : bool :=
  match s with
  | EmptyString => false
  | String c rest =>
      if (c =? backslash)%char then
        match rest with
        | EmptyString => true
        | String _ rest' => breaks_literal rest'
        end
      else if (c =? dquote)%char then true
      else breaks_literal rest
  end.

(** Whether a character occurs in a text. *)
Fixpoint has_char (c : ascii) (s : string) : bool :=
  match s with
  | EmptyString => false
  | String x rest => (x =? c)%char || has_char c rest
  end.

(** Two texts of the same length whose characters agree up to the case
    of ASCII letters. *)
Fixpoint same_ignoring_case (a b : string) : bool :=
  match a, b with
  | EmptyString, EmptyString => true
  | String x a', String y b' => eq_nocase x y && same_ignoring_case a' b'
  | _, _ => false
  end.

End Utils.

Import Utils.

(* ================================================================= *)
(** ** Sending through AppleScript *)

Module AppleScript.

Local Open Scope string_scope.

(** A text between double quotes. *)
Definition quoted (s : string) : string :=
  String dquote (s ++ String dquote EmptyString).

Section RunAppleScript.

(** [String.prototype.trim]. *)
Variable trim : string -> string.

(** What [osascript -e script] does: it prints a text, or the call is
    rejected with a value. *)
Variable osascript : string -> string + thrown.

(** [runAppleScript(script)]: the trimmed output, or an [Error] that
    wraps the rejection. *)
Definition runAppleScript (script : string) : string + thrown :=
  match osascript script with
  | inl stdout => inl (trim stdout)
  | inr error =>
      inr (ErrorObject ("AppleScript error: " ++ getErrorMessage error))
  end.

Definition group_script (escapedRecipient escapedMessage : string) : string :=
  "
      tell application " ++ quoted "Messages" ++ "
        set targetChat to chat " ++ quoted escapedRecipient ++ "
        send " ++ quoted escapedMessage ++ " to targetChat
      end tell
    ".

Definition imessage_script (escapedRecipient escapedMessage : string)
  : string :=
  "
      tell application " ++ quoted "Messages" ++ "
        set targetService to 1st account whose service type = iMessage
        set targetBuddy to participant " ++ quoted escapedRecipient
  ++ " of targetService
        send " ++ quoted escapedMessage ++ " to targetBuddy
      end tell
    ".

Definition sms_script (escapedRecipient escapedMessage : string) : string :=
  "
          tell application " ++ quoted "Messages" ++ "
            set targetService to 1st account whose service type = SMS
            set targetBuddy to participant " ++ quoted escapedRecipient
  ++ " of targetService
            send " ++ quoted escapedMessage ++ " to targetBuddy
          end tell
        ".

(** [sendMessage(recipient, message, isGroupChat = false)]: the text it
    resolves to or the error it rejects with, and the scripts it has run,
    in order. *)
Definition sendMessage (recipient message : string)
  (isGroupChat : option bool) : (string + thrown) * list string :=
  let isGroupChat :=
    match isGroupChat with Some b => b | None => false end in
  let escapedMessage := escapeAppleScript message in
  let escapedRecipient := escapeAppleScript recipient in
  let script :=
    if isGroupChat then group_script escapedRecipient escapedMessage
    else imessage_script escapedRecipient escapedMessage in
  match runAppleScript script with
  | inl _ => (inl ("Message sent successfully to " ++ recipient), [script])
  | inr error =>
      let failure :=
        inr (ErrorObject
               ("Failed to send message: " ++ getErrorMessage error)) in
      if negb isGroupChat then
        let smsScript := sms_script escapedRecipient escapedMessage in
        match runAppleScript smsScript with
        | inl _ =>
            (inl ("Message sent via SMS to " ++ recipient
                  ++ " (iMessage unavailable)"),
             [script; smsScript])
        | inr _ => (failure, [script; smsScript])
        end
      else (failure, [script])
  end.

End RunAppleScript.

End AppleScript.

Import AppleScript.

(* ================================================================= *)
(** ** [findChatByContact] ([database.ts]) *)

Module ChatSummary.
(** A [Chat] without the optional [lastMessage]. *)
Record t : Type := {
  id : Z;
  identifier : string;
  displayName : string;
  service : string;
  isGroupChat : bool;
  messageCount : Z;
  lastMessageDate : string
}.
End ChatSummary.

Module FindChat.

Local Open Scope string_scope.

(** [c.chat_identifier LIKE ? OR c.chat_identifier = ?
     OR c.chat_identifier LIKE ?] *)
Definition identifier_match (p1 p2 p3 : string) (c : chat_t) : bool :=
  like p1 (c_chat_identifier c)
  || String.eqb (c_chat_identifier c) p2
  || like p3 (c_chat_identifier c).

(** The [SELECT] list of [findChatByContact]: that of [listChats] without
    the last message. *)
Definition select_found (db : Store) (c : chat_t) : RawChatRow.t :=
  {| RawChatRow.rowid := c_rowid c;
     RawChatRow.chat_identifier := c_chat_identifier c;
     RawChatRow.display_name := c_display_name c;
     RawChatRow.service_name := c_service_name c;
     RawChatRow.style := c_style c;
     RawChatRow.message_count :=
       Z.of_nat (List.length
                   (filter (fun j => (cmj_chat_id j =? c_rowid c)%Z)
                      (tbl_chat_message_join db)));
     RawChatRow.last_message_date := max_date (chat_messages db c);
     RawChatRow.last_message := None |}.

(** [.get(...)] on the statement of [findChatByContact]: the first row of
    [... ORDER BY last_message_date DESC LIMIT 1], if there is one.  The
    outer [None] is a refusal of the bound values. *)
Definition get_found (db : Store) (params : list bind_value)
  : option (option RawChatRow.t) :=
  match params with
  | [BindText p1; BindText p2; BindText p3] =>
      Some (List.hd_error
              (firstn 1
                 (order_by last_date_desc
                    (map (select_found db)
                       (filter (identifier_match p1 p2 p3) (tbl_chat db))))))
  | _ => None
  end.

Section FindChatByContact.

Variable formatDate : Date -> string.

(** [findChatByContact(contact)]; [None] is [null]. *)
Definition findChatByContact (db : Store) (contact : string)
  : option ChatSummary.t :=
  match get_found db (params (findChatByContact_statement contact)) with
  | Some (Some chat) =>
      Some {| ChatSummary.id := RawChatRow.rowid chat;
              ChatSummary.identifier := RawChatRow.chat_identifier chat;
              ChatSummary.displayName :=
                or_else (RawChatRow.display_name chat)
                  (RawChatRow.chat_identifier chat);
              ChatSummary.service := RawChatRow.service_name chat;
              ChatSummary.isGroupChat := (RawChatRow.style chat =? 43)%Z;
              ChatSummary.messageCount := RawChatRow.message_count chat;
              ChatSummary.lastMessageDate :=
                match RawChatRow.last_message_date chat with
                | Some d =>
                    if (d =? 0)%Z then "Unknown"
                    else formatDate (cocoaTimestampToDate (of_int64 d))
                | None => "Unknown"
                end |}
  | _ => None
  end.

End FindChatByContact.

End FindChat.

Import FindChat.

(* ================================================================= *)
(** ** Tool handlers of the server *)

Module Handlers.

Local Open Scope string_scope.

(** What a handler does with a request: it answers with a payload (sent
    as its JSON text), answers with an error text ([isError: true]),
    throws, or lets an exception of the query through. *)
Inductive tool_result (A : Type) : Type :=
| ToolContent (payload : A)
| ToolErrorText (text : option string)
| ToolThrow (e : thrown)
| ToolQueryThrow.
Arguments ToolContent {A} payload.
Arguments ToolErrorText {A} text.
Arguments ToolThrow {A} e.
Arguments ToolQueryThrow {A}.

(** An answer that is an error text, or a payload of at most [bound]
    entries. *)
Definition within {A : Type} (bound : Z) (r : tool_result (list A)) : Prop :=
  match r with
  | ToolContent payload => (Z.of_nat (List.length payload) <= bound)%Z
  | ToolErrorText (Some _) => True
  | _ => False
  end.

(** A value found in the arguments of a request: what [JSON.parse]
    delivers, or [undefined] for a property that is absent (also when the
    arguments themselves are).  An array or an object is held by the text
    that [String(v)] gives for it. *)
Inductive json : Type :=
| JUndefined
| JNull
| JBool (b : bool)
| JNumber (n : number)
| JString (s : string)
| JCompound (asString : string).

Section Tools.

Variable formatDate : Date -> string.

(** [String(n)] for a number and [Number(s)] for a string, as the
    language defines them. *)
Variable number_to_string : number -> string.
Variable string_to_number : string -> number.

Variable MESSAGES_DB_PATH : string.
Variable host : Host.
Variable db : Store.
Variable now : Z.

(** [ToNumber(v)]: what [<=], [>], [*] and [Math.floor] make of an
    operand before they compute. *)
Definition ToNumber (v : json) : number :=
  match v with
  | JUndefined => NaN
  | JNull => of_Z 0
  | JBool true => of_Z 1
  | JBool false => of_Z 0
  | JNumber n => n
  | JString s => string_to_number s
  | JCompound asString => string_to_number asString
  end.

(** [String(v)] *)
Definition ToString (v : json) : string :=
  match v with
  | JUndefined => "undefined"
  | JNull => "null"
  | JBool true => "true"
  | JBool false => "false"
  | JNumber n => number_to_string n
  | JString s => s
  | JCompound asString => asString
  end.

(** Whether [v] counts as true in [v ? ... : ...] and [v || ...]. *)
Definition ToBoolean (v : json) : bool :=
  match v with
  | JUndefined | JNull => false
  | JBool b => b
  | JNumber (Fin q) => negb (Qeq_bool q 0)
  | JNumber NaN => false
  | JNumber _ => true
  | JString s => negb (String.eqb s "")
  | JCompound _ => true
  end.

(** An argument as the normalizers read it: they test for [undefined]
    and [null], and compare anything else as a number.  Where
    [normalizeHours] and [normalizeDays] return the argument itself, the
    product that follows reads it as the same number. *)
Definition as_param (v : json) : param :=
  match v with
  | JUndefined => Undefined
  | JNull => Null
  | _ => Num (ToNumber v)
  end.

(** [String(v || "")] *)
Definition string_or_empty (v : json) : string :=
  if ToBoolean v then ToString v else "".

(** The check every query tool starts with, and what follows it. *)
Definition with_database {A : Type} (query : option A) : tool_result A :=
  match fst (checkDatabaseAccess MESSAGES_DB_PATH host) with
  | Throw e => ToolThrow e
  | Normal dbCheck =>
      if negb (accessible dbCheck) then ToolErrorText (error dbCheck)
      else
        match query with
        | Some payload => ToolContent payload
        | None => ToolQueryThrow
        end
  end.

(** [case "get_recent_messages"] *)
Definition tool_get_recent_messages (hours contact limit : json)
  : tool_result (list Message.t) :=
  let hours := normalizeHours (as_param hours) (of_Z 24) (of_Z 168) in
  let contact :=
    if ToBoolean contact then Some (ToString contact) else None in
  let limit := normalizeLimit (as_param limit) (of_Z 50) (of_Z 500) in
  with_database
    (getRecentMessages formatDate db now (Some hours) contact (Some limit)).

(** [case "get_conversation"] *)
Definition tool_get_conversation (contact days limit : json)
  : tool_result (list ConversationMessage.t) :=
  let contact := string_or_empty contact in
  let days := normalizeDays (as_param days) (of_Z 7) (of_Z 365) in
  let limit := normalizeLimit (as_param limit) (of_Z 100) (of_Z 1000) in
  if String.eqb contact "" then
    ToolThrow (ErrorObject "Contact is required")
  else
    with_database
      (getConversation formatDate db now contact (Some days) (Some limit)).

(** [case "search_messages"] *)
Definition tool_search_messages (query days limit : json)
  : tool_result (list Message.t) :=
  let query := string_or_empty query in
  let days := normalizeDays (as_param days) (of_Z 30) (of_Z 365) in
  let limit := normalizeLimit (as_param limit) (of_Z 50) (of_Z 200) in
  if String.eqb query "" then
    ToolThrow (ErrorObject "Search query is required")
  else
    with_database
      (searchMessages formatDate db now query (Some days) (Some limit)).

(** [case "list_chats"]; [includeGroupChats] is [args.includeGroupChats
    !== false]. *)
Definition tool_list_chats (limit includeGroupChats : json)
  : tool_result (list Chat.t) :=
  let limit := normalizeLimit (as_param limit) (of_Z 30) (of_Z 100) in
  let includeGroupChats :=
    match includeGroupChats with JBool false => false | _ => true end in
  with_database
    (listChats formatDate db (Some limit) (Some includeGroupChats)).

End Tools.

(** A sample of [Number(s)] and of [String(n)]: the one-digit numbers. *)
Definition sample_number (s : string) : number :=
  if String.eqb s "2" then of_Z 2
  else if String.eqb s "3" then of_Z 3
  else NaN.

Definition sample_text (n : number) : string :=
  match n with
  | Fin q => if Qeq_bool q 2 then "2" else if Qeq_bool q 3 then "3" else "?"
  | _ => "?"
  end.

End Handlers.

Import Handlers.

(* ================================================================= *)
(** ** Attachments ([database.ts]) *)

Module RawAttachmentRow.
Record t : Type := {
  rowid : Z;
  filename : option string;
  mime_type : option string;
  transfer_name : option string;
  total_bytes : option Z;
  is_sticker : Z;
  is_audio_message : Z
}.
End RawAttachmentRow.

Module Attachment.
Record t : Type := {
  id : Z;
  filename : option string;
  mimeType : option string;
  filePath : option string;
  fileSize : option Z;
  isSticker : bool;
  isAudioMessage : bool
}.
End Attachment.

Module Attachments.

Local Open Scope string_scope.

(** The tables [attachment] and [message_attachment_join]. *)
Record attachment_t : Type := {
  a_rowid : Z;
  a_filename : option string;
  a_mime_type : option string;
  a_transfer_name : option string;
  a_total_bytes : option Z;
  a_is_sticker : Z
}.

Record message_attachment_join_t : Type := {
  maj_message_id : Z;
  maj_attachment_id : Z
}.

Record AttachmentStore : Type := {
  tbl_attachment : list attachment_t;
  tbl_message_attachment_join : list message_attachment_join_t
}.

(** [column = ?] between an integer column and a bound number. *)
Definition equals_bound (column : Z) (bound : number) : bool :=
  match bound with
  | Fin q => Qeq_bool (inject_Z column) q
  | _ => false
  end.

(** [CASE WHEN a.mime_type LIKE 'audio/%'
          AND a.transfer_name LIKE '%Audio Message%' THEN 1 ELSE 0 END] *)
Definition audio_message_case (a : attachment_t) : Z :=
  if like_opt "audio/%" (a_mime_type a)
     && like_opt "%Audio Message%" (a_transfer_name a)
  then 1%Z else 0%Z.

Definition select_attachment (a : attachment_t) : RawAttachmentRow.t :=
  {| RawAttachmentRow.rowid := a_rowid a;
     RawAttachmentRow.filename := a_filename a;
     RawAttachmentRow.mime_type := a_mime_type a;
     RawAttachmentRow.transfer_name := a_transfer_name a;
     RawAttachmentRow.total_bytes := a_total_bytes a;
     RawAttachmentRow.is_sticker := a_is_sticker a;
     RawAttachmentRow.is_audio_message := audio_message_case a |}.

(** [FROM attachment a
     JOIN message_attachment_join maj ON a.rowid = maj.attachment_id
     WHERE maj.message_id = ?]: one row for each pair that is joined. *)
Definition all_attachments (adb : AttachmentStore) (params : list bind_value)
  : option (list RawAttachmentRow.t) :=
  match params with
  | [BindNumber messageId] =>
      Some
        (flat_map
           (fun a =>
              map (fun _ => select_attachment a)
                (filter
                   (fun j => (a_rowid a =? maj_attachment_id j)%Z
                             && equals_bound (maj_message_id j) messageId)
                   (tbl_message_attachment_join adb)))
           (tbl_attachment adb))
  | _ => None
  end.

(** [getAttachmentsForMessage(messageId)] *)
Definition getAttachmentsForMessage (adb : AttachmentStore)
  (messageId : number) : option (list Attachment.t) :=
  option_map
    (map (fun att =>
            {| Attachment.id := RawAttachmentRow.rowid att;
               Attachment.filename :=
                 or_opt (RawAttachmentRow.transfer_name att)
                   (RawAttachmentRow.filename att);
               Attachment.mimeType := RawAttachmentRow.mime_type att;
               Attachment.filePath := RawAttachmentRow.filename att;
               Attachment.fileSize := RawAttachmentRow.total_bytes att;
               Attachment.isSticker :=
                 (RawAttachmentRow.is_sticker att =? 1)%Z;
               Attachment.isAudioMessage :=
                 (RawAttachmentRow.is_audio_message att =? 1)%Z |}))
    (all_attachments adb [BindNumber messageId]).

(** Whether a text opens with a given one, or contains it, up to the
    case of ASCII letters. *)
Definition opens_with (p t : string) : Prop :=
  exists head rest, t = head ++ rest /\ same_ignoring_case p head = true.

Definition contains (p t : string) : Prop :=
  exists pre mid post,
    t = pre ++ mid ++ post /\ same_ignoring_case p mid = true.

End Attachments.

Import Attachments.

(* ================================================================= *)
(** * Properties *)

(** ** Rounding to a double *)

Module Binary64Facts.

Local Open Scope Q_scope.

Lemma pow2_pos (k : Z) : 0 < pow2 k.
Proof. apply Qpower_0_lt. reflexivity. Qed.

Lemma pow2_nonzero (k : Z) : ~ pow2 k == 0.
Proof. pose proof (pow2_pos k). lra. Qed.

Lemma pow2_add (a b : Z) : pow2 (a + b) == pow2 a * pow2 b.
Proof. apply Qpower_plus. discriminate. Qed.

Lemma pow2_lt (a b : Z) : (a < b)%Z -> pow2 a < pow2 b.
Proof. intro H. apply Qpower_lt_compat_l; [exact H | reflexivity]. Qed.

Lemma pow2_le (a b : Z) : (a <= b)%Z -> pow2 a <= pow2 b.
Proof. intro H. apply Qpower_le_compat_l; [exact H | discriminate]. Qed.

Lemma pow2_lt_inv (a b : Z) : pow2 a < pow2 b -> (a < b)%Z.
Proof. intro H. apply Qpower_lt_compat_l_inv with (q := 2 # 1); [exact H | reflexivity]. Qed.

Lemma pow2_Z (k : Z) : (0 <= k)%Z -> pow2 k == inject_Z (2 ^ k).
Proof. intro H. unfold pow2. rewrite Zpower_Qpower by exact H. reflexivity. Qed.

Lemma pow2_sub (a b : Z) : pow2 (a - b) == pow2 a / pow2 b.
Proof.
  pose proof (pow2_nonzero b) as Hb.
  assert (E : pow2 a == pow2 (a - b) * pow2 b).
  { rewrite <- pow2_add. replace (a - b + b)%Z with a by ring. reflexivity. }
  rewrite E. field. exact Hb.
Qed.

(** A positive fraction between two quotients of whole numbers. *)
Lemma frac_lt_div (n : Z) (d : positive) (a b : Z) :
  (0 < b)%Z -> (n * b < a * Zpos d)%Z -> (n # d) < inject_Z a / inject_Z b.
Proof.
  intros Hb H. apply Qlt_shift_div_l.
  - change 0 with (inject_Z 0). rewrite <- Zlt_Qlt. exact Hb.
  - unfold Qlt, Qmult, inject_Z. simpl. lia.
Qed.

Lemma div_le_frac (n : Z) (d : positive) (a b : Z) :
  (0 < b)%Z -> (a * Zpos d <= n * b)%Z -> inject_Z a / inject_Z b <= (n # d).
Proof.
  intros Hb H. apply Qle_shift_div_r.
  - change 0 with (inject_Z 0). rewrite <- Zlt_Qlt. exact Hb.
  - unfold Qle, Qmult, inject_Z. simpl. lia.
Qed.

Lemma ilog2_spec (q : Q) :
  0 < q -> pow2 (ilog2 q) <= q /\ q < pow2 (ilog2 q + 1).
Proof.
  intro Hq. destruct q as [n d].
  assert (Hn : (0 < n)%Z) by (unfold Qlt in Hq; simpl in Hq; lia).
  pose proof (Z.log2_spec n Hn) as [Ln Un].
  pose proof (Z.log2_spec (Zpos d) (Pos2Z.is_pos d)) as [Ld Ud].
  pose proof (Z.log2_nonneg n) as Nn.
  pose proof (Z.log2_nonneg (Zpos d)) as Nd.
  unfold ilog2. cbn [Qnum Qden].
  set (ln := Z.log2 n) in *. set (ld := Z.log2 (Zpos d)) in *.
  assert (P1 : (0 < 2 ^ ld)%Z) by (apply Z.pow_pos_nonneg; lia).
  assert (P2 : (0 < 2 ^ Z.succ ld)%Z) by (apply Z.pow_pos_nonneg; lia).
  assert (P3 : (0 < 2 ^ ln)%Z) by (apply Z.pow_pos_nonneg; lia).
  destruct (Qle_bool (pow2 (ln - ld)) (n # d)) eqn:E.
  - apply Qle_bool_iff in E. split; [exact E|].
    replace (ln - ld + 1)%Z with (Z.succ ln - ld)%Z by lia.
    rewrite pow2_sub, !pow2_Z by lia.
    apply frac_lt_div; [exact P1|]. nia.
  - assert (L : (n # d) < pow2 (ln - ld)).
    { apply Qnot_le_lt. intro L. apply Qle_bool_iff in L. congruence. }
    split.
    + replace (ln - ld - 1)%Z with (ln - Z.succ ld)%Z by lia.
      rewrite pow2_sub, !pow2_Z by lia.
      apply div_le_frac; [exact P2|]. nia.
    + replace (ln - ld - 1 + 1)%Z with (ln - ld)%Z by lia. exact L.
Qed.

Lemma ilog2_unique (q : Q) (k : Z) :
  pow2 k <= q -> q < pow2 (k + 1) -> ilog2 q = k.
Proof.
  intros L U.
  assert (Hq : 0 < q) by (pose proof (pow2_pos k); lra).
  destruct (ilog2_spec Hq) as [L' U'].
  assert (A : (k < ilog2 q + 1)%Z) by (apply pow2_lt_inv; lra).
  assert (B : (ilog2 q < k + 1)%Z) by (apply pow2_lt_inv; lra).
  lia.
Qed.

Lemma ilog2_comp (p q : Q) : 0 < p -> p == q -> ilog2 p = ilog2 q.
Proof.
  intros Hp E. symmetry. destruct (ilog2_spec Hp) as [L U].
  apply ilog2_unique; rewrite <- E; assumption.
Qed.

Lemma ilog2_mono (p q : Q) : 0 < p -> p <= q -> (ilog2 p <= ilog2 q)%Z.
Proof.
  intros Hp H.
  destruct (ilog2_spec Hp) as [L _].
  destruct (@ilog2_spec q ltac:(lra)) as [_ U].
  assert (A : (ilog2 p < ilog2 q + 1)%Z) by (apply pow2_lt_inv; lra).
  lia.
Qed.

Lemma ulp_exp_comp (p q : Q) : 0 < p -> p == q -> ulp_exp p = ulp_exp q.
Proof. intros Hp E. unfold ulp_exp. rewrite (ilog2_comp Hp E). reflexivity. Qed.

(** *** Rounding to the nearest whole number *)

Lemma compare_Eq (p q : Q) : Qcompare p q = Eq -> p == q.
Proof. apply Qeq_alt. Qed.

Lemma compare_Lt (p q : Q) : Qcompare p q = Lt -> p < q.
Proof. apply Qlt_alt. Qed.

Lemma compare_Gt (p q : Q) : Qcompare p q = Gt -> q < p.
Proof. apply Qgt_alt. Qed.

Lemma Lt_compare (p q : Q) : p < q -> Qcompare p q = Lt.
Proof. apply Qlt_alt. Qed.

Lemma Gt_compare (p q : Q) : q < p -> Qcompare p q = Gt.
Proof. apply Qgt_alt. Qed.

Lemma Eq_compare (p q : Q) : p == q -> Qcompare p q = Eq.
Proof. apply Qeq_alt. Qed.

Lemma nearest_even_cases (x : Q) :
  (nearest_even x = Qfloor x /\ x - inject_Z (Qfloor x) <= 1 # 2)
  \/ (nearest_even x = (Qfloor x + 1)%Z /\ 1 # 2 <= x - inject_Z (Qfloor x)).
Proof.
  unfold nearest_even.
  destruct (Qcompare (x - inject_Z (Qfloor x)) (1 # 2)) eqn:E.
  - apply compare_Eq in E.
    destruct (Z.even (Qfloor x)); [left | right]; split; try reflexivity; lra.
  - apply compare_Lt in E. left. split; [reflexivity | lra].
  - apply compare_Gt in E. right. split; [reflexivity | lra].
Qed.

Lemma nearest_even_err (x : Q) : Qabs (inject_Z (nearest_even x) - x) <= 1 # 2.
Proof.
  pose proof (Qfloor_le x) as L. pose proof (Qlt_floor x) as U.
  rewrite inject_Z_plus in U. change (inject_Z 1) with 1 in U.
  apply Qabs_Qle_condition.
  destruct (nearest_even_cases x) as [[-> H] | [-> H]].
  - lra.
  - rewrite inject_Z_plus. change (inject_Z 1) with 1. lra.
Qed.

Lemma nearest_even_Z (z : Z) : nearest_even (inject_Z z) = z.
Proof.
  unfold nearest_even. rewrite Qfloor_Z.
  replace (Qcompare (inject_Z z - inject_Z z) (1 # 2)) with Lt; [reflexivity|].
  symmetry. apply Lt_compare. lra.
Qed.

Lemma nearest_even_comp (x y : Q) : x == y -> nearest_even x = nearest_even y.
Proof.
  intro E. unfold nearest_even. rewrite (Qfloor_comp _ _ E).
  replace (Qcompare (x - inject_Z (Qfloor y)) (1 # 2))
    with (Qcompare (y - inject_Z (Qfloor y)) (1 # 2)); [reflexivity|].
  apply Qcompare_comp; [rewrite E|]; reflexivity.
Qed.

Lemma nearest_even_mono (x y : Q) :
  x <= y -> (nearest_even x <= nearest_even y)%Z.
Proof.
  intro H. pose proof (Qfloor_resp_le _ _ H) as F.
  destruct (Z.eq_dec (Qfloor x) (Qfloor y)) as [Ef | Nf].
  - unfold nearest_even. rewrite Ef.
    destruct (Qcompare (x - inject_Z (Qfloor y)) (1 # 2)) eqn:Ex;
      destruct (Qcompare (y - inject_Z (Qfloor y)) (1 # 2)) eqn:Ey;
      try apply compare_Eq in Ex; try apply compare_Lt in Ex;
      try apply compare_Gt in Ex;
      try apply compare_Eq in Ey; try apply compare_Lt in Ey;
      try apply compare_Gt in Ey;
      try lra; destruct (Z.even (Qfloor y)); lia.
  - destruct (nearest_even_cases x) as [[-> _] | [-> _]];
      destruct (nearest_even_cases y) as [[-> _] | [-> _]]; lia.
Qed.

(** *** Rounding a positive rational to 53 significant bits *)

Lemma scaled (q : Q) (k : Z) : q == q / pow2 k * pow2 k.
Proof. field. apply pow2_nonzero. Qed.

Lemma div_pow2_le (p q : Q) (k : Z) : p <= q -> p / pow2 k <= q / pow2 k.
Proof.
  intro H. unfold Qdiv. apply Qmult_le_compat_r; [exact H|].
  apply Qlt_le_weak, Qinv_lt_0_compat, pow2_pos.
Qed.

Lemma mul_pow2_le (x y : Z) (k : Z) :
  (x <= y)%Z -> inject_Z x * pow2 k <= inject_Z y * pow2 k.
Proof.
  intro H. apply Qmult_le_compat_r.
  - rewrite <- Zle_Qle. exact H.
  - apply Qlt_le_weak, pow2_pos.
Qed.

Lemma ulp_exp_cases (q : Q) :
  (ulp_exp q = (ilog2 q - 52)%Z /\ (-1074 <= ilog2 q - 52)%Z)
  \/ (ulp_exp q = (-1074)%Z /\ (ilog2 q - 52 < -1074)%Z).
Proof. unfold ulp_exp. lia. Qed.

Lemma round_pos_comp (p q : Q) :
  0 < p -> p == q -> round_pos p == round_pos q.
Proof.
  intros Hp E. unfold round_pos. rewrite (ulp_exp_comp Hp E).
  rewrite (@nearest_even_comp (p / pow2 (ulp_exp q)) (q / pow2 (ulp_exp q)))
    by (rewrite E; reflexivity).
  reflexivity.
Qed.

Lemma round_pos_nonneg (q : Q) : 0 < q -> 0 <= round_pos q.
Proof.
  intro Hq. unfold round_pos. pose proof (pow2_pos (ulp_exp q)) as P.
  apply Qmult_le_0_compat; [|lra].
  change 0 with (inject_Z 0). rewrite <- Zle_Qle.
  rewrite <- (nearest_even_Z 0) at 1. apply nearest_even_mono.
  apply Qle_shift_div_l; [exact P|]. change (inject_Z 0) with 0. lra.
Qed.

Lemma half_pow2 (k : Z) : (1 # 2) * pow2 k == pow2 (k - 1).
Proof.
  replace k with (1 + (k - 1))%Z at 1 by ring. rewrite pow2_add.
  change (pow2 1) with 2. field.
Qed.

Lemma round_pos_err (q : Q) :
  0 < q -> Qabs (round_pos q - q) <= q * pow2 (-53) + pow2 (-1075).
Proof.
  intro Hq. unfold round_pos. set (k := ulp_exp q).
  pose proof (nearest_even_err (q / pow2 k)) as E.
  apply Qabs_Qle_condition in E. destruct E as [E1 E2].
  pose proof (pow2_pos k) as Pk.
  set (n := inject_Z (nearest_even (q / pow2 k))) in *.
  assert (D : n * pow2 k - q == (n - q / pow2 k) * pow2 k)
    by (field; apply pow2_nonzero).
  assert (U : (n - q / pow2 k) * pow2 k <= pow2 (k - 1)).
  { rewrite <- half_pow2. apply Qmult_le_compat_r; lra. }
  assert (L : - pow2 (k - 1) <= (n - q / pow2 k) * pow2 k).
  { rewrite <- half_pow2.
    setoid_replace (- ((1 # 2) * pow2 k)) with ((- (1 # 2)) * pow2 k) by ring.
    apply Qmult_le_compat_r; lra. }
  assert (B : pow2 (k - 1) <= q * pow2 (-53) + pow2 (-1075)).
  { destruct (ilog2_spec Hq) as [Lq _].
    pose proof (pow2_pos (-53)) as P53. pose proof (pow2_pos (-1075)) as P1075.
    destruct (ulp_exp_cases q) as [[Ek _] | [Ek _]]; fold k in Ek; rewrite Ek.
    - replace (ilog2 q - 52 - 1)%Z with (ilog2 q + -53)%Z by ring.
      rewrite pow2_add.
      assert (pow2 (ilog2 q) * pow2 (-53) <= q * pow2 (-53))
        by (apply Qmult_le_compat_r; lra).
      lra.
    - change (-1074 - 1)%Z with (-1075)%Z.
      assert (0 <= q * pow2 (-53)) by (apply Qmult_le_0_compat; lra).
      lra. }
  apply Qabs_Qle_condition. rewrite D. lra.
Qed.

Lemma pow2_scaled (n k : Z) :
  (0 <= n)%Z -> pow2 (k + n) == inject_Z (2 ^ n) * pow2 k.
Proof. intro H. rewrite pow2_add, (pow2_Z H). ring. Qed.

Lemma round_pos_mono (p q : Q) :
  0 < p -> p <= q -> round_pos p <= round_pos q.
Proof.
  intros Hp H. assert (Hq : 0 < q) by lra.
  pose proof (ilog2_mono Hp H) as Hl.
  destruct (ilog2_spec Hp) as [_ Up]. destruct (ilog2_spec Hq) as [Lq _].
  unfold round_pos.
  destruct (Z.eq_dec (ulp_exp p) (ulp_exp q)) as [E | N].
  - rewrite E. apply mul_pow2_le, nearest_even_mono, div_pow2_le, H.
  - set (kp := ulp_exp p) in *. set (kq := ulp_exp q) in *.
    assert (Hk : (kp + 1 <= kq)%Z /\ kq = (ilog2 q - 52)%Z
                 /\ (ilog2 p - 52 <= kp)%Z).
    { unfold kp, kq, ulp_exp in *. lia. }
    destruct Hk as [Hk [Eq Ep]].
    apply Qle_trans with (pow2 (kp + 53)).
    + rewrite (@pow2_scaled 53 kp) by lia.
      apply mul_pow2_le. rewrite <- (nearest_even_Z (2 ^ 53)).
      apply nearest_even_mono.
      apply Qle_shift_div_r; [apply pow2_pos|].
      rewrite <- (@pow2_scaled 53 kp) by lia.
      apply Qle_trans with (pow2 (ilog2 p + 1)); [lra|].
      apply pow2_le. lia.
    + apply Qle_trans with (pow2 (kq + 52)); [apply pow2_le; lia|].
      rewrite (@pow2_scaled 52 kq) by lia.
      apply mul_pow2_le. rewrite <- (nearest_even_Z (2 ^ 52)) at 1.
      apply nearest_even_mono.
      apply Qle_shift_div_l; [apply pow2_pos|].
      rewrite <- (@pow2_scaled 52 kq) by lia.
      replace (kq + 52)%Z with (ilog2 q) by lia. exact Lq.
Qed.

Lemma round_pos_exact (q : Q) (m j : Z) :
  0 < q -> q == inject_Z m * pow2 j -> (m < 2 ^ 53)%Z -> (-1074 <= j)%Z ->
  round_pos q == q.
Proof.
  intros Hq E Hm Hj.
  pose proof (pow2_pos j) as Pj.
  destruct (ilog2_spec Hq) as [Lq _].
  assert (Hk : (ulp_exp q <= j)%Z).
  { assert (U : q < pow2 (j + 53)).
    { rewrite (@pow2_scaled 53 j), E by lia.
      apply Qmult_lt_compat_r; [exact Pj|]. rewrite <- Zlt_Qlt. exact Hm. }
    assert (A : (ilog2 q < j + 53)%Z) by (apply pow2_lt_inv; lra).
    unfold ulp_exp. lia. }
  unfold round_pos. set (k := ulp_exp q) in *.
  assert (S : q / pow2 k == inject_Z (m * 2 ^ (j - k))).
  { rewrite inject_Z_mult, <- (pow2_Z (k := j - k)) by lia.
    rewrite pow2_sub, E. field. apply pow2_nonzero. }
  rewrite (nearest_even_comp S), nearest_even_Z.
  rewrite inject_Z_mult, <- (pow2_Z (k := j - k)) by lia.
  rewrite pow2_sub, E. field. apply pow2_nonzero.
Qed.

(** *** Rounding any rational *)

Lemma rnd_pos (q : Q) : 0 < q -> rnd q = round_pos q.
Proof. intro H. unfold rnd. rewrite (Gt_compare H). reflexivity. Qed.

Lemma rnd_neg (q : Q) : q < 0 -> rnd q = - round_pos (- q).
Proof. intro H. unfold rnd. rewrite (Lt_compare H). reflexivity. Qed.

Lemma rnd_zero (q : Q) : q == 0 -> rnd q = 0.
Proof. intro H. unfold rnd. rewrite (Eq_compare H). reflexivity. Qed.

Lemma sign_cases (q : Q) : q < 0 \/ q == 0 \/ 0 < q.
Proof.
  destruct (Q_dec q 0) as [[H | H] | H]; auto.
Qed.

Lemma rnd_comp (p q : Q) : p == q -> rnd p == rnd q.
Proof.
  intro E. destruct (sign_cases p) as [H | [H | H]].
  - rewrite (rnd_neg H), (@rnd_neg q) by lra.
    rewrite (@round_pos_comp (- p) (- q)) by lra. reflexivity.
  - rewrite (rnd_zero H), (@rnd_zero q) by lra. reflexivity.
  - rewrite (rnd_pos H), (@rnd_pos q) by lra.
    apply round_pos_comp; assumption.
Qed.

Lemma rnd_opp (q : Q) : rnd (- q) == - rnd q.
Proof.
  destruct (sign_cases q) as [H | [H | H]].
  - rewrite (rnd_neg H), (@rnd_pos (- q)) by lra. ring.
  - rewrite (rnd_zero H), (@rnd_zero (- q)) by lra. reflexivity.
  - rewrite (rnd_pos H), (@rnd_neg (- q)) by lra.
    rewrite (@round_pos_comp (- - q) q) by lra. reflexivity.
Qed.

(** The relative error of rounding is at most 2^-53, apart from the
    absolute error of 2^-1075 among the subnormal numbers. *)
Lemma rnd_err (q : Q) :
  Qabs (rnd q - q) <= Qabs q * pow2 (-53) + pow2 (-1075).
Proof.
  pose proof (pow2_pos (-53)) as P53. pose proof (pow2_pos (-1075)) as P1075.
  destruct (sign_cases q) as [H | [H | H]].
  - rewrite (rnd_neg H).
    pose proof (@round_pos_err (- q) ltac:(lra)) as E.
    rewrite (Qabs_neg q) by lra.
    apply Qabs_Qle_condition in E. apply Qabs_Qle_condition. lra.
  - rewrite (rnd_zero H).
    assert (0 <= Qabs q * pow2 (-53))
      by (apply Qmult_le_0_compat; [apply Qabs_nonneg | lra]).
    apply Qabs_Qle_condition. lra.
  - rewrite (rnd_pos H), (Qabs_pos q) by lra. apply round_pos_err, H.
Qed.

(** Rounding is monotone. *)
Lemma rnd_mono (p q : Q) : p <= q -> rnd p <= rnd q.
Proof.
  intro H.
  destruct (sign_cases p) as [Hp | [Hp | Hp]];
    destruct (sign_cases q) as [Hq | [Hq | Hq]]; try lra.
  - rewrite (rnd_neg Hp), (rnd_neg Hq).
    pose proof (@round_pos_mono (- q) (- p) ltac:(lra) ltac:(lra)). lra.
  - rewrite (rnd_neg Hp), (rnd_zero Hq).
    pose proof (@round_pos_nonneg (- p) ltac:(lra)). lra.
  - rewrite (rnd_neg Hp), (rnd_pos Hq).
    pose proof (@round_pos_nonneg (- p) ltac:(lra)).
    pose proof (round_pos_nonneg Hq). lra.
  - rewrite (rnd_zero Hp), (rnd_zero Hq). lra.
  - rewrite (rnd_zero Hp), (rnd_pos Hq). apply round_pos_nonneg, Hq.
  - rewrite (rnd_pos Hp), (rnd_pos Hq). apply round_pos_mono; assumption.
Qed.

(** A rational with at most 53 significant bits, of exponent at least
    -1074, is its own rounding. *)
Lemma rnd_exact (q : Q) (m j : Z) :
  q == inject_Z m * pow2 j -> (Z.abs m < 2 ^ 53)%Z -> (-1074 <= j)%Z ->
  rnd q == q.
Proof.
  intros E Hm Hj. pose proof (pow2_pos j) as Pj.
  destruct (sign_cases q) as [H | [H | H]].
  - rewrite (rnd_neg H).
    assert (Hneg : (m < 0)%Z).
    { destruct (Z_lt_le_dec m 0) as [L | L]; [exact L|]. exfalso.
      assert (0 <= inject_Z m * pow2 j).
      { apply Qmult_le_0_compat; [|lra].
        change 0 with (inject_Z 0). rewrite <- Zle_Qle. exact L. }
      lra. }
    assert (X : round_pos (- q) == - q).
    { apply (@round_pos_exact (- q) (- m) j);
        [lra | rewrite inject_Z_opp, E; ring | lia | exact Hj]. }
    rewrite X. ring.
  - rewrite (rnd_zero H). lra.
  - rewrite (rnd_pos H). apply (@round_pos_exact q m j); try assumption. lia.
Qed.

Lemma rnd_Z (z : Z) : (Z.abs z < 2 ^ 53)%Z -> rnd (inject_Z z) == inject_Z z.
Proof.
  intro H. apply (@rnd_exact _ z 0); [|exact H|lia].
  change (pow2 0) with 1. ring.
Qed.

End Binary64Facts.

Import Binary64Facts.

(** ** Numbers and dates *)

Module NumberFacts.

Local Open Scope Q_scope.

Lemma gt_Fin (x y : Q) : (Fin x >? Fin y)%js = true <-> y < x.
Proof.
  simpl. rewrite negb_true_iff. split; intro H.
  - apply Qnot_le_lt. intro L. apply Qle_bool_iff in L. congruence.
  - destruct (Qle_bool x y) eqn:E; [|reflexivity].
    apply Qle_bool_iff in E. exfalso. apply (Qlt_not_le _ _ H E).
Qed.

Lemma gt_Fin_false (x y : Q) : (Fin x >? Fin y)%js = false <-> x <= y.
Proof.
  simpl. rewrite negb_false_iff. apply Qle_bool_iff.
Qed.

Lemma le_Fin (x y : Q) : (Fin x <=? Fin y)%js = true <-> x <= y.
Proof. simpl. apply Qle_bool_iff. Qed.

Lemma le_Fin_false (x y : Q) : (Fin x <=? Fin y)%js = false <-> y < x.
Proof.
  simpl. split; intro H.
  - apply Qnot_le_lt. intro L. apply Qle_bool_iff in L. congruence.
  - destruct (Qle_bool x y) eqn:E; [|reflexivity].
    apply Qle_bool_iff in E. exfalso. apply (Qlt_not_le _ _ H E).
Qed.

Lemma div_Fin (x y : Q) :
  ~ y == 0 -> (Fin x / Fin y)%js = round64 (x / y).
Proof.
  intro H. simpl. destruct (Qeq_bool y 0) eqn:E; [|reflexivity].
  apply Qeq_bool_iff in E. contradiction.
Qed.

Lemma same_refl (a : number) : a ≡ a.
Proof. destruct a; simpl; auto. reflexivity. Qed.

Lemma same_sym (a b : number) : a ≡ b -> b ≡ a.
Proof. destruct a, b; simpl; auto. intro H. symmetry. exact H. Qed.

Lemma same_trans (a b c : number) : a ≡ b -> b ≡ c -> a ≡ c.
Proof.
  destruct a, b, c; simpl; auto; try contradiction.
  intros H1 H2. rewrite H1. exact H2.
Qed.

Lemma Qtrunc_comp (x y : Q) : x == y -> Qtrunc x = Qtrunc y.
Proof.
  intro H. unfold Qtrunc.
  rewrite (Qfloor_comp _ _ H), (Qceiling_comp _ _ H), (Qleb_comp _ _ (Qeq_refl 0) _ _ H).
  reflexivity.
Qed.

Lemma Qtrunc_Z (z : Z) : Qtrunc (inject_Z z) = z.
Proof.
  unfold Qtrunc. rewrite Qfloor_Z, Qceiling_Z.
  destruct (Qle_bool 0 (inject_Z z)); reflexivity.
Qed.

(** Truncation moves a value by less than one unit, toward zero. *)
Lemma Qtrunc_near (q : Q) : Qabs (q - inject_Z (Qtrunc q)) < 1.
Proof.
  unfold Qtrunc. destruct (Qle_bool 0 q) eqn:E.
  - apply Qle_bool_iff in E.
    pose proof (Qfloor_le q) as L. pose proof (Qlt_floor q) as U.
    rewrite inject_Z_plus in U. change (inject_Z 1) with 1 in U.
    apply Qabs_case; intros; lra.
  - assert (N : q < 0).
    { apply Qnot_le_lt. intro L. apply Qle_bool_iff in L. congruence. }
    pose proof (Qle_ceiling q) as L. pose proof (Qceiling_lt q) as U.
    unfold Z.sub in U. rewrite inject_Z_plus in U.
    change (inject_Z (- (1))) with (-1 # 1) in U.
    apply Qabs_case; intros; lra.
Qed.

(** A rational that is a whole number is its own truncation. *)
Lemma Qtrunc_fix (q : Q) : inject_Z (Qtrunc q) == q <-> exists z, q == inject_Z z.
Proof.
  split.
  - intro H. exists (Qtrunc q). symmetry. exact H.
  - intros [z Hz]. rewrite (Qtrunc_comp Hz), Qtrunc_Z. symmetry. exact Hz.
Qed.

Lemma TimeClip_comp (x y : Q) : x == y -> TimeClip (Fin x) = TimeClip (Fin y).
Proof.
  intro H. unfold TimeClip. rewrite H, (Qtrunc_comp H). reflexivity.
Qed.

Lemma TimeClip_Z (z : Z) :
  (Z.abs z <= MAX_TIME)%Z -> TimeClip (of_Z z) = TimeValue z.
Proof.
  intro H. unfold TimeClip, of_Z.
  rewrite Qtrunc_Z.
  destruct (Qle_bool (Qabs (inject_Z z)) (inject_Z MAX_TIME)) eqn:E;
    [reflexivity|].
  exfalso.
  assert (L : Qabs (inject_Z z) <= inject_Z MAX_TIME).
  { apply Qabs_Qle_condition. rewrite <- inject_Z_opp, <- !Zle_Qle. lia. }
  apply Qle_bool_iff in L. congruence.
Qed.

Lemma TimeClip_out_of_range (q : Q) :
  inject_Z MAX_TIME < Qabs q -> TimeClip (Fin q) = InvalidDate.
Proof.
  intro H. unfold TimeClip.
  destruct (Qle_bool (Qabs q) (inject_Z MAX_TIME)) eqn:E; [|reflexivity].
  apply Qle_bool_iff in E. exfalso. apply (Qlt_not_le _ _ H E).
Qed.

(** The time value held by [new Date(q)] when there is one. *)
Lemma TimeClip_inv (q : Q) (ms : Z) :
  TimeClip (Fin q) = TimeValue ms ->
  ms = Qtrunc q /\ Qabs q <= inject_Z MAX_TIME.
Proof.
  unfold TimeClip.
  destruct (Qle_bool (Qabs q) (inject_Z MAX_TIME)) eqn:E; [|discriminate].
  intro H. inversion H. split; [reflexivity|]. apply Qle_bool_iff. exact E.
Qed.

(** *** Arithmetic on finite numbers *)

Lemma round64_comp (p q : Q) : p == q -> round64 p = round64 q.
Proof.
  intro E. unfold round64.
  rewrite (Qred_complete _ _ (rnd_comp E)). reflexivity.
Qed.

(** Some roundings: a tenth; a tie, which goes to the even neighbour; the
    largest double and the least number that overflows; the halves of the
    least positive double. *)
Example round64_examples :
  round64 (1 # 10) = Fin (3602879701896397 # 36028797018963968)
  /\ round64 9007199254740993 = Fin 9007199254740992
  /\ round64 9007199254740995 = Fin 9007199254740996
  /\ round64 (pow2 1024 - pow2 971) = Fin (Qred (pow2 1024 - pow2 971))
  /\ round64 (pow2 1024 - pow2 970) = PosInf
  /\ round64 (- pow2 1024) = NegInf
  /\ round64 (pow2 (-1075)) = Fin 0
  /\ round64 (3 * pow2 (-1076)) = Fin (Qred (pow2 (-1074))).
Proof. repeat split; vm_compute; reflexivity. Qed.

Lemma rnd_pow2 (k : Z) : (-1074 <= k)%Z -> rnd (pow2 k) == pow2 k.
Proof.
  intro H. apply (@rnd_exact _ 1 k); [ring | reflexivity | exact H].
Qed.

Lemma rnd_bound (q : Q) (k : Z) :
  (-1074 <= k)%Z -> Qabs q <= pow2 k -> Qabs (rnd q) <= pow2 k.
Proof.
  intros Hk H. apply Qabs_Qle_condition in H. destruct H as [L U].
  apply Qabs_Qle_condition. split.
  - rewrite <- (rnd_pow2 Hk), <- rnd_opp. apply rnd_mono. exact L.
  - rewrite <- (rnd_pow2 Hk). apply rnd_mono. exact U.
Qed.

(** The bound below which nothing overflows in this development. *)
Lemma small_is_finite (q : Q) :
  Qabs q <= 1000000000000000000000000000000 ->
  exists r, round64 q = Fin r /\ r == rnd q.
Proof.
  intro H.
  assert (B : Qabs q <= pow2 100).
  { apply Qle_trans with (1 := H). apply Qle_bool_iff. vm_compute. reflexivity. }
  pose proof (@rnd_bound q 100 ltac:(lia) B) as R.
  pose proof (@pow2_lt 100 1024 ltac:(lia)) as P.
  exists (Qred (rnd q)). split; [|apply Qred_correct].
  unfold round64. cbv zeta.
  replace (Qle_bool (pow2 1024) (Qabs (Qred (rnd q)))) with false;
    [reflexivity|].
  symmetry. apply not_true_is_false. intro C. apply Qle_bool_iff in C.
  rewrite Qred_correct in C. lra.
Qed.

(** The relative error of a rounding, with 2^-53 and a bound on 2^-1075
    written out. *)
Lemma rnd_near (q : Q) :
  Qabs (rnd q - q)
  <= Qabs q * (1 # 9007199254740992)
     + (1 # 1000000000000000000000000000000).
Proof.
  apply Qle_trans with (1 := rnd_err q).
  assert (A : pow2 (-53) == 1 # 9007199254740992) by reflexivity.
  assert (B : pow2 (-1075) <= 1 # 1000000000000000000000000000000).
  { apply Qle_bool_iff. vm_compute. reflexivity. }
  rewrite A. lra.
Qed.

Lemma rnd_bounds_pos (q r : Q) :
  r == rnd q -> 0 <= q ->
  q - (q * (1 # 9007199254740992) + (1 # 1000000000000000000000000000000))
  <= r
  /\ r <= q + (q * (1 # 9007199254740992)
               + (1 # 1000000000000000000000000000000))
  /\ 0 <= r.
Proof.
  intros E H. pose proof (rnd_near q) as N.
  rewrite (Qabs_pos q H) in N. apply Qabs_Qle_condition in N.
  pose proof (rnd_mono H) as M. rewrite (@rnd_zero 0) in M by reflexivity.
  rewrite E. lra.
Qed.

Lemma rnd_bounds_neg (q r : Q) :
  r == rnd q -> q <= 0 ->
  q - (- q * (1 # 9007199254740992) + (1 # 1000000000000000000000000000000))
  <= r
  /\ r <= q + (- q * (1 # 9007199254740992)
               + (1 # 1000000000000000000000000000000))
  /\ r <= 0.
Proof.
  intros E H. pose proof (rnd_near q) as N.
  rewrite (Qabs_neg q H) in N. apply Qabs_Qle_condition in N.
  pose proof (rnd_mono H) as M. rewrite (@rnd_zero 0) in M by reflexivity.
  rewrite E. lra.
Qed.

(** Comparing a rounded value with the rounding of a constant. *)
Lemma rnd_le_const (q r c rc : Q) :
  r == rnd q -> q <= c -> Qred (rnd c) = rc -> r <= rc.
Proof.
  intros E H <-. rewrite Qred_correct, E. apply rnd_mono, H.
Qed.

Lemma rnd_ge_const (q r c rc : Q) :
  r == rnd q -> c <= q -> Qred (rnd c) = rc -> rc <= r.
Proof.
  intros E H <-. rewrite Qred_correct, E. apply rnd_mono, H.
Qed.

Lemma add_Fin (x y : Q) :
  Qabs (x + y) <= 1000000000000000000000000000000 ->
  exists r, (Fin x + Fin y)%js = Fin r /\ r == rnd (x + y).
Proof. apply small_is_finite. Qed.

Lemma sub_Fin (x y : Q) :
  Qabs (x - y) <= 1000000000000000000000000000000 ->
  exists r, (Fin x - Fin y)%js = Fin r /\ r == rnd (x - y).
Proof. apply small_is_finite. Qed.

Lemma mul_Fin (x y : Q) :
  Qabs (x * y) <= 1000000000000000000000000000000 ->
  exists r, (Fin x * Fin y)%js = Fin r /\ r == rnd (x * y).
Proof. apply small_is_finite. Qed.

Lemma div_Fin_small (x y : Q) :
  ~ y == 0 -> Qabs (x / y) <= 1000000000000000000000000000000 ->
  exists r, (Fin x / Fin y)%js = Fin r /\ r == rnd (x / y).
Proof. intros Hy H. rewrite (div_Fin x Hy). apply small_is_finite, H. Qed.

(** Finite results, with the bound written on both sides. *)
Lemma finite_between (q : Q) :
  - (1000000000000000000000000000000) <= q
  /\ q <= 1000000000000000000000000000000 ->
  exists r, round64 q = Fin r /\ r == rnd q.
Proof.
  intro H. apply small_is_finite. apply Qabs_Qle_condition. lra.
Qed.

(** A rounded value is, crudely, at most twice as large as the exact one. *)
Lemma rnd_crude (q r B : Q) :
  r == rnd q -> - B <= q /\ q <= B -> - (2 * B + 1) <= r /\ r <= 2 * B + 1.
Proof.
  intros E [L U]. pose proof (rnd_near q) as N.
  apply Qabs_Qle_condition in N. rewrite E.
  assert (A : Qabs q <= B) by (apply Qabs_Qle_condition; lra).
  assert (P : Qabs q * (1 # 9007199254740992) <= B).
  { pose proof (Qabs_nonneg q).
    apply Qle_trans with (Qabs q * 1); [|lra].
    apply Qmult_le_compat_nonneg; lra. }
  lra.
Qed.

(** A time value truncated from a number near a whole one. *)
Lemma Qtrunc_close (v : Q) (x k : Z) :
  inject_Z x - inject_Z k <= v -> v <= inject_Z x + inject_Z k ->
  (Z.abs (Qtrunc v - x) <= k)%Z.
Proof.
  intros L U. pose proof (Qtrunc_near v) as N.
  apply Qabs_Qlt_condition in N. destruct N as [N1 N2].
  assert (A : inject_Z (x - k - 1) < inject_Z (Qtrunc v)).
  { unfold Z.sub. rewrite !inject_Z_plus, !inject_Z_opp.
    change (inject_Z 1) with 1. lra. }
  assert (B : inject_Z (Qtrunc v) < inject_Z (x + k + 1)).
  { rewrite !inject_Z_plus. change (inject_Z 1) with 1. lra. }
  rewrite <- Zlt_Qlt in A, B. lia.
Qed.

Lemma Qtrunc_above (v : Q) (x k : Z) :
  inject_Z x + inject_Z k + 1 <= v -> (x + k < Qtrunc v)%Z.
Proof.
  intro L. pose proof (Qtrunc_near v) as N.
  apply Qabs_Qlt_condition in N. destruct N as [N1 N2].
  assert (A : inject_Z (x + k) < inject_Z (Qtrunc v)).
  { rewrite !inject_Z_plus. lra. }
  rewrite <- Zlt_Qlt in A. exact A.
Qed.

Lemma Qtrunc_below (v : Q) (x k : Z) :
  v <= inject_Z x - inject_Z k - 1 -> (Qtrunc v < x - k)%Z.
Proof.
  intro L. pose proof (Qtrunc_near v) as N.
  apply Qabs_Qlt_condition in N. destruct N as [N1 N2].
  assert (A : inject_Z (Qtrunc v) < inject_Z (x - k)).
  { unfold Z.sub. rewrite !inject_Z_plus, !inject_Z_opp. lra. }
  rewrite <- Zlt_Qlt in A. exact A.
Qed.

Lemma TimeClip_within (v : Q) :
  - (8640000000000000) <= v -> v <= 8640000000000000 ->
  TimeClip (Fin v) = TimeValue (Qtrunc v).
Proof.
  intros L U. unfold TimeClip.
  replace (Qle_bool (Qabs v) (inject_Z MAX_TIME)) with true; [reflexivity|].
  symmetry. apply Qle_bool_iff, Qabs_Qle_condition.
  unfold MAX_TIME. change (inject_Z 8640000000000000) with 8640000000000000.
  lra.
Qed.

(** *** Whole numbers below 2^53 are computed with exactly *)

Lemma Qred_inject_Z (z : Z) : Qred (inject_Z z) = inject_Z z.
Proof.
  unfold Qred, inject_Z.
  pose proof (Z.ggcd_gcd z 1) as G.
  pose proof (Z.ggcd_correct_divisors z 1) as D.
  destruct (Z.ggcd z 1) as [g [aa bb]]. simpl in G, D.
  rewrite Z.gcd_1_r in G. subst g. destruct D as [D1 D2].
  assert (Ea : aa = z) by lia. assert (Eb : bb = 1%Z) by lia.
  rewrite Ea, Eb. reflexivity.
Qed.

Lemma round64_Z (z : Z) :
  (Z.abs z < 2 ^ 53)%Z -> round64 (inject_Z z) = of_Z z.
Proof.
  intro H. unfold round64. cbv zeta.
  assert (R : Qred (rnd (inject_Z z)) = inject_Z z).
  { rewrite <- (Qred_inject_Z z) at 2. apply Qred_complete, rnd_Z, H. }
  rewrite R.
  replace (Qle_bool (pow2 1024) (Qabs (inject_Z z))) with false;
    [reflexivity|].
  symmetry. apply not_true_is_false. intro C. apply Qle_bool_iff in C.
  assert (B : Qabs (inject_Z z) <= pow2 53).
  { rewrite (pow2_Z (k := 53)) by lia. apply Qabs_Qle_condition.
    rewrite <- inject_Z_opp, <- !Zle_Qle. lia. }
  pose proof (@pow2_lt 53 1024 ltac:(lia)). lra.
Qed.

Lemma mul_Z (a b : Z) :
  (Z.abs (a * b) < 2 ^ 53)%Z -> (of_Z a * of_Z b)%js = of_Z (a * b).
Proof.
  intro H. unfold of_Z at 1 2. simpl.
  rewrite <- round64_Z by exact H. apply round64_comp.
  rewrite inject_Z_mult. reflexivity.
Qed.

Lemma sub_Z (a b : Z) :
  (Z.abs (a - b) < 2 ^ 53)%Z -> (of_Z a - of_Z b)%js = of_Z (a - b).
Proof.
  intro H. unfold of_Z at 1 2. simpl.
  rewrite <- round64_Z by exact H. apply round64_comp.
  unfold Z.sub. rewrite inject_Z_plus, inject_Z_opp. reflexivity.
Qed.

Lemma add_Z (a b : Z) :
  (Z.abs (a + b) < 2 ^ 53)%Z -> (of_Z a + of_Z b)%js = of_Z (a + b).
Proof.
  intro H. unfold of_Z at 1 2. simpl.
  rewrite <- round64_Z by exact H. apply round64_comp.
  rewrite inject_Z_plus. reflexivity.
Qed.

(** *** The order of numbers *)

Lemma round64_cases (q : Q) :
  round64 q = PosInf \/ round64 q = NegInf \/ exists r, round64 q = Fin r.
Proof.
  unfold round64. cbv zeta.
  destruct (Qle_bool (pow2 1024) (Qabs (Qred (rnd q))));
    [destruct (Qle_bool 0 (Qred (rnd q)))|]; eauto.
Qed.

Lemma round64_not_NaN (q : Q) : round64 q <> NaN.
Proof.
  destruct (round64_cases q) as [E | [E | [r E]]]; rewrite E; discriminate.
Qed.

Lemma le_NegInf (a : number) : a <> NaN -> (NegInf <=? a)%js = true.
Proof. destruct a; simpl; congruence. Qed.

Lemma le_PosInf (a : number) : a <> NaN -> (a <=? PosInf)%js = true.
Proof. destruct a; simpl; congruence. Qed.

Lemma Qle_bool_false (a b : Q) : Qle_bool a b = false -> b < a.
Proof.
  intro H. apply Qnot_le_lt. intro C. apply Qle_bool_iff in C. congruence.
Qed.

(** Rounding keeps the order. *)
Lemma round64_mono (p q : Q) :
  p <= q -> (round64 p <=? round64 q)%js = true.
Proof.
  intro H.
  assert (M : Qred (rnd p) <= Qred (rnd q))
    by (rewrite !Qred_correct; apply rnd_mono, H).
  pose proof (pow2_pos 1024) as P.
  unfold round64. cbv zeta.
  set (rp := Qred (rnd p)) in *. set (rq := Qred (rnd q)) in *.
  generalize dependent (pow2 1024). intros big P.
  destruct (Qle_bool big (Qabs rp)) eqn:Op;
    destruct (Qle_bool big (Qabs rq)) eqn:Oq;
    destruct (Qle_bool 0 rp) eqn:Sp; destruct (Qle_bool 0 rq) eqn:Sq;
    try reflexivity;
    try (simpl; apply Qle_bool_iff; exact M);
    exfalso;
    try apply Qle_bool_iff in Op; try apply Qle_bool_false in Op;
    try apply Qle_bool_iff in Oq; try apply Qle_bool_false in Oq;
    try apply Qle_bool_iff in Sp; try apply Qle_bool_false in Sp;
    try apply Qle_bool_iff in Sq; try apply Qle_bool_false in Sq;
    revert Op Oq; apply Qabs_case; intro; apply Qabs_case; intros; lra.
Qed.


Lemma Qsign_pos (k : Q) : 0 < k -> Qsign k = Gt.
Proof. intro H. unfold Qsign. apply Gt_compare. exact H. Qed.

Lemma Qeq_bool_pos (k : Q) : 0 < k -> Qeq_bool k 0 = false.
Proof.
  intro H. apply not_true_is_false. intro C. apply Qeq_bool_iff in C. lra.
Qed.

(** Multiplying and dividing by a positive constant, and subtracting a
    constant, keep the order; subtracting from a constant reverses it. *)
Lemma mul_pos_mono (k : Q) (a b : number) :
  0 < k -> (a <=? b)%js = true -> (a * Fin k <=? b * Fin k)%js = true.
Proof.
  intros Hk H. pose proof (Qsign_pos Hk) as Sk.
  destruct a as [| | |x], b as [| | |y]; simpl in H; try discriminate;
    simpl; rewrite ?Sk; simpl; try reflexivity.
  - apply le_NegInf, round64_not_NaN.
  - apply le_PosInf, round64_not_NaN.
  - apply round64_mono. apply Qle_bool_iff in H.
    apply Qmult_le_compat_r; lra.
Qed.

Lemma div_pos_mono (k : Q) (a b : number) :
  0 < k -> (a <=? b)%js = true -> (a / Fin k <=? b / Fin k)%js = true.
Proof.
  intros Hk H. pose proof (Qsign_pos Hk) as Sk.
  pose proof (Qeq_bool_pos Hk) as Ek.
  destruct a as [| | |x], b as [| | |y]; simpl in H; try discriminate;
    simpl; rewrite ?Ek, ?Sk; simpl; try reflexivity.
  - apply le_NegInf, round64_not_NaN.
  - apply le_PosInf, round64_not_NaN.
  - apply round64_mono. apply Qle_bool_iff in H.
    unfold Qdiv. apply Qmult_le_compat_r; [exact H|].
    apply Qlt_le_weak, Qinv_lt_0_compat, Hk.
Qed.

Lemma sub_const_mono (c : Q) (a b : number) :
  (a <=? b)%js = true -> (a - Fin c <=? b - Fin c)%js = true.
Proof.
  intro H.
  destruct a as [| | |x], b as [| | |y]; simpl in H; try discriminate;
    simpl; try reflexivity.
  - apply le_NegInf, round64_not_NaN.
  - apply le_PosInf, round64_not_NaN.
  - apply round64_mono. apply Qle_bool_iff in H. lra.
Qed.

Lemma const_sub_anti (c : Q) (a b : number) :
  (a <=? b)%js = true -> (Fin c - b <=? Fin c - a)%js = true.
Proof.
  intro H.
  destruct a as [| | |x], b as [| | |y]; simpl in H; try discriminate;
    simpl; try reflexivity.
  - apply le_PosInf, round64_not_NaN.
  - apply le_NegInf, round64_not_NaN.
  - apply round64_mono. apply Qle_bool_iff in H. lra.
Qed.

End NumberFacts.

Import NumberFacts.

(** ** Timestamp translator *)

Module TimestampFacts.

Local Open Scope Q_scope.

(** The three roundings of [dateToCocoaTimestamp]. *)
Lemma dateToCocoaTimestamp_steps (x : Z) :
  (Z.abs x <= MAX_TIME)%Z ->
  exists a b c,
    dateToCocoaTimestamp (TimeValue x) = Fin c
    /\ a == rnd (inject_Z x * (1 # 1000))
    /\ b == rnd (a - 978307200)
    /\ c == rnd (b * 1000000000).
Proof.
  unfold MAX_TIME. intro Hx.
  assert (Lx : inject_Z (-8640000000000000) <= inject_Z x
               /\ inject_Z x <= inject_Z 8640000000000000)
    by (rewrite <- !Zle_Qle; lia).
  change (inject_Z (-8640000000000000)) with (-8640000000000000) in Lx.
  change (inject_Z 8640000000000000) with 8640000000000000 in Lx.
  unfold dateToCocoaTimestamp, getTime, of_Z, COCOA_EPOCH_DIFF, lit_1e9, of_Z.
  assert (Ed : inject_Z x / inject_Z 1000 == inject_Z x * (1 # 1000))
    by (change (inject_Z 1000) with 1000; field).
  rewrite div_Fin by discriminate. rewrite (round64_comp Ed).
  destruct (@finite_between (inject_Z x * (1 # 1000))) as [a [-> Ha]]; [lra|].
  pose proof (@rnd_crude _ _ 10000000000000 Ha ltac:(lra)) as Ba.
  change (inject_Z 978307200) with 978307200.
  change (inject_Z 1000000000) with 1000000000.
  destruct (@sub_Fin a 978307200) as [b [-> Hb]];
    [apply Qabs_Qle_condition; lra|].
  pose proof (@rnd_crude _ _ 30000000000000 Hb ltac:(lra)) as Bb.
  destruct (@mul_Fin b 1000000000) as [c [-> Hc]];
    [apply Qabs_Qle_condition; lra|].
  exists a, b, c. auto.
Qed.


(** The roundings of [cocoaTimestampToDate], above the threshold and at or
    below it. *)
Lemma cocoaTimestampToDate_steps_nanoseconds (c : Q) :
  1000000000000 < c -> c <= 1000000000000000000000000 ->
  exists s u v,
    cocoaTimestampToDate (Fin c) = TimeClip (Fin v)
    /\ s == rnd (c * (1 # 1000000000))
    /\ u == rnd (s + 978307200)
    /\ v == rnd (u * 1000).
Proof.
  intros Hlo Hhi. unfold cocoaTimestampToDate, newDate.
  replace (Fin c >? lit_1e12)%js with true
    by (symmetry; apply gt_Fin; exact Hlo).
  unfold lit_1e9, COCOA_EPOCH_DIFF, of_Z.
  change (inject_Z 978307200) with 978307200.
  change (inject_Z 1000000000) with 1000000000.
  change (inject_Z 1000) with 1000.
  assert (Ed : c / 1000000000 == c * (1 # 1000000000)) by field.
  rewrite div_Fin by discriminate. rewrite (round64_comp Ed).
  destruct (@finite_between (c * (1 # 1000000000))) as [s [-> Hs]]; [lra|].
  pose proof (@rnd_crude _ _ 1000000000000000 Hs ltac:(lra)) as Bs.
  destruct (@add_Fin s 978307200) as [u [-> Hu]];
    [apply Qabs_Qle_condition; lra|].
  pose proof (@rnd_crude _ _ 3000000000000000 Hu ltac:(lra)) as Bu.
  destruct (@mul_Fin u 1000) as [v [-> Hv]];
    [apply Qabs_Qle_condition; lra|].
  exists s, u, v. auto.
Qed.

Lemma cocoaTimestampToDate_steps_seconds (c : Q) :
  - (1000000000000000000000000) <= c -> c <= 1000000000000 ->
  exists u v,
    cocoaTimestampToDate (Fin c) = TimeClip (Fin v)
    /\ u == rnd (c + 978307200)
    /\ v == rnd (u * 1000).
Proof.
  intros Hlo Hhi. unfold cocoaTimestampToDate, newDate.
  replace (Fin c >? lit_1e12)%js with false
    by (symmetry; apply gt_Fin_false; exact Hhi).
  unfold COCOA_EPOCH_DIFF, of_Z.
  change (inject_Z 978307200) with 978307200.
  change (inject_Z 1000) with 1000.
  destruct (@add_Fin c 978307200) as [u [-> Hu]];
    [apply Qabs_Qle_condition; lra|].
  pose proof (@rnd_crude _ _ 2000000000000000000000000 Hu ltac:(lra)) as Bu.
  destruct (@mul_Fin u 1000) as [v [-> Hv]];
    [apply Qabs_Qle_condition; lra|].
  exists u, v. auto.
Qed.


(** C1.  [cocoaTimestampToDate] reads a timestamp [t] as nanoseconds, and
    divides it by 10^9, exactly when [t > 10^12]; it reads [t] as seconds,
    undivided, when [t <= 10^12]; either way the epoch offset of
    978,307,200 seconds is then added and the sum, in milliseconds, makes
    the date.  The operations are those of the language, each rounded to
    a double. *)
Theorem cocoaTimestampToDate_threshold (t : Q) :
  (1000000000000 < t ->
   cocoaTimestampToDate (Fin t)
   = newDate ((Fin t / of_Z 1000000000 + of_Z 978307200) * of_Z 1000)%js)
  /\ (t <= 1000000000000 ->
      cocoaTimestampToDate (Fin t)
      = newDate ((Fin t + of_Z 978307200) * of_Z 1000)%js).
Proof.
  unfold cocoaTimestampToDate. split; intro H.
  - replace (Fin t >? lit_1e12)%js with true; [reflexivity|].
    symmetry. apply gt_Fin. exact H.
  - replace (Fin t >? lit_1e12)%js with false; [reflexivity|].
    symmetry. apply gt_Fin_false. exact H.
Qed.

Lemma cocoaTimestampToDate_threshold_witness :
  cocoaTimestampToDate (Fin 721692800122999936) = TimeValue 1700000000123
  /\ cocoaTimestampToDate (Fin 1000000000000) = TimeValue 1000978307200000.
Proof.
  split.
  - rewrite (proj1 (cocoaTimestampToDate_threshold 721692800122999936))
      by reflexivity.
    vm_compute. reflexivity.
  - rewrite (proj2 (cocoaTimestampToDate_threshold 1000000000000))
      by discriminate.
    vm_compute. reflexivity.
Defined.


(** The largest timestamp read as seconds; timestamps of 2024 and of
    2023 read as nanoseconds, the second one a whole number of
    milliseconds that the division moves by one. *)
Example cocoaTimestampToDate_at_threshold :
  cocoaTimestampToDate (of_Z 1000000000000) = TimeValue 1000978307200000
  /\ cocoaTimestampToDate (of_Z 756864000000000000)
     = TimeValue 1735171200000
  /\ cocoaTimestampToDate (Fin 721692800122999936)
     = TimeValue 1700000000123
  /\ Qfloor ((721692800122999936 / 1000000000 + 978307200) * 1000)
     = 1700000000122%Z.
Proof. split; [|split; [|split]]; vm_compute; reflexivity. Qed.

(** Timestamps that are not finite give an invalid date. *)
Example cocoaTimestampToDate_not_finite :
  cocoaTimestampToDate NaN = InvalidDate
  /\ cocoaTimestampToDate PosInf = InvalidDate
  /\ cocoaTimestampToDate NegInf = InvalidDate.
Proof. repeat split. Qed.

(** After the threshold the native form exceeds 10^12 and the way back
    divides it again: the six roundings move the result by a few
    milliseconds at most. *)
Lemma roundtrip_late (x : Z) :
  (THRESHOLD_MS < x <= MAX_TIME)%Z ->
  exists ms,
    cocoaTimestampToDate (dateToCocoaTimestamp (TimeValue x)) = TimeValue ms
    /\ (Z.abs (ms - x) <= 8)%Z.
Proof.
  unfold THRESHOLD_MS, MAX_TIME. intros Hx.
  destruct (@dateToCocoaTimestamp_steps x) as [a [b [c [-> [Ha [Hb Hc]]]]]];
    [unfold MAX_TIME; lia|].
  assert (Lx : inject_Z 978308200001 <= inject_Z x
               /\ inject_Z x <= inject_Z 8640000000000000)
    by (rewrite <- !Zle_Qle; lia).
  change (inject_Z 978308200001) with 978308200001 in Lx.
  change (inject_Z 8640000000000000) with 8640000000000000 in Lx.
  destruct (rnd_bounds_pos Ha ltac:(lra)) as [La [Ua Pa]].
  pose proof (@rnd_le_const _ _ (8640000000000000 * (1 # 1000))
                8640000000000 Ha ltac:(lra) ltac:(vm_compute; reflexivity))
    as Ma.
  destruct (rnd_bounds_pos Hb ltac:(lra)) as [Lb [Ub Pb]].
  pose proof (@rnd_le_const _ _ (8640000000000 - 978307200)
                8639021692800 Hb ltac:(lra) ltac:(vm_compute; reflexivity))
    as Mb.
  destruct (rnd_bounds_pos Hc ltac:(lra)) as [Lc [Uc Pc]].
  pose proof (@rnd_le_const _ _ (8639021692800 * 1000000000)
                8639021692800000327680 Hc ltac:(lra)
                ltac:(vm_compute; reflexivity)) as Mc.
  destruct (@cocoaTimestampToDate_steps_nanoseconds c)
    as [s [u [v [-> [Hs [Hu Hv]]]]]]; [lra | lra |].
  destruct (rnd_bounds_pos Hs ltac:(lra)) as [Ls [Us Ps]].
  pose proof (@rnd_le_const _ _ (8639021692800000327680 * (1 # 1000000000))
                8639021692800 Hs ltac:(lra) ltac:(vm_compute; reflexivity))
    as Ms.
  destruct (rnd_bounds_pos Hu ltac:(lra)) as [Lu [Uu Pu]].
  pose proof (@rnd_le_const _ _ (8639021692800 + 978307200)
                8640000000000 Hu ltac:(lra) ltac:(vm_compute; reflexivity))
    as Mu.
  destruct (rnd_bounds_pos Hv ltac:(lra)) as [Lv [Uv Pv]].
  pose proof (@rnd_le_const _ _ (8640000000000 * 1000)
                8640000000000000 Hv ltac:(lra) ltac:(vm_compute; reflexivity))
    as Mv.
  rewrite TimeClip_within by lra.
  exists (Qtrunc v). split; [reflexivity|].
  apply Z.le_trans with 7%Z; [|lia].
  apply Qtrunc_close; change (inject_Z 7) with 7; lra.
Qed.


(** What [new Date(v)] is within one second of. *)
Lemma not_within_above (v : Q) (x : Z) :
  inject_Z x + 1002 <= v ->
  ~ within_one_second (TimeClip (Fin v)) (TimeValue x).
Proof.
  intros L W. unfold TimeClip in W.
  destruct (Qle_bool (Qabs v) (inject_Z MAX_TIME)); [|exact W].
  simpl in W.
  pose proof (@Qtrunc_above v x 1000) as A.
  change (inject_Z 1000) with 1000 in A. specialize (A ltac:(lra)). lia.
Qed.

Lemma not_within_below (v : Q) (x : Z) :
  v <= inject_Z x - 1002 ->
  ~ within_one_second (TimeClip (Fin v)) (TimeValue x).
Proof.
  intros L W. unfold TimeClip in W.
  destruct (Qle_bool (Qabs v) (inject_Z MAX_TIME)); [|exact W].
  simpl in W.
  pose proof (@Qtrunc_below v x 1000) as A.
  change (inject_Z 1000) with 1000 in A. specialize (A ltac:(lra)). lia.
Qed.

(** At or before the threshold the native form is at most 10^12 and is
    read back as seconds: the result is far from the date, the custom
    epoch apart. *)
Lemma roundtrip_early (x : Z) :
  (- MAX_TIME <= x <= THRESHOLD_MS)%Z -> x <> COCOA_EPOCH_MS ->
  ~ within_one_second
      (cocoaTimestampToDate (dateToCocoaTimestamp (TimeValue x)))
      (TimeValue x).
Proof.
  unfold THRESHOLD_MS, MAX_TIME, COCOA_EPOCH_MS. intros Hx Hne.
  destruct (@dateToCocoaTimestamp_steps x) as [a [b [c [-> [Ha [Hb Hc]]]]]];
    [unfold MAX_TIME; lia|].
  assert (Lx : inject_Z (-8640000000000000) <= inject_Z x
               /\ inject_Z x <= inject_Z 978308200000)
    by (rewrite <- !Zle_Qle; lia).
  change (inject_Z (-8640000000000000)) with (-8640000000000000) in Lx.
  change (inject_Z 978308200000) with 978308200000 in Lx.
  pose proof (@rnd_crude _ _ 10000000000000 Ha ltac:(lra)) as Ba.
  pose proof (@rnd_crude _ _ 30000000000000 Hb ltac:(lra)) as Bb.
  pose proof (@rnd_crude _ _ 100000000000000000000000 Hc ltac:(lra)) as Bc.
  pose proof (@rnd_le_const _ _ (978308200000 * (1 # 1000))
                978308200 Ha ltac:(lra) ltac:(vm_compute; reflexivity))
    as Ma.
  pose proof (@rnd_le_const _ _ (978308200 - 978307200)
                1000 Hb ltac:(lra) ltac:(vm_compute; reflexivity))
    as Mb.
  pose proof (@rnd_le_const _ _ (1000 * 1000000000)
                1000000000000 Hc ltac:(lra) ltac:(vm_compute; reflexivity))
    as Mc.
  destruct (@cocoaTimestampToDate_steps_seconds c)
    as [u [v [-> [Hu Hv]]]]; [lra | lra |].
  destruct (Z_lt_le_dec COCOA_EPOCH_MS x) as [Hafter | Hbefore];
    unfold COCOA_EPOCH_MS in *.
  - assert (Lx' : inject_Z 978307200001 <= inject_Z x)
      by (rewrite <- Zle_Qle; lia).
    change (inject_Z 978307200001) with 978307200001 in Lx'.
    destruct (rnd_bounds_pos Ha ltac:(lra)) as [La [Ua Pa]].
    destruct (rnd_bounds_pos Hb ltac:(lra)) as [Lb [Ub Pb]].
    destruct (rnd_bounds_pos Hc ltac:(lra)) as [Lc [Uc Pc]].
    destruct (rnd_bounds_pos Hu ltac:(lra)) as [Lu [Uu Pu]].
    destruct (rnd_bounds_pos Hv ltac:(lra)) as [Lv [Uv Pv]].
    apply not_within_above. lra.
  - assert (Lx' : inject_Z x <= inject_Z 978307199999)
      by (rewrite <- Zle_Qle; lia).
    change (inject_Z 978307199999) with 978307199999 in Lx'.
    assert (Ua : a <= 978307199999 * (1 # 1000)
                      + (978307199999 * (1 # 1000) * (1 # 9007199254740992)
                         + (1 # 1000000000000000000000000000000))
                 /\ a <= inject_Z x * (1 # 1000)
                         + (1 # 1000)).
    { destruct (Qlt_le_dec (inject_Z x) 0) as [N | P].
      - destruct (rnd_bounds_neg Ha ltac:(lra)) as [La [Ua Pa]]. lra.
      - destruct (rnd_bounds_pos Ha ltac:(lra)) as [La [Ua Pa]]. lra. }
    destruct (rnd_bounds_neg Hb ltac:(lra)) as [Lb [Ub Pb]].
    destruct (rnd_bounds_neg Hc ltac:(lra)) as [Lc [Uc Pc]].
    apply not_within_below.
    destruct (Qlt_le_dec (c + 978307200) 0) as [N | P].
    + destruct (rnd_bounds_neg Hu ltac:(lra)) as [Lu [Uu Pu]].
      destruct (rnd_bounds_neg Hv ltac:(lra)) as [Lv [Uv Pv]]. lra.
    + destruct (rnd_bounds_pos Hu ltac:(lra)) as [Lu [Uu Pu]].
      destruct (rnd_bounds_pos Hv ltac:(lra)) as [Lv [Uv Pv]]. lra.
Qed.


(** C2, as amended.  For a valid date [x], the round trip through
    [dateToCocoaTimestamp] and [cocoaTimestampToDate] lands within one
    second of [x] exactly when [x] is the custom epoch itself or lies more
    than 1000 seconds after it (when it does, the six roundings move it
    by a few milliseconds at most). *)
Theorem roundtrip_within_one_second (x : Z) :
  (Z.abs x <= MAX_TIME)%Z ->
  (within_one_second
     (cocoaTimestampToDate (dateToCocoaTimestamp (TimeValue x)))
     (TimeValue x)
   <-> x = COCOA_EPOCH_MS \/ (THRESHOLD_MS < x)%Z).
Proof.
  intro Hx.
  destruct (Z_lt_le_dec THRESHOLD_MS x) as [Hlate | Hearly].
  - destruct (@roundtrip_late x) as [ms [-> Hms]];
      [unfold MAX_TIME in *; lia|].
    simpl. split; [intros _; right; exact Hlate | intros _; lia].
  - destruct (Z.eq_dec x COCOA_EPOCH_MS) as [-> | Hne].
    + split; [intros _; left; reflexivity|].
      intros _. vm_compute. discriminate.
    + split.
      * intro W. exfalso. revert W. apply roundtrip_early; [|exact Hne].
        unfold MAX_TIME in *. lia.
      * unfold THRESHOLD_MS in *. intros [H | H]; [contradiction | lia].
Qed.

Lemma roundtrip_within_one_second_witness :
  (Z.abs 1704067200000 <= MAX_TIME)%Z
  /\ within_one_second
       (cocoaTimestampToDate (dateToCocoaTimestamp (TimeValue 1704067200000)))
       (TimeValue 1704067200000).
Proof.
  assert (H : (Z.abs 1704067200000 <= MAX_TIME)%Z) by discriminate.
  split; [exact H|].
  apply (proj2 (@roundtrip_within_one_second 1704067200000 H)).
  right. reflexivity.
Defined.

(** C2 fails as stated.  Midnight of 2000-01-01 (946684800000 ms) has a
    negative native form, which is read back as seconds and leaves the
    range of dates; one second after the custom epoch has the native
    form 10^9, which is read back as 10^9 seconds: the year 2032. *)
Lemma roundtrip_counterexample :
  ~ within_one_second
      (cocoaTimestampToDate (dateToCocoaTimestamp (TimeValue 946684800000)))
      (TimeValue 946684800000)
  /\ cocoaTimestampToDate (dateToCocoaTimestamp (TimeValue 946684800000))
     = InvalidDate
  /\ cocoaTimestampToDate (dateToCocoaTimestamp (TimeValue 978307201000))
     = TimeValue 1978307200000.
Proof.
  assert (E : cocoaTimestampToDate
                (dateToCocoaTimestamp (TimeValue 946684800000))
              = InvalidDate) by (vm_compute; reflexivity).
  split; [|split].
  - rewrite E. simpl. auto.
  - exact E.
  - vm_compute. reflexivity.
Qed.

(** *** [hoursAgo], [daysAgo] and [dateToCocoaTimestamp] *)

(** What both compute from the cutoff in milliseconds. *)
Lemma native_of_cutoff (c : Q) (ms : Z) :
  c == inject_Z ms -> (Z.abs ms <= MAX_TIME)%Z ->
  ((Fin c / of_Z 1000 - COCOA_EPOCH_DIFF) * lit_1e9)%js
  = dateToCocoaTimestamp (newDate (Fin c)).
Proof.
  intros Hc Hr. unfold newDate.
  rewrite (TimeClip_comp Hc). fold (of_Z ms). rewrite (@TimeClip_Z _ Hr).
  unfold dateToCocoaTimestamp, getTime. do 2 f_equal.
  unfold of_Z. rewrite !div_Fin by discriminate.
  apply round64_comp. rewrite Hc. reflexivity.
Qed.

(** C5, as amended.  Evaluated at the same [now], [hoursAgo(h)] is the
    same number as [dateToCocoaTimestamp] applied to the date built from
    the cutoff [now - h * 60 * 60 * 1000] whenever that cutoff, as
    computed, is a whole number of milliseconds within the range of dates;
    likewise for [daysAgo(d)].  It is so for every whole number of hours
    up to 10^9 and of days up to 10^8 when [now] and the cutoff are in the
    range of dates. *)
Theorem ago_matches_dateToCocoaTimestamp (now : Z) :
  (forall h c : Q,
      (of_Z now - Fin h * of_Z 60 * of_Z 60 * of_Z 1000)%js = Fin c ->
      is_time_value c ->
      hoursAgoToCocoaTimestamp now (Fin h)
      = dateToCocoaTimestamp (newDate (Fin c)))
  /\ (forall d c : Q,
      (of_Z now - Fin d * of_Z 24 * of_Z 60 * of_Z 60 * of_Z 1000)%js
      = Fin c ->
      is_time_value c ->
      daysAgoToCocoaTimestamp now (Fin d)
      = dateToCocoaTimestamp (newDate (Fin c)))
  /\ (forall hours : Z,
      (Z.abs now <= MAX_TIME)%Z -> (Z.abs hours <= 1000000000)%Z ->
      (Z.abs (now - hours * 3600000) <= MAX_TIME)%Z ->
      hoursAgoToCocoaTimestamp now (of_Z hours)
      = dateToCocoaTimestamp (newDate (of_Z (now - hours * 3600000))))
  /\ (forall days : Z,
      (Z.abs now <= MAX_TIME)%Z -> (Z.abs days <= 100000000)%Z ->
      (Z.abs (now - days * 86400000) <= MAX_TIME)%Z ->
      daysAgoToCocoaTimestamp now (of_Z days)
      = dateToCocoaTimestamp (newDate (of_Z (now - days * 86400000)))).
Proof.
  split; [|split; [|split]].
  - intros h c E [ms [Hc Hr]]. unfold hoursAgoToCocoaTimestamp.
    rewrite E. apply (native_of_cutoff Hc Hr).
  - intros d c E [ms [Hc Hr]]. unfold daysAgoToCocoaTimestamp.
    rewrite E. apply (native_of_cutoff Hc Hr).
  - unfold MAX_TIME. intros hours Hn Hh Hc. unfold hoursAgoToCocoaTimestamp.
    rewrite !mul_Z by lia.
    replace (hours * 60 * 60 * 1000)%Z with (hours * 3600000)%Z by ring.
    rewrite sub_Z by lia.
    apply (@native_of_cutoff _ (now - hours * 3600000));
      [reflexivity | exact Hc].
  - unfold MAX_TIME. intros days Hn Hd Hc. unfold daysAgoToCocoaTimestamp.
    rewrite !mul_Z by lia.
    replace (days * 24 * 60 * 60 * 1000)%Z with (days * 86400000)%Z by ring.
    rewrite sub_Z by lia.
    apply (@native_of_cutoff _ (now - days * 86400000));
      [reflexivity | exact Hc].
Qed.

Lemma ago_matches_dateToCocoaTimestamp_witness :
  hoursAgoToCocoaTimestamp 1700000000000 (Fin (1 # 10))
  = dateToCocoaTimestamp (newDate (Fin 1699999640000))
  /\ daysAgoToCocoaTimestamp 1700000000000 (of_Z 7)
     = dateToCocoaTimestamp (newDate (of_Z (1700000000000 - 7 * 86400000))).
Proof.
  destruct (ago_matches_dateToCocoaTimestamp 1700000000000)
    as [Hh [_ [_ Hd]]].
  split.
  - apply Hh; [vm_compute; reflexivity|].
    exists 1699999640000%Z. split; [reflexivity | discriminate].
  - apply Hd; discriminate.
Defined.

(** C5 fails as stated.  With [Date.now() = 1700000000000] and
    [h = 1/1024] hour (3515.625 ms) the cutoff is 1699999996484.375 ms;
    [hoursAgo] converts it as it is, while the date built from it holds
    1699999996484 ms. *)
Lemma ago_counterexample :
  (of_Z 1700000000000 - Fin (1 # 1024) * of_Z 60 * of_Z 60 * of_Z 1000)%js
  = Fin (13599999971875 # 8)
  /\ hoursAgoToCocoaTimestamp 1700000000000 (Fin (1 # 1024))
     = Fin 721692796484375040
  /\ dateToCocoaTimestamp (newDate (Fin (13599999971875 # 8)))
     = Fin 721692796484000000
  /\ hoursAgoToCocoaTimestamp 1700000000000 (Fin (1 # 1024))
     <> dateToCocoaTimestamp
          (newDate
             (of_Z 1700000000000
              - Fin (1 # 1024) * of_Z 60 * of_Z 60 * of_Z 1000)%js).
Proof.
  split; [|split; [|split]]; vm_compute; try reflexivity; discriminate.
Qed.

(** A tenth of an hour is not a double, yet the cutoff computed from the
    double nearest to it is a whole number of milliseconds. *)
Example a_tenth_of_an_hour :
  (Fin (3602879701896397 # 36028797018963968) * of_Z 60 * of_Z 60
   * of_Z 1000)%js = of_Z 360000.
Proof. vm_compute. reflexivity. Qed.

End TimestampFacts.

(** ** Parameter normalizer *)

Module NormalizerFacts.

Local Open Scope js_scope.

(** The three normalizers test their argument in the same order. *)
Lemma normalize_le (v d m : number) :
  (v <=? of_Z 0) = true ->
  normalizeLimit (Num v) d m = d
  /\ normalizeHours (Num v) d m = d
  /\ normalizeDays (Num v) d m = d.
Proof.
  unfold normalizeLimit, normalizeHours, normalizeDays. intros ->. auto.
Qed.

Lemma normalize_gt (v d m : number) :
  (v <=? of_Z 0) = false -> (v >? m) = true ->
  normalizeLimit (Num v) d m = m
  /\ normalizeHours (Num v) d m = m
  /\ normalizeDays (Num v) d m = m.
Proof.
  unfold normalizeLimit, normalizeHours, normalizeDays. intros -> ->. auto.
Qed.

Lemma normalize_within (v d m : number) :
  (v <=? of_Z 0) = false -> (v >? m) = false ->
  normalizeLimit (Num v) d m = floor v
  /\ normalizeHours (Num v) d m = v
  /\ normalizeDays (Num v) d m = v.
Proof.
  unfold normalizeLimit, normalizeHours, normalizeDays. intros -> ->. auto.
Qed.

(** C3.  Each normalizer returns the default for [undefined] and for
    [null]; the default when [v <= 0]; otherwise the maximum when
    [v > max]; otherwise [Math.floor(v)] for limits and [v] itself for
    hours and days.  The tests are the language's own comparisons, so the
    cases cover every number, [NaN] and the infinities included, and every
    input is answered with a number: nothing is thrown. *)
Theorem normalize_cases (v d m : number) :
  (normalizeLimit Undefined d m = d /\ normalizeLimit Null d m = d
   /\ normalizeHours Undefined d m = d /\ normalizeHours Null d m = d
   /\ normalizeDays Undefined d m = d /\ normalizeDays Null d m = d)
  /\ ((v <=? of_Z 0) = true ->
      normalizeLimit (Num v) d m = d
      /\ normalizeHours (Num v) d m = d
      /\ normalizeDays (Num v) d m = d)
  /\ ((v <=? of_Z 0) = false -> (v >? m) = true ->
      normalizeLimit (Num v) d m = m
      /\ normalizeHours (Num v) d m = m
      /\ normalizeDays (Num v) d m = m)
  /\ ((v <=? of_Z 0) = false -> (v >? m) = false ->
      normalizeLimit (Num v) d m = floor v
      /\ normalizeHours (Num v) d m = v
      /\ normalizeDays (Num v) d m = v).
Proof.
  split; [repeat split|].
  split; [apply normalize_le|].
  split; [apply normalize_gt | apply normalize_within].
Qed.

Lemma normalize_cases_witness :
  ((of_Z (-5) <=? of_Z 0) = true
   /\ normalizeLimit (Num (of_Z (-5))) (of_Z 50) (of_Z 100) = of_Z 50)
  /\ ((of_Z 200 <=? of_Z 0) = false /\ (of_Z 200 >? of_Z 100) = true
      /\ normalizeLimit (Num (of_Z 200)) (of_Z 50) (of_Z 100) = of_Z 100)
  /\ ((Fin 30.7 <=? of_Z 0) = false /\ (Fin 30.7 >? of_Z 100) = false
      /\ normalizeLimit (Num (Fin 30.7)) (of_Z 50) (of_Z 100) = floor (Fin 30.7)
      /\ normalizeHours (Num (Fin 30.7)) (of_Z 50) (of_Z 100) = Fin 30.7).
Proof.
  split; [|split].
  - split; [reflexivity|].
    apply (proj1 (proj2 (normalize_cases (of_Z (-5)) (of_Z 50) (of_Z 100)))).
    reflexivity.
  - split; [reflexivity|]. split; [reflexivity|].
    apply (proj1 (proj2 (proj2
             (normalize_cases (of_Z 200) (of_Z 50) (of_Z 100)))));
      reflexivity.
  - split; [reflexivity|]. split; [reflexivity|].
    destruct (proj2 (proj2 (proj2
                (normalize_cases (Fin 30.7) (of_Z 50) (of_Z 100))))
                eq_refl eq_refl) as [HL [HH _]].
    split; [exact HL | exact HH].
Defined.

(** The same cases for finite values, with the order of the rationals. *)
Corollary normalize_finite (x dq mq : Q) :
  (x <= 0 ->
   normalizeLimit (Num (Fin x)) (Fin dq) (Fin mq) = Fin dq
   /\ normalizeHours (Num (Fin x)) (Fin dq) (Fin mq) = Fin dq
   /\ normalizeDays (Num (Fin x)) (Fin dq) (Fin mq) = Fin dq)
  /\ (0 < x -> mq < x ->
      normalizeLimit (Num (Fin x)) (Fin dq) (Fin mq) = Fin mq
      /\ normalizeHours (Num (Fin x)) (Fin dq) (Fin mq) = Fin mq
      /\ normalizeDays (Num (Fin x)) (Fin dq) (Fin mq) = Fin mq)
  /\ (0 < x -> x <= mq ->
      normalizeLimit (Num (Fin x)) (Fin dq) (Fin mq)
      = Fin (inject_Z (Qfloor x))
      /\ normalizeHours (Num (Fin x)) (Fin dq) (Fin mq) = Fin x
      /\ normalizeDays (Num (Fin x)) (Fin dq) (Fin mq) = Fin x).
Proof.
  split; [|split].
  - intro H. apply normalize_le. apply le_Fin. exact H.
  - intros H0 Hm.
    apply normalize_gt; [apply le_Fin_false | apply gt_Fin]; assumption.
  - intros H0 Hm.
    apply (@normalize_within (Fin x) (Fin dq) (Fin mq));
      [apply le_Fin_false | apply gt_Fin_false]; assumption.
Qed.

(** The values of the specification's examples, and the answers for
    [NaN] and the infinities. *)
Example normalize_examples :
  normalizeLimit Undefined (of_Z 50) (of_Z 100) = of_Z 50
  /\ normalizeLimit (Num (of_Z 0)) (of_Z 50) (of_Z 100) = of_Z 50
  /\ normalizeLimit (Num (of_Z (-5))) (of_Z 50) (of_Z 100) = of_Z 50
  /\ normalizeLimit (Num (of_Z 101)) (of_Z 50) (of_Z 100) = of_Z 100
  /\ normalizeLimit (Num (Fin 30.7)) (of_Z 50) (of_Z 100) = of_Z 30
  /\ normalizeHours (Num (Fin 0.5)) (of_Z 24) (of_Z 168) = Fin 0.5
  /\ normalizeLimit (Num NaN) (of_Z 50) (of_Z 100) = NaN
  /\ normalizeLimit (Num PosInf) (of_Z 50) (of_Z 100) = of_Z 100
  /\ normalizeLimit (Num NegInf) (of_Z 50) (of_Z 100) = of_Z 50.
Proof. repeat split. Qed.

End NormalizerFacts.

(** ** Contact normalization *)

Module StringFacts.

Local Open Scope string_scope.

Lemma keep_chars_idem (keep : ascii -> bool) (s : string) :
  keep_chars keep (keep_chars keep s) = keep_chars keep s.
Proof.
  induction s as [|c s IH]; simpl; [reflexivity|].
  destruct (keep c) eqn:E; simpl; [rewrite E, IH; reflexivity | exact IH].
Qed.

Lemma startsWith_inv (t : string) (a : ascii) :
  startsWith t (String a EmptyString) = true ->
  exists r, t = String a r.
Proof.
  unfold startsWith. destruct t as [|b r]; simpl; [discriminate|].
  destruct (ascii_dec a b) as [->|]; [|discriminate].
  intros _. exists r. reflexivity.
Qed.

Lemma startsWith_cons (a : ascii) (r : string) :
  startsWith (String a r) (String a EmptyString) = true.
Proof.
  unfold startsWith. simpl. destruct (ascii_dec a a); [|congruence].
  destruct r; reflexivity.
Qed.

(** A cleaned string that opens with [+] and is not ten characters long
    is returned as it is. *)
Lemma formatPhoneNumber_plus (t : string) :
  keep_chars digit_or_plus t = t ->
  startsWith t "+" = true ->
  String.length t <> 10%nat ->
  formatPhoneNumber t = t.
Proof.
  intros Hk Hp Hl. unfold formatPhoneNumber. rewrite Hk.
  destruct (startsWith_inv _ _ Hp) as [r ->].
  replace (startsWith (String "+" r) "1") with false
    by (unfold startsWith; simpl; destruct r; reflexivity).
  rewrite andb_false_r.
  apply Nat.eqb_neq in Hl. rewrite Hl, Hp. reflexivity.
Qed.

(** C10.  [formatPhoneNumber] is idempotent. *)
Theorem formatPhoneNumber_idempotent (s : string) :
  formatPhoneNumber (formatPhoneNumber s) = formatPhoneNumber s.
Proof.
  pose proof (keep_chars_idem digit_or_plus s) as Hc.
  unfold formatPhoneNumber at 2 3.
  set (c := keep_chars digit_or_plus s) in *.
  destruct ((String.length c =? 11)%nat && startsWith c "1") eqn:E11.
  - apply andb_true_iff in E11. destruct E11 as [L _].
    apply Nat.eqb_eq in L.
    apply formatPhoneNumber_plus.
    + simpl. rewrite Hc. reflexivity.
    + apply startsWith_cons.
    + simpl. rewrite L. discriminate.
  - destruct (String.length c =? 10)%nat eqn:E10.
    + apply Nat.eqb_eq in E10.
      apply formatPhoneNumber_plus.
      * simpl. rewrite Hc. reflexivity.
      * apply startsWith_cons.
      * simpl. rewrite E10. discriminate.
    + destruct (startsWith c "+") eqn:Ep.
      * apply formatPhoneNumber_plus; [exact Hc | exact Ep |].
        apply Nat.eqb_neq. exact E10.
      * unfold formatPhoneNumber. fold c. rewrite E11, E10, Ep. reflexivity.
Qed.

(** The branches of [formatPhoneNumber], as the code takes them.  With
    [cleaned] the input stripped of every character but the digits and
    [+], wherever the [+] stands: eleven digits opening with [1] get a [+]
    in front; ten digits get [+1] in front; a [cleaned] that opens with [+]
    and is not ten characters long is returned; if [cleaned] does not open
    with [+], is not ten characters long, and is not eleven characters
    opening with [1], the input is returned as it is. *)
Lemma formatPhoneNumber_cases (s : string) :
  let cleaned := keep_chars digit_or_plus s in
  (all_digits cleaned = true -> String.length cleaned = 11%nat ->
   startsWith cleaned "1" = true ->
   formatPhoneNumber s = "+" ++ cleaned)
  /\ (all_digits cleaned = true -> String.length cleaned = 10%nat ->
      formatPhoneNumber s = "+1" ++ cleaned)
  /\ (startsWith cleaned "+" = true -> String.length cleaned <> 10%nat ->
      formatPhoneNumber s = cleaned)
  /\ (startsWith cleaned "+" = false -> String.length cleaned <> 10%nat ->
      (String.length cleaned = 11%nat -> startsWith cleaned "1" = false) ->
      formatPhoneNumber s = s).
Proof.
  intro cleaned. unfold formatPhoneNumber. fold cleaned.
  split; [|split; [|split]].
  - intros _ L P. rewrite L, P. reflexivity.
  - intros _ L. rewrite L. reflexivity.
  - intros P L.
    destruct (startsWith_inv _ _ P) as [r Hr]. rewrite Hr in *.
    replace (startsWith (String "+" r) "1") with false
      by (unfold startsWith; simpl; destruct r; reflexivity).
    rewrite andb_false_r.
    apply Nat.eqb_neq in L. rewrite L, P. reflexivity.
  - intros P L10 L11.
    apply Nat.eqb_neq in L10. rewrite L10, P.
    destruct (String.length cleaned =? 11)%nat eqn:E; [|reflexivity].
    apply Nat.eqb_eq in E. rewrite (L11 E). reflexivity.
Qed.

Example formatPhoneNumber_cases_examples :
  formatPhoneNumber "1-555-123-4567" = "+15551234567"
  /\ formatPhoneNumber "(555) 123-4567" = "+15551234567"
  /\ formatPhoneNumber "+44 20 7123 4567" = "+442071234567"
  /\ formatPhoneNumber "john@example.com" = "john@example.com".
Proof.
  split; [|split; [|split]].
  - apply (proj1 (formatPhoneNumber_cases "1-555-123-4567")); reflexivity.
  - apply (proj1 (proj2 (formatPhoneNumber_cases "(555) 123-4567")));
      reflexivity.
  - apply (proj1 (proj2 (proj2 (formatPhoneNumber_cases "+44 20 7123 4567"))));
      [reflexivity | discriminate].
  - apply (proj2 (proj2 (proj2 (formatPhoneNumber_cases "john@example.com"))));
      [reflexivity | discriminate | discriminate].
Qed.

(** The examples of the specification. *)
Example formatPhoneNumber_examples :
  formatPhoneNumber "5551234567" = "+15551234567"
  /\ formatPhoneNumber "555-123-4567" = "+15551234567"
  /\ formatPhoneNumber "15551234567" = "+15551234567"
  /\ formatPhoneNumber "+442071234567" = "+442071234567"
  /\ formatPhoneNumber "john@example.com" = "john@example.com"
  /\ formatPhoneNumber "12345" = "12345".
Proof. repeat split. Qed.

(** C4.  The code breaks the claim on an address with a [+] in its
    local part.  The claim, the comment of the last branch ("return as
    is"), the test for non-standard formats and the sibling address
    without a [+] all let an e-mail address pass through unaltered; the
    stripping keeps the [+] although it does not lead, the result is the
    lone [+], and the contact filter of the queries is then given the
    pattern [%+%]. *)
Theorem formatPhoneNumber_address_with_plus :
  formatPhoneNumber "john+work@example.com" = "+"
  /\ formatPhoneNumber "john@example.com" = "john@example.com"
  /\ formatPhoneNumber_spec "john+work@example.com" = "john+work@example.com"
  /\ formatPhoneNumber "john+work@example.com"
     <> formatPhoneNumber_spec "john+work@example.com"
  /\ substring_pattern (formatPhoneNumber "john+work@example.com") = "%+%".
Proof.
  split; [reflexivity|]. split; [reflexivity|]. split; [reflexivity|].
  split; [discriminate | reflexivity].
Qed.

(** The length tests count the [+] signs too: a [+] followed by nine
    digits is taken for a ten-digit number. *)
Example formatPhoneNumber_plus_nine_digits :
  formatPhoneNumber "+298123456" = "+1+298123456"
  /\ formatPhoneNumber_spec "+298123456" = "+298123456".
Proof. split; reflexivity. Qed.

End StringFacts.

(** ** Access diagnostics *)

Module AccessFacts.

Local Open Scope string_scope.

Ltac run_check :=
  unfold checkDatabaseAccess, try_catch, bind, ret, existsSync, accessSync,
    openDatabase, closeDatabase, of_outcome.

(** C7.  [checkDatabaseAccess] always returns a result and never throws.
    If the file does not exist the result is not accessible, its message
    says that the database was not found at the path and asks that the
    Messages app has been used, and no further call is made.  Otherwise,
    if the permission check throws, or else the opening of the database
    (or its closing) throws, the result is not accessible, its message
    asks to grant Full Disk Access and ends with the text of the error,
    and no further call is made.  The result is accessible exactly when
    every step passed. *)
Theorem checkDatabaseAccess_reports (path : string) (h : Host) :
  let not_found :=
    "Messages database not found at " ++ path
    ++ ". Make sure Messages app has been used." in
  let cannot_access e :=
    "Cannot access Messages database. Grant Full Disk Access to your terminal in System Preferences → Privacy & Security → Full Disk Access. Error: "
    ++ getErrorMessage e in
  exists (r : DatabaseAccessResult) (trace : list call),
    checkDatabaseAccess path h = (Normal r, trace)
    /\ (host_exists h path = false ->
        r = {| accessible := false; error := Some not_found |}
        /\ trace = [ExistsSync path])
    /\ (forall e, host_exists h path = true ->
        host_access h path = Some e ->
        r = {| accessible := false; error := Some (cannot_access e) |}
        /\ trace = [ExistsSync path; AccessSync path])
    /\ (forall e, host_exists h path = true ->
        host_access h path = None ->
        host_open h path = Some e ->
        r = {| accessible := false; error := Some (cannot_access e) |}
        /\ trace = [ExistsSync path; AccessSync path; OpenDatabase path])
    /\ (forall e, host_exists h path = true ->
        host_access h path = None ->
        host_open h path = None ->
        host_close h path = Some e ->
        r = {| accessible := false; error := Some (cannot_access e) |}
        /\ trace = [ExistsSync path; AccessSync path; OpenDatabase path;
                    CloseDatabase path])
    /\ (accessible r = true <->
        host_exists h path = true /\ host_access h path = None
        /\ host_open h path = None /\ host_close h path = None)
    /\ (accessible r = true ->
        r = {| accessible := true; error := None |}
        /\ trace = [ExistsSync path; AccessSync path; OpenDatabase path;
                    CloseDatabase path]).
Proof.
  intros not_found cannot_access. subst not_found cannot_access.
  run_check.
  destruct (host_exists h path) eqn:Ex; simpl.
  2: { eexists. eexists. split; [reflexivity|].
       repeat split; intros; simpl in *; try discriminate;
         intuition discriminate. }
  destruct (host_access h path) as [ea|] eqn:Ea; simpl.
  { eexists. eexists. split; [reflexivity|].
    repeat split; intros; simpl in *; try discriminate;
      try (intuition discriminate); congruence. }
  destruct (host_open h path) as [eo|] eqn:Eo; simpl.
  { eexists. eexists. split; [reflexivity|].
    repeat split; intros; simpl in *; try discriminate;
      try (intuition discriminate); congruence. }
  destruct (host_close h path) as [ec|] eqn:Ec; simpl.
  { eexists. eexists. split; [reflexivity|].
    repeat split; intros; simpl in *; try discriminate;
      try (intuition discriminate); congruence. }
  eexists. eexists. split; [reflexivity|].
  repeat split; intros; simpl in *; try discriminate.
Qed.

Lemma checkDatabaseAccess_reports_witness :
  exists trace,
    checkDatabaseAccess "/Users/me/Library/Messages/chat.db" unreadable_host
    = (Normal
         {| accessible := false;
            error :=
              Some "Cannot access Messages database. Grant Full Disk Access to your terminal in System Preferences → Privacy & Security → Full Disk Access. Error: EACCES: permission denied" |},
       trace)
    /\ trace = [ExistsSync "/Users/me/Library/Messages/chat.db";
                AccessSync "/Users/me/Library/Messages/chat.db"].
Proof.
  destruct (checkDatabaseAccess_reports
              "/Users/me/Library/Messages/chat.db" unreadable_host)
    as [r [trace [E [_ [H2 _]]]]].
  destruct (H2 (ErrorObject "EACCES: permission denied") eq_refl eq_refl)
    as [Hr Ht].
  exists trace. split; [rewrite E, Hr; reflexivity | exact Ht].
Defined.

(** On a host without the file, the message names the path. *)
Example missing_database_message :
  fst (checkDatabaseAccess "/p" missing_host)
  = Normal
      {| accessible := false;
         error :=
           Some "Messages database not found at /p. Make sure Messages app has been used." |}.
Proof. reflexivity. Qed.

End AccessFacts.

(** ** Row mapper *)

Module MapperFacts.

Local Open Scope string_scope.

Lemma or_else_absent (a : option string) (b : string) :
  truthy a = false -> or_else a b = b.
Proof.
  destruct a as [s|]; simpl; [|reflexivity].
  destruct (String.eqb s "") eqn:E; [reflexivity | discriminate].
Qed.

Lemma or_else_present (s b : string) : s <> "" -> or_else (Some s) b = s.
Proof.
  intro H. simpl. destruct (String.eqb s "") eqn:E; [|reflexivity].
  apply String.eqb_eq in E. contradiction.
Qed.

Lemma truthy_present (s : string) : s <> "" -> truthy (Some s) = true.
Proof.
  intro H. simpl. destruct (String.eqb s "") eqn:E; [|reflexivity].
  apply String.eqb_eq in E. contradiction.
Qed.

Section Mappers.

Variable formatDate : Date -> string.

(** The branches of the three message mappers, on any row.  A text that
    is absent (or empty) becomes ["(attachment or empty)"] in
    [getRecentMessages] and [getConversation] and the empty string in
    [searchMessages].  An absent handle becomes ["Unknown"] in
    [getRecentMessages] and [searchMessages]; [getConversation] names the
    sender ["You"] when the message is from the user and otherwise the
    handle, or ["Them"] when the handle is absent.  The chat label of
    [getRecentMessages] and [searchMessages] is the display name, else the
    chat identifier, else ["Direct Message"]; [getConversation] has no
    chat label.  Fields that are present are passed on. *)
Lemma message_mappers_branches (row : RawMessageRow.t) :
  let recent := message_of_recent_row formatDate row in
  let conv := message_of_conversation_row formatDate row in
  let found := message_of_search_row formatDate row in
  (truthy (RawMessageRow.text row) = false ->
   Message.text recent = "(attachment or empty)"
   /\ ConversationMessage.text conv = "(attachment or empty)"
   /\ Message.text found = "")
  /\ (forall s, RawMessageRow.text row = Some s -> s <> "" ->
      Message.text recent = s /\ ConversationMessage.text conv = s
      /\ Message.text found = s)
  /\ (truthy (RawMessageRow.handle_id row) = false ->
      Message.contact recent = "Unknown"
      /\ Message.contact found = "Unknown"
      /\ ConversationMessage.sender conv
         = if (RawMessageRow.is_from_me row =? 1)%Z then "You" else "Them")
  /\ (forall s, RawMessageRow.handle_id row = Some s -> s <> "" ->
      Message.contact recent = s /\ Message.contact found = s
      /\ ConversationMessage.sender conv
         = if (RawMessageRow.is_from_me row =? 1)%Z then "You" else s)
  /\ (forall s, RawMessageRow.chat_name row = Some s -> s <> "" ->
      Message.chatName recent = s /\ Message.chatName found = s)
  /\ (forall s, truthy (RawMessageRow.chat_name row) = false ->
      RawMessageRow.chat_identifier row = Some s -> s <> "" ->
      Message.chatName recent = s /\ Message.chatName found = s)
  /\ (truthy (RawMessageRow.chat_name row) = false ->
      truthy (RawMessageRow.chat_identifier row) = false ->
      Message.chatName recent = "Direct Message"
      /\ Message.chatName found = "Direct Message").
Proof.
  destruct row as [rid txt dt me att hid cname cid]. simpl.
  split; [|split; [|split; [|split; [|split; [|split]]]]].
  - intro H. rewrite !(@or_else_absent _ _ H). auto.
  - intros s -> H. rewrite !(@or_else_present _ _ H). auto.
  - intro H. rewrite !(@or_else_absent _ _ H). auto.
  - intros s -> H. rewrite !(@or_else_present _ _ H). auto.
  - intros s -> H. unfold or_opt. rewrite (@truthy_present _ H).
    rewrite (@or_else_present _ _ H). auto.
  - intros s Hn -> H. unfold or_opt. rewrite Hn.
    rewrite (@or_else_present _ _ H). auto.
  - intros Hn Hi. unfold or_opt. rewrite Hn.
    rewrite (@or_else_absent _ _ Hi). auto.
Qed.

End Mappers.

End MapperFacts.

(** ** Ordering and bounding of query results *)

Module OrderFacts.

Section OrderBy.

Variable A : Type.
Variable leb : A -> A -> bool.
Hypothesis leb_total : forall a b, leb a b = true \/ leb b a = true.
Hypothesis leb_trans :
  forall a b c, leb a b = true -> leb b c = true -> leb a c = true.

Let R (a b : A) : Prop := leb a b = true.

Lemma Forall_insert (P : A -> Prop) (x : A) (l : list A) :
  P x -> Forall P l -> Forall P (insert leb x l).
Proof.
  intros Hx Hl. induction Hl as [|y l Hy Hl IH]; simpl.
  - constructor; [exact Hx | constructor].
  - destruct (leb x y); repeat constructor; auto.
Qed.

Lemma insert_sorted (x : A) (l : list A) :
  StronglySorted R l -> StronglySorted R (insert leb x l).
Proof.
  intro Hs. induction Hs as [|y l Hs IH Hy]; simpl.
  - constructor; constructor.
  - destruct (leb x y) eqn:E.
    + constructor; [constructor; assumption|].
      constructor; [exact E|].
      eapply Forall_impl; [|exact Hy].
      intros z Hz. unfold R in *. eapply leb_trans; eassumption.
    + constructor; [exact IH|].
      apply Forall_insert; [|exact Hy].
      destruct (leb_total x y) as [H|H]; [congruence | exact H].
Qed.

Lemma order_by_sorted (l : list A) : StronglySorted R (order_by leb l).
Proof.
  induction l as [|x l IH]; simpl; [constructor | apply insert_sorted, IH].
Qed.

Lemma insert_perm (x : A) (l : list A) : Permutation (x :: l) (insert leb x l).
Proof.
  induction l as [|y l IH]; simpl; [reflexivity|].
  destruct (leb x y); [reflexivity|].
  rewrite perm_swap. constructor. exact IH.
Qed.

(** Ordering neither loses nor invents rows. *)
Lemma order_by_perm (l : list A) : Permutation l (order_by leb l).
Proof.
  induction l as [|x l IH]; simpl; [constructor|].
  rewrite <- insert_perm. constructor. exact IH.
Qed.

End OrderBy.

Lemma firstn_sorted {A : Type} (R : A -> A -> Prop) (n : nat) (l : list A) :
  StronglySorted R l -> StronglySorted R (firstn n l).
Proof.
  intro Hs. revert n. induction Hs as [|x l Hs IH Hx]; intro n.
  - rewrite firstn_nil. constructor.
  - destruct n as [|n]; simpl; [constructor|].
    constructor; [apply IH|].
    rewrite Forall_forall in *. intros y Hy. apply Hx.
    rewrite <- (firstn_skipn n l). apply in_or_app. left. exact Hy.
Qed.

Lemma map_sorted {A B : Type} (R : A -> A -> Prop) (S : B -> B -> Prop)
  (f : A -> B) (l : list A) :
  (forall a b, R a b -> S (f a) (f b)) ->
  StronglySorted R l -> StronglySorted S (map f l).
Proof.
  intros Hf Hs. induction Hs as [|x l Hs IH Hx]; simpl; constructor.
  - exact IH.
  - rewrite Forall_forall in *. intros y Hy.
    apply in_map_iff in Hy. destruct Hy as [a [<- Ha]]. apply Hf, Hx, Ha.
Qed.

Lemma sorted_weaken {A : Type} (R S : A -> A -> Prop) (l : list A) :
  (forall a b, R a b -> S a b) ->
  StronglySorted R l -> StronglySorted S l.
Proof.
  intros H Hs. rewrite <- (map_id l).
  apply map_sorted with (R := R); assumption.
Qed.

(** What [LIMIT ?] returns, when it returns: rows in their order, and no
    more of them than a non-negative bound allows. *)
Lemma limit_rows_inv {A : Type} (limit : number) (l out : list A) :
  limit_rows limit l = Some out ->
  exists z : Z,
    limit ≡ of_Z z
    /\ (-9223372036854775808 < z < 9223372036854775808)%Z
    /\ out = if (z <? 0)%Z then l else firstn (Z.to_nat z) l.
Proof.
  destruct limit as [| | |q]; simpl; try discriminate.
  destruct (Qeq_bool (inject_Z (Qfloor q)) q) eqn:E; [|discriminate].
  destruct (-9223372036854775808 <? Qfloor q)%Z eqn:L; [|discriminate].
  destruct (Qfloor q <? 9223372036854775808)%Z eqn:U; [|discriminate].
  simpl. intro H. inversion H; subst. exists (Qfloor q).
  apply Qeq_bool_iff in E. apply Z.ltb_lt in L, U.
  split; [symmetry; exact E|]. split; [lia | reflexivity].
Qed.

(** A whole number between the two extremes is accepted as a limit. *)
Lemma limit_rows_whole {A : Type} (limit : number) (l : list A) (n : Z) :
  limit ≡ of_Z n ->
  (-9223372036854775808 < n < 9223372036854775808)%Z ->
  limit_rows limit l
  = Some (if (n <? 0)%Z then l else firstn (Z.to_nat n) l).
Proof.
  destruct limit as [| | |q]; simpl; try contradiction.
  intros Hq [L U]. rewrite (Qfloor_comp _ _ Hq), Qfloor_Z.
  replace (Qeq_bool (inject_Z n) q) with true
    by (symmetry; apply Qeq_bool_iff; symmetry; exact Hq).
  apply Z.ltb_lt in L, U. rewrite L, U. reflexivity.
Qed.

Lemma same_of_Z (a b : Z) : of_Z a ≡ of_Z b -> a = b.
Proof. simpl. intro H. apply (proj1 (inject_Z_injective a b)), H. Qed.

Lemma limit_rows_sorted {A : Type} (R : A -> A -> Prop) (limit : number)
  (l out : list A) :
  limit_rows limit l = Some out ->
  StronglySorted R l -> StronglySorted R out.
Proof.
  intros H Hs. destruct (limit_rows_inv _ _ H) as [z [_ [_ ->]]].
  destruct (z <? 0)%Z; [exact Hs | apply firstn_sorted, Hs].
Qed.

Lemma limit_rows_bound {A : Type} (limit : number) (l out : list A) (n : Z) :
  limit_rows limit l = Some out ->
  limit ≡ of_Z n -> (0 <= n)%Z ->
  (Z.of_nat (List.length out) <= n)%Z.
Proof.
  intros H Hq Hn. destruct (limit_rows_inv _ _ H) as [z [Hz [_ ->]]].
  assert (z = n).
  { apply same_of_Z. apply same_trans with limit; [apply same_sym|];
      assumption. }
  subst z.
  destruct (n <? 0)%Z eqn:E; [apply Z.ltb_lt in E; lia|].
  pose proof (firstn_le_length (Z.to_nat n) l). lia.
Qed.

Lemma limit_rows_incl {A : Type} (limit : number) (l out : list A) :
  limit_rows limit l = Some out -> incl out l.
Proof.
  intro H. destruct (limit_rows_inv _ _ H) as [z [_ [_ ->]]].
  destruct (z <? 0)%Z; [apply incl_refl|].
  intros x Hx. rewrite <- (firstn_skipn (Z.to_nat z) l).
  apply in_or_app. left. exact Hx.
Qed.

End OrderFacts.

Module QueryFacts.

Import OrderFacts.

Local Open Scope string_scope.

Lemma date_asc_total (a b : joined) :
  date_asc a b = true \/ date_asc b a = true.
Proof. unfold date_asc. rewrite !Z.leb_le. lia. Qed.

Lemma date_asc_trans (a b c : joined) :
  date_asc a b = true -> date_asc b c = true -> date_asc a c = true.
Proof. unfold date_asc. rewrite !Z.leb_le. lia. Qed.

Lemma date_desc_total (a b : joined) :
  date_desc a b = true \/ date_desc b a = true.
Proof. unfold date_desc. rewrite !Z.leb_le. lia. Qed.

Lemma date_desc_trans (a b c : joined) :
  date_desc a b = true -> date_desc b c = true -> date_desc a c = true.
Proof. unfold date_desc. rewrite !Z.leb_le. lia. Qed.

Lemma last_date_desc_total (a b : RawChatRow.t) :
  last_date_desc a b = true \/ last_date_desc b a = true.
Proof.
  unfold last_date_desc, null_first_le.
  destruct (RawChatRow.last_message_date a), (RawChatRow.last_message_date b);
    auto.
  rewrite !Z.leb_le. lia.
Qed.

Lemma last_date_desc_trans (a b c : RawChatRow.t) :
  last_date_desc a b = true -> last_date_desc b c = true ->
  last_date_desc a c = true.
Proof.
  unfold last_date_desc, null_first_le.
  destruct (RawChatRow.last_message_date a), (RawChatRow.last_message_date b),
    (RawChatRow.last_message_date c); auto; try discriminate.
  rewrite !Z.leb_le. lia.
Qed.

Lemma last_date_desc_most_recent (a b : RawChatRow.t) :
  last_date_desc a b = true -> most_recent_first a b.
Proof.
  unfold last_date_desc, null_first_le, most_recent_first.
  destruct (RawChatRow.last_message_date a), (RawChatRow.last_message_date b);
    auto; try discriminate.
  apply Z.leb_le.
Qed.

(** For a whole-number limit a message query returns, its rows are in
    the order of its [ORDER BY], and they are within its [LIMIT]. *)
Lemma query_messages_ordered (R : RawMessageRow.t -> RawMessageRow.t -> Prop)
  (source : list joined) (keep : joined -> bool)
  (dir : joined -> joined -> bool) (limit : number) (n : Z) :
  (forall a b, dir a b = true \/ dir b a = true) ->
  (forall a b c, dir a b = true -> dir b c = true -> dir a c = true) ->
  (forall a b, dir a b = true -> R (select_message a) (select_message b)) ->
  limit ≡ of_Z n ->
  (-9223372036854775808 < n < 9223372036854775808)%Z ->
  exists rows,
    query_messages source keep dir limit = Some rows
    /\ StronglySorted R rows
    /\ ((0 <= n)%Z -> (Z.of_nat (List.length rows) <= n)%Z).
Proof.
  intros Htot Htrans HR Hn Hr. unfold query_messages.
  pose proof (@limit_rows_whole _ _ (order_by dir (filter keep source)) _
                Hn Hr) as E.
  rewrite E. simpl. eexists. split; [reflexivity|]. split.
  - apply map_sorted with (R := fun a b => dir a b = true); [exact HR|].
    eapply limit_rows_sorted; [exact E|].
    apply order_by_sorted; assumption.
  - intro Hpos. rewrite length_map.
    eapply limit_rows_bound; eassumption.
Qed.

Lemma asc_oldest_first (a b : joined) :
  date_asc a b = true -> oldest_first (select_message a) (select_message b).
Proof. apply Z.leb_le. Qed.

Lemma desc_newest_first (a b : joined) :
  date_desc a b = true -> newest_first (select_message a) (select_message b).
Proof. apply Z.leb_le. Qed.

Section Results.

Variable formatDate : Date -> string.
Variable db : Store.
Variable now : Z.

(** C6, as amended.  Given a limit that is a whole number [n] strictly
    between -2^63 and 2^63, each operation returns the images, in order,
    of the rows of its statement, and: the rows of [getConversation] are in
    ascending order of native timestamp (oldest first); those of
    [getRecentMessages] and [searchMessages] in descending order (newest
    first); those of [listChats] in descending order of the time of the
    most recent message.  Each result has at most [n] entries when [n] is
    not negative. *)
Theorem results_are_ordered (limit : option number) (n : Z) :
  (-9223372036854775808 < n < 9223372036854775808)%Z ->
  (forall contact days,
      default_arg limit 100 ≡ of_Z n ->
      exists out rows,
        getConversation formatDate db now contact days limit = Some out
        /\ all_conversation db
             (params (getConversation_statement now contact days limit))
           = Some rows
        /\ out = map (message_of_conversation_row formatDate) rows
        /\ StronglySorted oldest_first rows
        /\ ((0 <= n)%Z -> (Z.of_nat (List.length out) <= n)%Z))
  /\ (forall hours contact,
      default_arg limit 50 ≡ of_Z n ->
      exists out rows,
        getRecentMessages formatDate db now hours contact limit = Some out
        /\ all_recent db
             (params (getRecentMessages_statement now hours contact limit))
           = Some rows
        /\ out = map (message_of_recent_row formatDate) rows
        /\ StronglySorted newest_first rows
        /\ ((0 <= n)%Z -> (Z.of_nat (List.length out) <= n)%Z))
  /\ (forall query days,
      default_arg limit 50 ≡ of_Z n ->
      exists out rows,
        searchMessages formatDate db now query days limit = Some out
        /\ all_search db
             (params (searchMessages_statement now query days limit))
           = Some rows
        /\ out = map (message_of_search_row formatDate) rows
        /\ StronglySorted newest_first rows
        /\ ((0 <= n)%Z -> (Z.of_nat (List.length out) <= n)%Z))
  /\ (forall includeGroupChats,
      default_arg limit 30 ≡ of_Z n ->
      exists out rows,
        listChats formatDate db limit includeGroupChats = Some out
        /\ all_chats db
             (match includeGroupChats with
              | Some b => negb b
              | None => false
              end)
             (params (listChats_statement limit includeGroupChats))
           = Some rows
        /\ out = map (chat_of_row formatDate) rows
        /\ StronglySorted most_recent_first rows
        /\ ((0 <= n)%Z -> (Z.of_nat (List.length out) <= n)%Z)).
Proof.
  intro Hr. split; [|split; [|split]].
  - intros contact days Hn. unfold getConversation. simpl.
    destruct (@query_messages_ordered oldest_first (message_handle_only db)
                (fun r =>
                   date_after
                     (daysAgoToCocoaTimestamp now (default_arg days 7)) r
                   && contact_match (substring_pattern contact)
                        (formatPhoneNumber contact)
                        (substring_pattern (formatPhoneNumber contact)) r)
                date_asc (default_arg limit 100) n
                date_asc_total date_asc_trans asc_oldest_first Hn Hr)
      as [rows [E [Hs Hb]]].
    rewrite E. simpl. exists (map (message_of_conversation_row formatDate) rows), rows.
    rewrite length_map. auto.
  - intros hours contact Hn. unfold getRecentMessages.
    assert (Hq : forall keep,
               exists rows,
                 query_messages (message_handle_chat db) keep date_desc
                   (default_arg limit 50) = Some rows
                 /\ StronglySorted newest_first rows
                 /\ ((0 <= n)%Z -> (Z.of_nat (List.length rows) <= n)%Z)).
    { intro keep. apply query_messages_ordered;
        [apply date_desc_total | apply date_desc_trans
        | apply desc_newest_first | exact Hn | exact Hr]. }
    unfold getRecentMessages_statement.
    destruct contact as [c|]; [destruct (truthy (Some c))|]; simpl;
      match goal with
      | |- context [query_messages _ ?k _ _] =>
          destruct (Hq k) as [rows [E [Hs Hb]]]
      end;
      rewrite E; simpl;
      exists (map (message_of_recent_row formatDate) rows), rows;
      rewrite length_map; auto.
  - intros query days Hn. unfold searchMessages. simpl.
    destruct (@query_messages_ordered newest_first (message_handle_chat db)
                (fun r =>
                   date_after
                     (daysAgoToCocoaTimestamp now (default_arg days 30)) r
                   && text_like (substring_pattern query) r)
                date_desc (default_arg limit 50) n
                date_desc_total date_desc_trans desc_newest_first Hn Hr)
      as [rows [E [Hs Hb]]].
    rewrite E. simpl. exists (map (message_of_search_row formatDate) rows), rows.
    rewrite length_map. auto.
  - intros includeGroupChats Hn. unfold listChats. simpl.
    match goal with
    | |- context [limit_rows _ ?l] =>
        pose proof (@limit_rows_whole _ _ l _ Hn Hr) as E
    end.
    rewrite E. simpl. eexists. eexists.
    split; [reflexivity|]. split; [reflexivity|]. split; [reflexivity|].
    rewrite length_map. split.
    + apply (@limit_rows_sorted _ most_recent_first) in E; [exact E|].
      eapply sorted_weaken;
        [|apply order_by_sorted;
          [apply last_date_desc_total | apply last_date_desc_trans]].
      intros a b Hab. apply last_date_desc_most_recent. exact Hab.
    + intro Hpos. eapply limit_rows_bound; eassumption.
Qed.

End Results.

Lemma results_are_ordered_witness :
  exists out rows,
    getConversation no_format sample_store sample_now "5551234567" None
      (Some (of_Z 2)) = Some out
    /\ out = map (message_of_conversation_row no_format) rows
    /\ StronglySorted oldest_first rows
    /\ (Z.of_nat (List.length out) <= 2)%Z.
Proof.
  destruct (proj1 (@results_are_ordered no_format sample_store sample_now
                     (Some (of_Z 2)) 2 ltac:(lia))
              "5551234567" None ltac:(reflexivity))
    as [out [rows [E [_ [Ho [Hs Hb]]]]]].
  exists out, rows. split; [exact E|]. split; [exact Ho|].
  split; [exact Hs|]. apply Hb. discriminate.
Defined.

(** C6 fails as stated.  A negative limit is no bound for the engine:
    with the limit -1 the three messages of the sample store are all
    returned, and so are its two chats. *)
Lemma results_counterexample :
  exists out chats,
    getRecentMessages no_format sample_store sample_now None None
      (Some (of_Z (-1))) = Some out
    /\ List.length out = 3%nat
    /\ ~ (Z.of_nat (List.length out) <= -1)%Z
    /\ listChats no_format sample_store (Some (of_Z (-1))) None = Some chats
    /\ ~ (Z.of_nat (List.length chats) <= -1)%Z.
Proof.
  eexists. eexists. split; [vm_compute; reflexivity|].
  split; [reflexivity|]. split; [simpl; lia|].
  split; [vm_compute; reflexivity|]. simpl. lia.
Qed.

(** The sample store: the conversation oldest first and cut at two, the
    recent messages and the chats newest first; a limit that is not a
    whole number, or that does not fit 64 bits, is refused. *)
Example sample_results :
  option_map (map ConversationMessage.id)
    (getConversation no_format sample_store sample_now "5551234567" None
       (Some (of_Z 2))) = Some [2; 3]%Z
  /\ option_map (map Message.id)
       (getRecentMessages no_format sample_store sample_now None None None)
     = Some [1; 3; 2]%Z
  /\ option_map (map Chat.id) (listChats no_format sample_store None None)
     = Some [7; 8]%Z
  /\ getRecentMessages no_format sample_store sample_now None None
       (Some (Fin 1.5)) = None
  /\ getRecentMessages no_format sample_store sample_now None None
       (Some (of_Z 9223372036854775808)) = None
  /\ getRecentMessages no_format sample_store sample_now None None
       (Some NaN) = None.
Proof. repeat split; vm_compute; reflexivity. Qed.

End QueryFacts.

(** ** The [LIKE] operator *)

Module LikeFacts.

Local Open Scope string_scope.

Lemma append_empty_r (s : string) : s ++ "" = s.
Proof. induction s as [|c s IH]; simpl; [|rewrite IH]; reflexivity. Qed.

Lemma append_assoc (a b c : string) : (a ++ b) ++ c = a ++ (b ++ c).
Proof. induction a as [|x a IH]; simpl; [|rewrite IH]; reflexivity. Qed.

Lemma append_empty_inv (a b : string) : a ++ b = "" -> a = "" /\ b = "".
Proof. destruct a; simpl; [auto | discriminate]. Qed.

(** One step of the matching of a pattern that opens with [%]. *)
Lemma like_percent (p t : string) :
  like (String "%" p) t
  = like p t
    || match t with
       | EmptyString => false
       | String _ t' => like (String "%" p) t'
       end.
Proof. destruct t; reflexivity. Qed.

(** One step of the matching of a pattern that opens with another
    character. *)
Lemma like_char (c : ascii) (p t : string) :
  c <> "%"%char ->
  like (String c p) t
  = match t with
    | EmptyString => false
    | String d t' => ((c =? "_")%char || eq_nocase c d) && like p t'
    end.
Proof.
  intro H. simpl. rewrite (proj2 (Ascii.eqb_neq c "%") H). reflexivity.
Qed.

(** A leading [%] lets the rest of the pattern start anywhere. *)
Lemma like_leading_percent (p t : string) :
  like (String "%" p) t = true
  <-> exists pre rest, t = pre ++ rest /\ like p rest = true.
Proof.
  induction t as [|d t IH]; rewrite like_percent.
  - rewrite orb_false_r. split.
    + intro H. exists "", "". auto.
    + intros [pre [rest [E H]]]. symmetry in E.
      apply append_empty_inv in E. destruct E as [_ ->]. exact H.
  - rewrite orb_true_iff, IH. split.
    + intros [H | [pre [rest [E H]]]].
      * exists "", (String d t). auto.
      * exists (String d pre), rest. simpl. rewrite E. auto.
    + intros [pre [rest [E H]]]. destruct pre as [|x pre]; simpl in E.
      * left. rewrite E. exact H.
      * right. inversion E; subst. exists pre, rest. auto.
Qed.

Lemma like_all (t : string) : like "%" t = true.
Proof.
  apply like_leading_percent. exists t, "". rewrite append_empty_r. auto.
Qed.

(** A trailing [%] lets the text go on after the match. *)
Lemma like_trailing_percent (p : string) :
  forall t,
    like (p ++ "%") t = true
    <-> exists mid post, t = mid ++ post /\ like p mid = true.
Proof.
  induction p as [|c p IH]; intro t.
  - simpl append. rewrite like_all. split; [|auto].
    intros _. exists "", t. auto.
  - change (String c p ++ "%") with (String c (p ++ "%")).
    destruct (ascii_dec c "%") as [->|Hc].
    + rewrite like_leading_percent. split.
      * intros [pre [rest [E H]]]. apply IH in H.
        destruct H as [mid [post [E' H]]].
        exists (pre ++ mid), post. split.
        -- rewrite append_assoc, <- E'. exact E.
        -- apply like_leading_percent. exists pre, mid. auto.
      * intros [mid [post [E H]]]. apply like_leading_percent in H.
        destruct H as [pre [mid' [E' H]]].
        exists pre, (mid' ++ post). split.
        -- rewrite E, E', append_assoc. reflexivity.
        -- apply IH. exists mid', post. auto.
    + rewrite (like_char _ _ Hc). destruct t as [|d t].
      * split; [discriminate|].
        intros [mid [post [E H]]]. symmetry in E.
        apply append_empty_inv in E. destruct E as [-> _].
        rewrite (like_char _ _ Hc) in H. discriminate.
      * rewrite andb_true_iff, IH. split.
        -- intros [Hd [mid [post [E H]]]].
           exists (String d mid), post. split; [simpl; rewrite E; reflexivity|].
           rewrite (like_char _ _ Hc), Hd, H. reflexivity.
        -- intros [mid [post [E H]]]. rewrite (like_char _ _ Hc) in H.
           destruct mid as [|x mid]; [discriminate|].
           simpl in E. inversion E; subst.
           apply andb_true_iff in H. destruct H as [Hd H].
           split; [exact Hd|]. exists mid, post. auto.
Qed.

(** [%s%] matches a text exactly when some stretch of the text matches
    [s] read as a pattern. *)
Lemma like_substring_pattern (s t : string) :
  like (substring_pattern s) t = true
  <-> exists pre mid post, t = pre ++ mid ++ post /\ like s mid = true.
Proof.
  unfold substring_pattern.
  change ("%" ++ s ++ "%") with (String "%" (s ++ "%")).
  rewrite like_leading_percent. split.
  - intros [pre [rest [E H]]]. apply like_trailing_percent in H.
    destruct H as [mid [post [E' H]]].
    exists pre, mid, post. rewrite <- E'. auto.
  - intros [pre [mid [post [E H]]]].
    exists pre, (mid ++ post). split; [exact E|].
    apply like_trailing_percent. exists mid, post. auto.
Qed.

End LikeFacts.

(** ** Free text reaches the engine as bound values *)

Module ParamFacts.

Import LikeFacts.

Local Open Scope string_scope.

(** C8.  The text of each statement is fixed: it does not depend on the
    search string, and for the contact filter only on a contact being
    given.  The caller's strings travel in the bound values, where the
    substring patterns are [%] followed by the string as given followed by
    [%]; [sanitizeForSqlLike] is not applied.  The engine matches such a
    pattern against a text exactly when some stretch of the text matches
    the caller's string read as a [LIKE] pattern, so a [%] or [_] inside it
    acts as a wildcard. *)
Theorem free_text_is_bound (now : Z) :
  (forall query days limit,
      sql (searchMessages_statement now query days limit) = search_select
      /\ params (searchMessages_statement now query days limit)
         = [BindNumber (daysAgoToCocoaTimestamp now (default_arg days 30));
            BindText ("%" ++ query ++ "%");
            BindNumber (default_arg limit 50)])
  /\ (forall contact days limit,
      sql (getConversation_statement now contact days limit)
      = conversation_select
      /\ params (getConversation_statement now contact days limit)
         = [BindNumber (daysAgoToCocoaTimestamp now (default_arg days 7));
            BindText ("%" ++ contact ++ "%");
            BindText (formatPhoneNumber contact);
            BindText ("%" ++ formatPhoneNumber contact ++ "%");
            BindNumber (default_arg limit 100)])
  /\ (forall contact hours limit, contact <> "" ->
      sql (getRecentMessages_statement now hours (Some contact) limit)
      = (recent_select ++ contact_clause) ++ " ORDER BY m.date DESC LIMIT ?"
      /\ params (getRecentMessages_statement now hours (Some contact) limit)
         = [BindNumber (hoursAgoToCocoaTimestamp now (default_arg hours 24));
            BindText ("%" ++ contact ++ "%");
            BindText (formatPhoneNumber contact);
            BindText ("%" ++ formatPhoneNumber contact ++ "%");
            BindNumber (default_arg limit 50)])
  /\ (forall contact days limit, contact <> "" ->
      sql (getRecentAttachments_statement now days (Some contact) limit)
      = (attachments_select ++ contact_clause)
        ++ " ORDER BY m.date DESC LIMIT ?"
      /\ params (getRecentAttachments_statement now days (Some contact) limit)
         = [BindNumber (daysAgoToCocoaTimestamp now (default_arg days 7));
            BindText ("%" ++ contact ++ "%");
            BindText (formatPhoneNumber contact);
            BindText ("%" ++ formatPhoneNumber contact ++ "%");
            BindNumber (default_arg limit 50)])
  /\ (forall contact,
      sql (findChatByContact_statement contact) = find_chat_select
      /\ params (findChatByContact_statement contact)
         = [BindText ("%" ++ contact ++ "%");
            BindText (formatPhoneNumber contact);
            BindText ("%" ++ formatPhoneNumber contact ++ "%")])
  /\ (forall db query days limit,
      all_search db (params (searchMessages_statement now query days limit))
      = query_messages (message_handle_chat db)
          (fun r =>
             date_after
               (daysAgoToCocoaTimestamp now (default_arg days 30)) r
             && like_opt ("%" ++ query ++ "%") (m_text (j_m r)))
          date_desc (default_arg limit 50))
  /\ (forall s text,
      like ("%" ++ s ++ "%") text = true
      <-> exists pre mid post,
            text = pre ++ mid ++ post /\ like s mid = true).
Proof.
  split; [|split; [|split; [|split; [|split; [|split]]]]].
  - intros. split; reflexivity.
  - intros. split; reflexivity.
  - intros contact hours limit H.
    unfold getRecentMessages_statement.
    rewrite (MapperFacts.truthy_present H). split; reflexivity.
  - intros contact days limit H.
    unfold getRecentAttachments_statement.
    rewrite (MapperFacts.truthy_present H). split; reflexivity.
  - intros. split; reflexivity.
  - intros. reflexivity.
  - intros s text. apply like_substring_pattern.
Qed.

Lemma free_text_is_bound_witness :
  params (getRecentMessages_statement sample_now None
            (Some "555-123-4567") None)
  = [BindNumber (hoursAgoToCocoaTimestamp sample_now (of_Z 24));
     BindText "%555-123-4567%";
     BindText "+15551234567";
     BindText "%+15551234567%";
     BindNumber (of_Z 50)]
  /\ like "%a_c%" "xabcx" = true.
Proof.
  destruct (free_text_is_bound sample_now) as [_ [_ [Hr [_ [_ [_ Hl]]]]]].
  split.
  - apply (proj2 (Hr "555-123-4567" None None ltac:(discriminate))).
  - apply (proj2 (Hl "a_c" "xabcx")).
    exists "x", "abc", "x". split; reflexivity.
Defined.

(** A search for [a_c] finds the text [abc]; had the string been passed
    through [sanitizeForSqlLike], the pattern would have been another one,
    which finds neither [abc] nor, without an [ESCAPE] clause, [a_c]. *)
Example wildcards_stay_wildcards :
  option_map (map Message.text)
    (searchMessages no_format sample_store sample_now "a_c" None None)
  = Some ["a_c"; "abc"]
  /\ substring_pattern (sanitizeForSqlLike "a_c") = "%a\_c%"
  /\ like (substring_pattern (sanitizeForSqlLike "a_c")) "abc" = false
  /\ like (substring_pattern (sanitizeForSqlLike "a_c")) "a_c" = false
  /\ like "%100%%" "1000 items" = true.
Proof. repeat split; vm_compute; reflexivity. Qed.

(** The examples of [sanitizeForSqlLike] from the test suite. *)
Example sanitizeForSqlLike_examples :
  sanitizeForSqlLike "100% done" = "100\% done"
  /\ sanitizeForSqlLike "hello_world" = "hello\_world"
  /\ sanitizeForSqlLike "hello world" = "hello world".
Proof. repeat split. Qed.

End ParamFacts.

(* ================================================================= *)
(** * Further properties *)

(** ** Escaping for AppleScript *)

Module EscapeFacts.

Local Open Scope string_scope.

(** The two passes of [escapeAppleScript], read character by character. *)
Lemma escapeAppleScript_cons (c : ascii) (s : string) :
  escapeAppleScript (String c s)
  = if (c =? backslash)%char then
      String backslash (String backslash (escapeAppleScript s))
    else if (c =? dquote)%char then
      String backslash (String dquote (escapeAppleScript s))
    else String c (escapeAppleScript s).
Proof.
  unfold escapeAppleScript. simpl.
  destruct (c =? backslash)%char eqn:Eb.
  - reflexivity.
  - simpl. destruct (c =? dquote)%char; reflexivity.
Qed.

Lemma escapeAppleScript_empty : escapeAppleScript "" = "".
Proof. reflexivity. Qed.

Lemma unescape_escapeAppleScript (s : string) :
  unescape (escapeAppleScript s) = s.
Proof.
  induction s as [|c s IH]; [reflexivity|].
  rewrite escapeAppleScript_cons.
  destruct (c =? backslash)%char eqn:Eb.
  - apply Ascii.eqb_eq in Eb. subst c. simpl. rewrite IH. reflexivity.
  - destruct (c =? dquote)%char eqn:Eq.
    + apply Ascii.eqb_eq in Eq. subst c. simpl. rewrite IH. reflexivity.
    + simpl. rewrite Eb, IH. reflexivity.
Qed.

(** X1.  [escapeAppleScript] loses nothing: reading its result back, with
    each backslash making the next character literal, gives the input, so
    two different texts never have the same escaped form. *)
Theorem escapeAppleScript_injective (a b : string) :
  unescape (escapeAppleScript a) = a
  /\ (escapeAppleScript a = escapeAppleScript b -> a = b).
Proof.
  split; [apply unescape_escapeAppleScript|].
  intro H. rewrite <- (unescape_escapeAppleScript a), H.
  apply unescape_escapeAppleScript.
Qed.

Lemma escapeAppleScript_injective_witness :
  escapeAppleScript "a\b" = escapeAppleScript "a\b" /\ "a\b" = "a\b".
Proof.
  split; [reflexivity|].
  apply (proj2 (escapeAppleScript_injective "a\b" "a\b")). reflexivity.
Defined.

(** X2.  In the result of [escapeAppleScript] every double quote and
    every backslash of the input stands behind a backslash: read from the
    left, the result never shows a double quote on its own and never ends
    in the middle of an escape, whatever the input. *)
Theorem escapeAppleScript_closes_nothing (s : string) :
  breaks_literal (escapeAppleScript s) = false.
Proof.
  induction s as [|c s IH]; [reflexivity|].
  rewrite escapeAppleScript_cons.
  destruct (c =? backslash)%char eqn:Eb.
  - simpl. exact IH.
  - destruct (c =? dquote)%char eqn:Eq.
    + simpl. exact IH.
    + simpl. rewrite Eb, Eq. exact IH.
Qed.

(** The inputs of the test suite, and an input that would close the
    literal if it were not escaped. *)
Example escapeAppleScript_examples :
  escapeAppleScript "path\to\file" = "path\\to\\file"
  /\ escapeAppleScript "Hello World" = "Hello World"
  /\ breaks_literal (String dquote " & do shell script") = true
  /\ unescape (escapeAppleScript (String dquote " & do shell script"))
     = String dquote " & do shell script".
Proof. repeat split. Qed.

End EscapeFacts.

(** ** Truncation and previews *)

Module TruncateFacts.

Local Open Scope string_scope.

Lemma length_append (a b : string) :
  String.length (a ++ b) = (String.length a + String.length b)%nat.
Proof. induction a as [|c a IH]; simpl; [|rewrite IH]; reflexivity. Qed.

Lemma length_substring_0 (k : nat) (s : string) :
  (k <= String.length s)%nat -> String.length (substring 0 k s) = k.
Proof.
  revert s. induction k as [|k IH]; intros s H.
  - destruct s; reflexivity.
  - destruct s as [|c s]; simpl in *; [lia|]. rewrite IH by lia. reflexivity.
Qed.

Lemma substring_0_prefix (k : nat) (s : string) :
  String.prefix (substring 0 k s) s = true.
Proof.
  revert s. induction k as [|k IH]; intros s.
  - destruct s; reflexivity.
  - destruct s as [|c s]; simpl; [reflexivity|].
    destruct (ascii_dec c c); [apply IH | congruence].
Qed.

(** X3.  [truncate] returns a text that fits as it is; a longer text is
    cut to its first [maxLength - 3] characters followed by three dots,
    which makes exactly [maxLength] characters when [maxLength] is at
    least 3.  Below 3 the result of cutting is the three dots alone,
    longer than asked. *)
Theorem truncate_shape (str : string) (maxLength : Z) :
  ((Z.of_nat (String.length str) <= maxLength)%Z ->
   truncate str maxLength = str)
  /\ ((maxLength < Z.of_nat (String.length str))%Z -> (3 <= maxLength)%Z ->
      truncate str maxLength
      = substring 0 (Z.to_nat (maxLength - 3)) str ++ "..."
      /\ String.prefix (substring 0 (Z.to_nat (maxLength - 3)) str) str = true
      /\ Z.of_nat (String.length (truncate str maxLength)) = maxLength)
  /\ ((maxLength < Z.of_nat (String.length str))%Z -> (maxLength < 3)%Z ->
      truncate str maxLength = "...").
Proof.
  unfold truncate. split; [|split].
  - intro H. apply Z.leb_le in H. rewrite H. reflexivity.
  - intros H H3.
    replace (Z.of_nat (String.length str) <=? maxLength)%Z with false
      by (symmetry; apply Z.leb_gt; exact H).
    split; [reflexivity|]. split; [apply substring_0_prefix|].
    rewrite length_append, length_substring_0 by lia. simpl. lia.
  - intros H H3.
    replace (Z.of_nat (String.length str) <=? maxLength)%Z with false
      by (symmetry; apply Z.leb_gt; exact H).
    replace (Z.to_nat (maxLength - 3)) with 0%nat by lia.
    destruct str; reflexivity.
Qed.

Lemma truncate_shape_witness :
  truncate "hi" 10 = "hi"
  /\ truncate "hello world this is a long string" 10 = "hello w..."
  /\ truncate "abcd" 2 = "...".
Proof.
  split; [|split].
  - apply (proj1 (truncate_shape "hi" 10)). discriminate.
  - destruct (proj1 (proj2 (truncate_shape
                 "hello world this is a long string" 10)))
      as [H _]; [reflexivity | discriminate | exact H].
  - apply (proj2 (proj2 (truncate_shape "abcd" 2))); reflexivity.
Defined.

Lemma truncate_length (str : string) (maxLength : Z) :
  (3 <= maxLength)%Z ->
  (Z.of_nat (String.length (truncate str maxLength)) <= maxLength)%Z.
Proof.
  intro H3. unfold truncate.
  destruct (Z.of_nat (String.length str) <=? maxLength)%Z eqn:E.
  - apply Z.leb_le. exact E.
  - apply Z.leb_gt in E.
    rewrite length_append, length_substring_0 by lia. simpl. lia.
Qed.

Lemma chat_of_row_preview (formatDate : Date -> string) (row : RawChatRow.t) :
  (String.length (Chat.lastMessage (chat_of_row formatDate row)) <= 50)%nat.
Proof.
  unfold chat_of_row. simpl.
  destruct (RawChatRow.last_message row) as [s|]; [|simpl; lia].
  destruct (String.eqb s ""); [simpl; lia|].
  pose proof (@truncate_length s 50 ltac:(lia)). lia.
Qed.

(** X4.  Whatever the store holds, no chat returned by [listChats]
    carries a preview of more than 50 characters. *)
Theorem listChats_preview_bounded (formatDate : Date -> string) (db : Store)
  (limit : option number) (includeGroupChats : option bool)
  (out : list Chat.t) :
  listChats formatDate db limit includeGroupChats = Some out ->
  Forall (fun c => (String.length (Chat.lastMessage c) <= 50)%nat) out.
Proof.
  unfold listChats.
  destruct (all_chats _ _ _) as [rows|]; [|discriminate].
  simpl. intro H. inversion H; subst.
  apply Forall_forall. intros c Hc. apply in_map_iff in Hc.
  destruct Hc as [row [<- _]]. apply chat_of_row_preview.
Qed.

Lemma listChats_preview_bounded_witness :
  exists out,
    listChats no_format sample_store None None = Some out
    /\ Forall (fun c => (String.length (Chat.lastMessage c) <= 50)%nat) out.
Proof.
  destruct (listChats no_format sample_store None None) as [out|] eqn:E.
  - exists out. split; [reflexivity|].
    apply (@listChats_preview_bounded no_format sample_store None None out E).
  - vm_compute in E. discriminate.
Defined.

End TruncateFacts.

(** ** Phone numbers *)

Module PhoneFacts.

Local Open Scope string_scope.

Lemma length_keep_chars (keep : ascii -> bool) (s : string) :
  (String.length (keep_chars keep s) <= String.length s)%nat.
Proof.
  induction s as [|c s IH]; simpl; [lia|].
  destruct (keep c); simpl; lia.
Qed.

(** Stripping to digits and [+] does not change the digits. *)
Lemma digits_of_cleaned (s : string) :
  keep_chars is_digit (keep_chars digit_or_plus s) = keep_chars is_digit s.
Proof.
  induction s as [|c s IH]; simpl; [reflexivity|].
  unfold digit_or_plus at 1.
  destruct (is_digit c) eqn:Ed; simpl.
  - rewrite Ed, IH. reflexivity.
  - destruct (c =? "+")%char eqn:Ep; simpl; [|exact IH].
    rewrite Ed. exact IH.
Qed.

Lemma all_digits_keep (d : string) :
  all_digits d = true ->
  keep_chars digit_or_plus d = d /\ keep_chars is_digit d = d.
Proof.
  induction d as [|c d IH]; simpl; [auto|].
  intro H. apply andb_true_iff in H. destruct H as [Hc Hd].
  destruct (IH Hd) as [H1 H2].
  assert (Hp : digit_or_plus c = true) by (unfold digit_or_plus; rewrite Hc; reflexivity).
  rewrite Hp, Hc, H1, H2. auto.
Qed.

(** X5.  What looks like a phone number before normalization still does
    after it: [formatPhoneNumber] keeps the digits of its input, adding
    at most the country digit [1]. *)
Theorem formatPhoneNumber_keeps_phone_numbers (s : string) :
  isPhoneNumber s = true -> isPhoneNumber (formatPhoneNumber s) = true.
Proof.
  unfold isPhoneNumber. intro H.
  apply andb_true_iff in H. destruct H as [Hlo Hhi].
  apply Nat.leb_le in Hlo. apply Nat.leb_le in Hhi.
  pose proof (digits_of_cleaned s) as Hd.
  pose proof (length_keep_chars is_digit (keep_chars digit_or_plus s)) as Hl.
  rewrite Hd in Hl.
  unfold formatPhoneNumber.
  set (c := keep_chars digit_or_plus s) in *.
  assert (Hplus : forall t, keep_chars is_digit (String "+" t)
                            = keep_chars is_digit t) by reflexivity.
  destruct ((String.length c =? 11)%nat && startsWith c "1").
  - simpl append. rewrite Hplus, Hd.
    apply andb_true_iff. split; apply Nat.leb_le; assumption.
  - destruct (String.length c =? 10)%nat eqn:E10.
    + apply Nat.eqb_eq in E10.
      assert (Hone : forall t, keep_chars is_digit ("+1" ++ t)
                               = String "1" (keep_chars is_digit t))
        by reflexivity.
      rewrite Hone, Hd. cbn [String.length].
      apply andb_true_iff. split; apply Nat.leb_le; lia.
    + destruct (startsWith c "+").
      * rewrite Hd. apply andb_true_iff. split; apply Nat.leb_le; assumption.
      * apply andb_true_iff. split; apply Nat.leb_le; assumption.
Qed.

Lemma formatPhoneNumber_keeps_phone_numbers_witness :
  isPhoneNumber "+1-555-123-4567" = true
  /\ isPhoneNumber (formatPhoneNumber "+1-555-123-4567") = true.
Proof.
  split; [reflexivity|].
  apply formatPhoneNumber_keeps_phone_numbers. reflexivity.
Defined.

Lemma format_ten_digits (s d : string) :
  all_digits d = true -> String.length d = 10%nat ->
  keep_chars digit_or_plus s = d \/ keep_chars digit_or_plus s = "1" ++ d ->
  formatPhoneNumber s = "+1" ++ d.
Proof.
  intros Hd Hl [H | H]; unfold formatPhoneNumber; rewrite H.
  - rewrite Hl. reflexivity.
  - simpl String.length. rewrite Hl. simpl.
    unfold startsWith. simpl. destruct d; reflexivity.
Qed.

(** X6.  However a ten-digit number is punctuated, and whether or not
    it is written with a leading [1], [formatPhoneNumber] gives the same
    result: [+1] followed by the ten digits. *)
Theorem formatPhoneNumber_canonical (s d : string) :
  all_digits d = true -> String.length d = 10%nat ->
  keep_chars digit_or_plus s = d \/ keep_chars digit_or_plus s = "1" ++ d ->
  formatPhoneNumber s = "+1" ++ d.
Proof. apply format_ten_digits. Qed.

Lemma formatPhoneNumber_canonical_witness :
  formatPhoneNumber "(555) 123-4567" = "+15551234567"
  /\ formatPhoneNumber "1-555-123-4567" = "+15551234567".
Proof.
  split.
  - apply (@formatPhoneNumber_canonical "(555) 123-4567" "5551234567");
      [reflexivity | reflexivity | left; reflexivity].
  - apply (@formatPhoneNumber_canonical "1-555-123-4567" "5551234567");
      [reflexivity | reflexivity | right; reflexivity].
Defined.

End PhoneFacts.

(** ** Relative times *)

Module RelativeTimeFacts.

Local Open Scope string_scope.
Local Open Scope Z_scope.

Section RelativeTime.

Variable formatDate : Date -> string.

(** X7.  [relativeTime] depends on the age [now - t] of the date in
    milliseconds only, by whole units: below one minute (a date in the
    future included) it says ["just now"]; below one hour, the whole
    minutes; below one day, the whole hours; below seven days, the whole
    days; from seven days on, and for an invalid date, it gives the
    formatted date.  The unit is in the singular exactly for 1. *)
Theorem relativeTime_thresholds (now t : Z) :
  let age := now - t in
  (age < 60000 -> relativeTime formatDate now (TimeValue t) = "just now")
  /\ (60000 <= age < 3600000 ->
      relativeTime formatDate now (TimeValue t)
      = (show_Z (age / 60000) ++ " minute"
         ++ (if (age / 60000 =? 1)%Z then "" else "s") ++ " ago")%string)
  /\ (3600000 <= age < 86400000 ->
      relativeTime formatDate now (TimeValue t)
      = (show_Z (age / 3600000) ++ " hour"
         ++ (if (age / 3600000 =? 1)%Z then "" else "s") ++ " ago")%string)
  /\ (86400000 <= age < 604800000 ->
      relativeTime formatDate now (TimeValue t)
      = (show_Z (age / 86400000) ++ " day"
         ++ (if (age / 86400000 =? 1)%Z then "" else "s") ++ " ago")%string)
  /\ (604800000 <= age ->
      relativeTime formatDate now (TimeValue t)
      = formatDate (TimeValue t))
  /\ relativeTime formatDate now InvalidDate = formatDate InvalidDate.
Proof.
  intro age. unfold relativeTime. fold age.
  assert (Hm : age / 1000 / 60 = age / 60000)
    by (rewrite Z.div_div by lia; reflexivity).
  assert (Hh : age / 1000 / 60 / 60 = age / 3600000)
    by (rewrite !Z.div_div by lia; reflexivity).
  assert (Hd : age / 1000 / 60 / 60 / 24 = age / 86400000)
    by (rewrite !Z.div_div by lia; reflexivity).
  rewrite Hd, Hh, Hm.
  assert (Ls : (age / 1000 <? 60) = (age <? 60000)).
  { destruct (age <? 60000) eqn:E;
      [apply Z.ltb_lt in E; apply Z.ltb_lt
      | apply Z.ltb_ge in E; apply Z.ltb_ge];
      Z.div_mod_to_equations; lia. }
  assert (Lm : (age / 60000 <? 60) = (age <? 3600000)).
  { destruct (age <? 3600000) eqn:E;
      [apply Z.ltb_lt in E; apply Z.ltb_lt
      | apply Z.ltb_ge in E; apply Z.ltb_ge];
      Z.div_mod_to_equations; lia. }
  assert (Lh : (age / 3600000 <? 24) = (age <? 86400000)).
  { destruct (age <? 86400000) eqn:E;
      [apply Z.ltb_lt in E; apply Z.ltb_lt
      | apply Z.ltb_ge in E; apply Z.ltb_ge];
      Z.div_mod_to_equations; lia. }
  assert (Ld : (age / 86400000 <? 7) = (age <? 604800000)).
  { destruct (age <? 604800000) eqn:E;
      [apply Z.ltb_lt in E; apply Z.ltb_lt
      | apply Z.ltb_ge in E; apply Z.ltb_ge];
      Z.div_mod_to_equations; lia. }
  rewrite Ls, Lm, Lh, Ld.
  repeat split; intros H;
    repeat match goal with
      | |- context [?a <? ?b] =>
          first [ replace (a <? b) with true by (symmetry; apply Z.ltb_lt; lia)
                | replace (a <? b) with false by (symmetry; apply Z.ltb_ge; lia) ]
      end; reflexivity.
Qed.

End RelativeTime.

Lemma relativeTime_thresholds_witness :
  relativeTime no_format 1718452800000 (TimeValue 1718452500000)
  = "5 minutes ago"
  /\ relativeTime no_format 1718452800000 (TimeValue 1718452900000)
     = "just now"
  /\ relativeTime no_format 1718452800000 (TimeValue 1718449200000)
     = "1 hour ago".
Proof.
  pose proof (relativeTime_thresholds no_format 1718452800000 1718452500000)
    as [_ [Hmin _]].
  pose proof (relativeTime_thresholds no_format 1718452800000 1718452900000)
    as [Hnow _].
  pose proof (relativeTime_thresholds no_format 1718452800000 1718449200000)
    as [_ [_ [Hhour _]]].
  split; [|split].
  - apply Hmin. split; [discriminate | reflexivity].
  - apply Hnow. reflexivity.
  - apply Hhour. split; [discriminate | reflexivity].
Defined.

End RelativeTimeFacts.

(** ** File sizes *)

Module FileSizeFacts.

Local Open Scope string_scope.

Lemma Qfloor_half (z : Z) : Qfloor (inject_Z z + (1 # 2)) = z.
Proof.
  pose proof (Qfloor_le (inject_Z z + (1 # 2))) as L.
  pose proof (Qlt_floor (inject_Z z + (1 # 2))) as U.
  set (f := Qfloor (inject_Z z + (1 # 2))) in *.
  assert (L' : inject_Z f < inject_Z (z + 1)).
  { rewrite inject_Z_plus. change (inject_Z 1) with 1%Q. lra. }
  assert (U' : inject_Z z < inject_Z (f + 1)) by lra.
  rewrite <- Zlt_Qlt in L', U'. lia.
Qed.

Lemma no_decimal_whole (z : Z) : no_decimal (inject_Z z) = show_Z z.
Proof. unfold no_decimal. rewrite Qfloor_half. reflexivity. Qed.

Lemma one_decimal_comp (x y : Q) : (x == y)%Q -> one_decimal x = one_decimal y.
Proof.
  intro H. unfold one_decimal.
  rewrite (@Qfloor_comp (x * 10 + (1 # 2)) (y * 10 + (1 # 2)))
    by (rewrite H; reflexivity).
  reflexivity.
Qed.

Lemma Qle_bool_true (x y : Q) : (x <= y)%Q -> Qle_bool x y = true.
Proof. apply Qle_bool_iff. Qed.

Lemma Qle_bool_gt (x y : Q) : (y < x)%Q -> Qle_bool x y = false.
Proof.
  intro H. destruct (Qle_bool x y) eqn:E; [|reflexivity].
  apply Qle_bool_iff in E. lra.
Qed.

Section FileSize.

Variable number_text : Q -> string.

(** What [toFixed] prints below 10^21 and from 10^21 on. *)
Lemma toFixed1_digits (x : Q) :
  (0 <= x)%Q -> (x < 1000000000000000000000)%Q ->
  toFixed1 number_text x = one_decimal x.
Proof.
  intros L U. unfold toFixed1.
  rewrite (Qle_bool_true L), (Qle_bool_gt U). reflexivity.
Qed.

Lemma toFixed1_large (x : Q) :
  (1000000000000000000000 <= x)%Q -> toFixed1 number_text x = number_text x.
Proof.
  intro L. unfold toFixed1.
  rewrite (@Qle_bool_true 0 x) by lra. rewrite (Qle_bool_true L).
  reflexivity.
Qed.

Lemma toFixed0_whole (z : Z) :
  (0 <= z < 1000000000000000000000)%Z ->
  toFixed0 number_text (inject_Z z) = show_Z z.
Proof.
  intro H. unfold toFixed0.
  rewrite (@Qle_bool_true 0 (inject_Z z))
    by (change 0%Q with (inject_Z 0); rewrite <- Zle_Qle; lia).
  rewrite Qle_bool_gt
    by (change 1000000000000000000000%Q
          with (inject_Z 1000000000000000000000);
        rewrite <- Zlt_Qlt; lia).
  rewrite no_decimal_whole. reflexivity.
Qed.

Lemma toFixed0_negative (z : Z) :
  (-1000000000000000000000 < z < 0)%Z ->
  toFixed0 number_text (inject_Z z) = "-" ++ show_Z (- z).
Proof.
  intro H. unfold toFixed0.
  rewrite (@Qle_bool_gt 0 (inject_Z z))
    by (change 0%Q with (inject_Z 0); rewrite <- Zlt_Qlt; lia).
  rewrite <- inject_Z_opp.
  rewrite Qle_bool_gt
    by (change 1000000000000000000000%Q
          with (inject_Z 1000000000000000000000);
        rewrite <- Zlt_Qlt; lia).
  rewrite no_decimal_whole. reflexivity.
Qed.

Lemma toFixed0_very_negative (z : Z) :
  (z <= -1000000000000000000000)%Z ->
  toFixed0 number_text (inject_Z z) = "-" ++ number_text (inject_Z (- z)).
Proof.
  intro H. unfold toFixed0.
  rewrite (@Qle_bool_gt 0 (inject_Z z))
    by (change 0%Q with (inject_Z 0); rewrite <- Zlt_Qlt; lia).
  rewrite <- inject_Z_opp.
  rewrite Qle_bool_true
    by (change 1000000000000000000000%Q
          with (inject_Z 1000000000000000000000);
        rewrite <- Zle_Qle; lia).
  reflexivity.
Qed.

Ltac by_1024 :=
  unfold Qdiv; change (/ 1024)%Q with (1 # 1024)%Q; lra.

Ltac in_Q H lo hi :=
  match type of H with
  | (?a <= ?b < ?c)%Z =>
      assert (lo : (inject_Z a <= inject_Z b)%Q)
        by (rewrite <- Zle_Qle; lia);
      assert (hi : (inject_Z b < inject_Z c)%Q)
        by (rewrite <- Zlt_Qlt; lia)
  end.

(** X8.  [formatFileSize] answers ["Unknown size"] for [null] and for 0.
    Otherwise the unit is fixed by the size alone: bytes below 1024 (as a
    whole number), then KB, MB and GB at the powers of 1024, each with one
    decimal of the size divided by that power; GB is the last unit.  A
    negative size is shown in bytes.  The digits are printed while the
    number shown is below 10^21; from there on [toFixed] gives the text
    of the number in the exponent notation of [String]. *)
Theorem formatFileSize_units (b : Z) :
  formatFileSize number_text None = "Unknown size"
  /\ formatFileSize number_text (Some 0%Z) = "Unknown size"
  /\ ((-1000000000000000000000 < b < 0)%Z ->
      formatFileSize number_text (Some b) = "-" ++ show_Z (- b) ++ " B")
  /\ ((b <= -1000000000000000000000)%Z ->
      formatFileSize number_text (Some b)
      = "-" ++ number_text (inject_Z (- b)) ++ " B")
  /\ ((0 < b < 1024)%Z ->
      formatFileSize number_text (Some b) = show_Z b ++ " B")
  /\ ((1024 <= b < 1048576)%Z ->
      formatFileSize number_text (Some b)
      = one_decimal (inject_Z b / 1024) ++ " KB")
  /\ ((1048576 <= b < 1073741824)%Z ->
      formatFileSize number_text (Some b)
      = one_decimal (inject_Z b / 1048576) ++ " MB")
  /\ ((1073741824 <= b < 1073741824000000000000000000000)%Z ->
      formatFileSize number_text (Some b)
      = one_decimal (inject_Z b / 1073741824) ++ " GB")
  /\ ((1073741824000000000000000000000 <= b)%Z ->
      formatFileSize number_text (Some b)
      = number_text (inject_Z b / 1024 / 1024 / 1024) ++ " GB").
Proof.
  split; [reflexivity|]. split; [reflexivity|].
  unfold formatFileSize.
  split; [|split; [|split; [|split; [|split; [|split]]]]]; intro H.
  - replace (b =? 0)%Z with false by (symmetry; apply Z.eqb_neq; lia).
    assert (Hq : (inject_Z b < 0)%Q)
      by (change 0%Q with (inject_Z 0); rewrite <- Zlt_Qlt; lia).
    simpl scale_size. rewrite Qle_bool_gt by lra. simpl.
    rewrite toFixed0_negative by lia. rewrite LikeFacts.append_assoc.
    reflexivity.
  - replace (b =? 0)%Z with false by (symmetry; apply Z.eqb_neq; lia).
    assert (Hq : (inject_Z b < 0)%Q)
      by (change 0%Q with (inject_Z 0); rewrite <- Zlt_Qlt; lia).
    simpl scale_size. rewrite Qle_bool_gt by lra. simpl.
    rewrite toFixed0_very_negative by lia. rewrite LikeFacts.append_assoc.
    reflexivity.
  - replace (b =? 0)%Z with false by (symmetry; apply Z.eqb_neq; lia).
    assert (Hq : (inject_Z b < 1024)%Q)
      by (change 1024%Q with (inject_Z 1024); rewrite <- Zlt_Qlt; lia).
    simpl scale_size. rewrite Qle_bool_gt by lra. simpl.
    rewrite toFixed0_whole by lia. reflexivity.
  - replace (b =? 0)%Z with false by (symmetry; apply Z.eqb_neq; lia).
    in_Q H Hlo Hhi.
    change (inject_Z 1024) with 1024%Q in Hlo.
    change (inject_Z 1048576) with 1048576%Q in Hhi.
    simpl scale_size. rewrite Qle_bool_true by lra.
    rewrite Qle_bool_gt by by_1024. simpl.
    rewrite toFixed1_digits by by_1024. reflexivity.
  - replace (b =? 0)%Z with false by (symmetry; apply Z.eqb_neq; lia).
    in_Q H Hlo Hhi.
    change (inject_Z 1048576) with 1048576%Q in Hlo.
    change (inject_Z 1073741824) with 1073741824%Q in Hhi.
    simpl scale_size. rewrite Qle_bool_true by lra.
    rewrite Qle_bool_true by by_1024.
    rewrite Qle_bool_gt by by_1024. simpl.
    rewrite toFixed1_digits by by_1024.
    rewrite (@one_decimal_comp (inject_Z b / 1024 / 1024)
               (inject_Z b / 1048576)) by field.
    reflexivity.
  - replace (b =? 0)%Z with false by (symmetry; apply Z.eqb_neq; lia).
    in_Q H Hlo Hhi.
    change (inject_Z 1073741824) with 1073741824%Q in Hlo.
    change (inject_Z 1073741824000000000000000000000)
      with 1073741824000000000000000000000%Q in Hhi.
    simpl scale_size. rewrite Qle_bool_true by lra.
    rewrite Qle_bool_true by by_1024.
    rewrite Qle_bool_true by by_1024. simpl.
    rewrite toFixed1_digits by by_1024.
    rewrite (@one_decimal_comp (inject_Z b / 1024 / 1024 / 1024)
               (inject_Z b / 1073741824)) by field.
    reflexivity.
  - replace (b =? 0)%Z with false by (symmetry; apply Z.eqb_neq; lia).
    assert (Hlo : (1073741824000000000000000000000 <= inject_Z b)%Q)
      by (change 1073741824000000000000000000000%Q
            with (inject_Z 1073741824000000000000000000000);
          rewrite <- Zle_Qle; lia).
    simpl scale_size. rewrite Qle_bool_true by lra.
    rewrite Qle_bool_true by by_1024.
    rewrite Qle_bool_true by by_1024. simpl.
    rewrite toFixed1_large by by_1024. reflexivity.
Qed.

End FileSize.

Lemma formatFileSize_units_witness :
  formatFileSize no_text (Some 500%Z) = "500 B"
  /\ formatFileSize no_text (Some 1536%Z) = "1.5 KB"
  /\ formatFileSize no_text (Some 1048575%Z) = "1024.0 KB"
  /\ formatFileSize no_text (Some 1099511627776%Z) = "1024.0 GB"
  /\ formatFileSize (fun _ => "1.1805916207174113e+21")
       (Some 1267650600228229401496703205376%Z)
     = "1.1805916207174113e+21 GB".
Proof.
  split; [|split; [|split; [|split]]].
  - apply (proj1 (proj2 (proj2 (proj2 (proj2
             (formatFileSize_units no_text 500)))))).
    split; reflexivity.
  - apply (proj1 (proj2 (proj2 (proj2 (proj2 (proj2
             (formatFileSize_units no_text 1536))))))).
    split; [discriminate | reflexivity].
  - apply (proj1 (proj2 (proj2 (proj2 (proj2 (proj2
             (formatFileSize_units no_text 1048575))))))).
    split; [discriminate | reflexivity].
  - apply (proj1 (proj2 (proj2 (proj2 (proj2 (proj2 (proj2 (proj2
             (formatFileSize_units no_text 1099511627776))))))))).
    split; [discriminate | reflexivity].
  - apply (proj2 (proj2 (proj2 (proj2 (proj2 (proj2 (proj2 (proj2
             (formatFileSize_units (fun _ => "1.1805916207174113e+21")
                1267650600228229401496703205376))))))))).
    discriminate.
Defined.

End FileSizeFacts.

(** ** MIME types *)

Module MimeFacts.

Local Open Scope string_scope.

Lemma last_cons {A : Type} (x d : A) (l : list A) :
  List.last (x :: l) d = List.last l x.
Proof.
  revert x d. induction l as [|y l IH]; intros x d; [reflexivity|].
  change (List.last (x :: y :: l) d) with (List.last (y :: l) d).
  rewrite (IH y d), (IH y x). reflexivity.
Qed.

Lemma last_nonempty {A : Type} (l : list A) (d d' : A) :
  l <> [] -> List.last l d = List.last l d'.
Proof.
  destruct l as [|x l]; [congruence|]. intros _. rewrite !last_cons.
  reflexivity.
Qed.

(** A text without a dot is one segment. *)
Lemma split_dot_no_dot (s : string) :
  has_char "." s = false -> split_dot s = (s, []).
Proof.
  induction s as [|c s IH]; simpl; [reflexivity|].
  intro H. apply orb_false_iff in H. destruct H as [Hc Hs].
  rewrite (IH Hs), Hc. reflexivity.
Qed.

(** After a dot, what stands before it no longer counts. *)
Lemma split_dot_after (a b : string) :
  exists seg segs,
    split_dot (a ++ String "." b) = (seg, segs)
    /\ segs <> []
    /\ forall d, List.last segs d = last_segment b.
Proof.
  induction a as [|c a IH]; simpl.
  - unfold last_segment. destruct (split_dot b) as [seg segs].
    exists "", (seg :: segs). split; [reflexivity|]. split; [discriminate|].
    intro d. apply last_cons.
  - destruct IH as [seg [segs [E [Hne Hlast]]]]. rewrite E.
    destruct (c =? ".")%char.
    + exists "", (seg :: segs). split; [reflexivity|]. split; [discriminate|].
      intro d. rewrite last_cons. apply Hlast.
    + exists (String c seg), segs. auto.
Qed.

Lemma last_segment_after (a b : string) :
  last_segment (a ++ String "." b) = last_segment b.
Proof.
  destruct (split_dot_after a b) as [seg [segs [E [_ Hlast]]]].
  unfold last_segment at 1. rewrite E. apply Hlast.
Qed.

Lemma append_dot_truthy (a b : string) :
  truthy (Some (a ++ String "." b)) = true.
Proof. destruct a; reflexivity. Qed.

(** What [getMimeTypeFromFilename] makes of a name with an extension. *)
Lemma getMimeTypeFromFilename_extension (base ext : string) :
  has_char "." ext = false ->
  getMimeTypeFromFilename (Some (base ++ "." ++ ext))
  = if String.eqb (toLowerCase ext) "" then MimeNull
    else mime_lookup (toLowerCase ext).
Proof.
  intro H. unfold getMimeTypeFromFilename.
  change (base ++ "." ++ ext) with (base ++ String "." ext).
  rewrite append_dot_truthy. simpl negb. cbv iota.
  rewrite last_segment_after. unfold last_segment.
  rewrite (split_dot_no_dot _ H). reflexivity.
Qed.

(** X9.  [getMimeTypeFromFilename] looks at nothing but the text after
    the last dot of the name, and at that without regard to the case of
    its ASCII letters: two names whose extensions agree up to case get the
    same answer, whatever stands before the dot. *)
Theorem getMimeTypeFromFilename_by_extension (base base' ext ext' : string) :
  has_char "." ext = false -> has_char "." ext' = false ->
  toLowerCase ext = toLowerCase ext' ->
  getMimeTypeFromFilename (Some (base ++ "." ++ ext))
  = getMimeTypeFromFilename (Some (base' ++ "." ++ ext')).
Proof.
  intros H H' E.
  rewrite !getMimeTypeFromFilename_extension by assumption.
  rewrite E. reflexivity.
Qed.

Lemma getMimeTypeFromFilename_by_extension_witness :
  getMimeTypeFromFilename (Some ("IMG_0042" ++ "." ++ "HEIC"))
  = getMimeTypeFromFilename (Some ("archive.tar" ++ "." ++ "heic")).
Proof.
  apply getMimeTypeFromFilename_by_extension; reflexivity.
Defined.

(** X10.  A name that is [null], empty, or that ends with a dot has no
    type; a name without any dot is taken whole as its own extension; and
    apart from the eighteen extensions of the table the answer is [null],
    except for the two names every object inherits. *)
Theorem getMimeTypeFromFilename_edges (name : string) :
  getMimeTypeFromFilename None = MimeNull
  /\ getMimeTypeFromFilename (Some "") = MimeNull
  /\ getMimeTypeFromFilename (Some (name ++ ".")) = MimeNull
  /\ (has_char "." name = false -> name <> "" ->
      getMimeTypeFromFilename (Some name) = mime_lookup (toLowerCase name))
  /\ (forall ext,
      assoc ext mimeTypes = None ->
      ext <> "constructor" -> ext <> "__proto__" ->
      mime_lookup ext = MimeNull)
  /\ mime_lookup "constructor" = MimeInherited "constructor"
  /\ mime_lookup "__proto__" = MimeInherited "__proto__".
Proof.
  split; [reflexivity|]. split; [reflexivity|].
  split; [|split; [|split; [|split; reflexivity]]].
  - change (name ++ ".") with (name ++ "." ++ "").
    rewrite getMimeTypeFromFilename_extension; reflexivity.
  - intros H Hne. unfold getMimeTypeFromFilename.
    rewrite (@MapperFacts.truthy_present name Hne). simpl negb. cbv iota.
    unfold last_segment. rewrite (split_dot_no_dot _ H). simpl List.last.
    destruct name as [|c name]; [congruence|]. reflexivity.
  - intros ext Ha Hc Hp. unfold mime_lookup. rewrite Ha.
    apply String.eqb_neq in Hc. apply String.eqb_neq in Hp.
    rewrite Hc, Hp. reflexivity.
Qed.

Lemma getMimeTypeFromFilename_edges_witness :
  getMimeTypeFromFilename (Some "jpg") = MimeType "image/jpeg"
  /\ mime_lookup "xyz" = MimeNull.
Proof.
  destruct (getMimeTypeFromFilename_edges "jpg") as [_ [_ [_ [Hn [Hx _]]]]].
  split.
  - apply Hn; [reflexivity | discriminate].
  - apply Hx; [reflexivity | discriminate | discriminate].
Defined.

End MimeFacts.

(** ** More on timestamps *)

Module TimestampMore.

Import TimestampFacts.

Local Open Scope Q_scope.

Lemma native_of_cutoff_mono (a b : number) :
  (a <=? b)%js = true ->
  ((a / of_Z 1000 - COCOA_EPOCH_DIFF) * lit_1e9
   <=? (b / of_Z 1000 - COCOA_EPOCH_DIFF) * lit_1e9)%js = true.
Proof.
  intro H. apply mul_pos_mono; [reflexivity|].
  apply sub_const_mono. apply div_pos_mono; [reflexivity | exact H].
Qed.

(** X11.  A longer look-back never gives a later bound: [hoursAgo] and
    [daysAgo] are decreasing in the duration, infinite results included
    (not strictly: two durations one rounding apart can give one bound);
    and [daysAgo(d)] is [hoursAgo] of the product [d * 24]. *)
Theorem ago_is_monotone (now : Z) (x y : Q) :
  x <= y ->
  (hoursAgoToCocoaTimestamp now (Fin y)
   <=? hoursAgoToCocoaTimestamp now (Fin x))%js = true
  /\ (daysAgoToCocoaTimestamp now (Fin y)
      <=? daysAgoToCocoaTimestamp now (Fin x))%js = true
  /\ daysAgoToCocoaTimestamp now (Fin x)
     = hoursAgoToCocoaTimestamp now (Fin x * of_Z 24)%js.
Proof.
  intro H.
  assert (L : (Fin x <=? Fin y)%js = true) by (apply Qle_bool_iff; exact H).
  split; [|split].
  - unfold hoursAgoToCocoaTimestamp.
    apply native_of_cutoff_mono, const_sub_anti.
    repeat (apply mul_pos_mono; [reflexivity|]). exact L.
  - unfold daysAgoToCocoaTimestamp.
    apply native_of_cutoff_mono, const_sub_anti.
    repeat (apply mul_pos_mono; [reflexivity|]). exact L.
  - unfold daysAgoToCocoaTimestamp, hoursAgoToCocoaTimestamp. reflexivity.
Qed.

Lemma ago_is_monotone_witness :
  (hoursAgoToCocoaTimestamp 1700000000000 (Fin 2)
   <=? hoursAgoToCocoaTimestamp 1700000000000 (Fin 1))%js = true.
Proof.
  apply (proj1 (@ago_is_monotone 1700000000000 1 2 ltac:(discriminate))).
Defined.


(** One hour and the next double after it give the same bound. *)
Example ago_is_not_strict :
  hoursAgoToCocoaTimestamp 1700000000000 (Fin 1)
  = hoursAgoToCocoaTimestamp 1700000000000
      (Fin (4503599627370497 # 4503599627370496)).
Proof. vm_compute. reflexivity. Qed.

(** The date of a nanosecond timestamp, and how far the three roundings
    and the truncation can take it from the exact instant. *)
Lemma nanoseconds_to_date (t : Q) :
  1000000000000 < t -> t <= 1000000000000000000000 ->
  exists ms,
    cocoaTimestampToDate (Fin t) = TimeValue ms
    /\ inject_Z ms - (t * (1 # 1000000) + 978307200000) < 3 # 2
    /\ - (3 # 2) < inject_Z ms - (t * (1 # 1000000) + 978307200000)
    /\ (978307200000 < ms <= 1000978307200001)%Z.
Proof.
  intros Hlo Hhi.
  destruct (@cocoaTimestampToDate_steps_nanoseconds t)
    as [s [u [v [-> [Hs [Hu Hv]]]]]]; [lra | lra |].
  destruct (rnd_bounds_pos Hs ltac:(lra)) as [Ls [Us Ps]].
  destruct (rnd_bounds_pos Hu ltac:(lra)) as [Lu [Uu Pu]].
  destruct (rnd_bounds_pos Hv ltac:(lra)) as [Lv [Uv Pv]].
  rewrite TimeClip_within by lra.
  exists (Qtrunc v). split; [reflexivity|].
  pose proof (Qtrunc_near v) as N.
  apply Qabs_Qlt_condition in N. destruct N as [N1 N2].
  split; [lra|]. split; [lra|].
  assert (A : inject_Z 978307200000 < inject_Z (Qtrunc v)
              /\ inject_Z (Qtrunc v) < inject_Z 1000978307200002).
  { change (inject_Z 978307200000) with 978307200000.
    change (inject_Z 1000978307200002) with 1000978307200002. lra. }
  rewrite <- !Zlt_Qlt in A. lia.
Qed.

Lemma seconds_to_date (t : Q) :
  - (1000000000000) <= t -> t <= 1000000000000 ->
  exists ms,
    cocoaTimestampToDate (Fin t) = TimeValue ms
    /\ inject_Z ms - (t + 978307200) * 1000 < 3 # 2
    /\ - (3 # 2) < inject_Z ms - (t + 978307200) * 1000.
Proof.
  intros Hlo Hhi.
  destruct (@cocoaTimestampToDate_steps_seconds t)
    as [u [v [-> [Hu Hv]]]]; [lra | lra |].
  pose proof (Qtrunc_near v) as N.
  apply Qabs_Qlt_condition in N. destruct N as [N1 N2].
  destruct (Qlt_le_dec (t + 978307200) 0) as [Neg | Pos].
  - destruct (rnd_bounds_neg Hu ltac:(lra)) as [Lu [Uu Pu]].
    destruct (rnd_bounds_neg Hv ltac:(lra)) as [Lv [Uv Pv]].
    rewrite TimeClip_within by lra.
    exists (Qtrunc v). split; [reflexivity|]. split; lra.
  - destruct (rnd_bounds_pos Hu ltac:(lra)) as [Lu [Uu Pu]].
    destruct (rnd_bounds_pos Hv ltac:(lra)) as [Lv [Uv Pv]].
    rewrite TimeClip_within by lra.
    exists (Qtrunc v). split; [reflexivity|]. split; lra.
Qed.

(** X12.  How exact the date is.  For a nanosecond timestamp up to
    10^21, the date lies less than 2 ms from the exact instant
    [t / 10^6 + 978307200000]; for a timestamp in seconds of magnitude up
    to 10^12, less than 2 ms from [(t + 978307200) * 1000]; and for a
    whole number of seconds it is that instant exactly. *)
Theorem cocoaTimestampToDate_accuracy (t : Q) :
  (1000000000000 < t -> t <= 1000000000000000000000 ->
   exists ms,
     cocoaTimestampToDate (Fin t) = TimeValue ms
     /\ Qabs (inject_Z ms - (t / 1000000 + 978307200000)) < 2)
  /\ (- (1000000000000) <= t -> t <= 1000000000000 ->
      exists ms,
        cocoaTimestampToDate (Fin t) = TimeValue ms
        /\ Qabs (inject_Z ms - (t + 978307200) * 1000) < 2)
  /\ (forall s : Z,
      (Z.abs s <= 1000000000000)%Z ->
      cocoaTimestampToDate (of_Z s) = TimeValue ((s + 978307200) * 1000)).
Proof.
  split; [|split].
  - intros Hlo Hhi.
    destruct (nanoseconds_to_date Hlo Hhi) as [ms [E [U [L _]]]].
    exists ms. split; [exact E|].
    assert (Ed : t / 1000000 == t * (1 # 1000000)) by field.
    rewrite Ed. apply Qabs_Qlt_condition. lra.
  - intros Hlo Hhi.
    destruct (seconds_to_date Hlo Hhi) as [ms [E [U L]]].
    exists ms. split; [exact E|]. apply Qabs_Qlt_condition. lra.
  - intros s Hs. unfold cocoaTimestampToDate.
    replace (of_Z s >? lit_1e12)%js with false.
    2: { symmetry. apply gt_Fin_false.
         change 1000000000000 with (inject_Z 1000000000000).
         rewrite <- Zle_Qle. lia. }
    unfold COCOA_EPOCH_DIFF. rewrite add_Z, mul_Z by lia.
    apply TimeClip_Z. unfold MAX_TIME. lia.
Qed.

Lemma cocoaTimestampToDate_accuracy_witness :
  exists ms,
    cocoaTimestampToDate (Fin 721692800122999936) = TimeValue ms
    /\ Qabs (inject_Z ms - (721692800122999936 / 1000000 + 978307200000)) < 2.
Proof.
  apply (proj1 (cocoaTimestampToDate_accuracy 721692800122999936));
    [reflexivity | discriminate].
Defined.

(** X13.  Reading a native timestamp and writing the date back.  A
    nanosecond timestamp [k] up to 10^21 comes back less than 2 * 10^6
    native units (2 ms) from [k]; a timestamp in seconds between 0 and
    10^12 comes back in nanoseconds, less than 2 * 10^6 from
    [k * 10^9]. *)
Theorem native_roundtrip (k : Q) :
  (1000000000000 < k -> k <= 1000000000000000000000 ->
   exists k',
     dateToCocoaTimestamp (cocoaTimestampToDate (Fin k)) = Fin k'
     /\ Qabs (k' - k) < 2000000)
  /\ (0 <= k -> k <= 1000000000000 ->
      exists k',
        dateToCocoaTimestamp (cocoaTimestampToDate (Fin k)) = Fin k'
        /\ Qabs (k' - k * 1000000000) < 2000000).
Proof.
  split; intros Hlo Hhi.
  - destruct (nanoseconds_to_date Hlo Hhi) as [ms [-> [U [L R]]]].
    destruct (@dateToCocoaTimestamp_steps ms) as [a [b [c [-> [Ha [Hb Hc]]]]]];
      [unfold MAX_TIME; lia|].
    assert (Lx : inject_Z 978307200000 <= inject_Z ms)
      by (rewrite <- Zle_Qle; lia).
    change (inject_Z 978307200000) with 978307200000 in Lx.
    destruct (rnd_bounds_pos Ha ltac:(lra)) as [La [Ua Pa]].
    pose proof (@rnd_ge_const _ _ (978307200000 * (1 # 1000))
                  978307200 Ha ltac:(lra) ltac:(vm_compute; reflexivity))
      as Ma.
    destruct (rnd_bounds_pos Hb ltac:(lra)) as [Lb [Ub Pb]].
    destruct (rnd_bounds_pos Hc ltac:(lra)) as [Lc [Uc Pc]].
    exists c. split; [reflexivity|]. apply Qabs_Qlt_condition. lra.
  - destruct (@seconds_to_date k ltac:(lra) Hhi) as [ms [-> [U L]]].
    assert (R : (978307199998 < ms < 1000978307200002)%Z).
    { assert (A : inject_Z 978307199998 < inject_Z ms
                  /\ inject_Z ms < inject_Z 1000978307200002).
      { change (inject_Z 978307199998) with 978307199998.
        change (inject_Z 1000978307200002) with 1000978307200002. lra. }
      rewrite <- !Zlt_Qlt in A. exact A. }
    destruct (@dateToCocoaTimestamp_steps ms) as [a [b [c [-> [Ha [Hb Hc]]]]]];
      [unfold MAX_TIME; lia|].
    assert (Lx : 978307199998 < inject_Z ms)
      by (change 978307199998 with (inject_Z 978307199998);
          rewrite <- Zlt_Qlt; lia).
    destruct (rnd_bounds_pos Ha ltac:(lra)) as [La [Ua Pa]].
    exists c. split; [reflexivity|]. apply Qabs_Qlt_condition.
    destruct (Qlt_le_dec (a - 978307200) 0) as [Neg | Pos].
    + destruct (rnd_bounds_neg Hb ltac:(lra)) as [Lb [Ub Pb]].
      destruct (rnd_bounds_neg Hc ltac:(lra)) as [Lc [Uc Pc]]. lra.
    + destruct (rnd_bounds_pos Hb ltac:(lra)) as [Lb [Ub Pb]].
      destruct (rnd_bounds_pos Hc ltac:(lra)) as [Lc [Uc Pc]]. lra.
Qed.

Lemma native_roundtrip_witness :
  exists k',
    dateToCocoaTimestamp (cocoaTimestampToDate (Fin 756864000123456789))
    = Fin k'
    /\ Qabs (k' - 756864000123456789) < 2000000.
Proof.
  apply (proj1 (native_roundtrip 756864000123456789));
    [reflexivity | discriminate].
Defined.

End TimestampMore.

(** ** More on the normalizer *)

Module NormalizerMore.

Import NormalizerFacts.

Local Open Scope js_scope.

(** X14.  With a default and a maximum such that [0 < default <= max],
    [normalizeHours] and [normalizeDays] answer every argument other than
    [NaN] (absent, [null], negative, infinite, ...) with a finite value in
    the range [(0, max]], and normalizing that value again changes
    nothing. *)
Theorem normalize_duration_range (p : param) (d m : Q) :
  0 < d -> d <= m -> p <> Num NaN ->
  exists r : Q,
    normalizeHours p (Fin d) (Fin m) = Fin r
    /\ normalizeDays p (Fin d) (Fin m) = Fin r
    /\ 0 < r /\ r <= m
    /\ normalizeHours (Num (Fin r)) (Fin d) (Fin m) = Fin r
    /\ normalizeDays (Num (Fin r)) (Fin d) (Fin m) = Fin r.
Proof.
  intros Hd Hm Hp.
  assert (Keep : forall r, 0 < r -> r <= m ->
            normalizeHours (Num (Fin r)) (Fin d) (Fin m) = Fin r
            /\ normalizeDays (Num (Fin r)) (Fin d) (Fin m) = Fin r).
  { intros r H0 H1.
    destruct (@normalize_within (Fin r) (Fin d) (Fin m)) as [_ [H2 H3]];
      [apply le_Fin_false; exact H0 | apply gt_Fin_false; exact H1 | auto]. }
  assert (Dflt : exists r : Q,
            Fin d = Fin r /\ Fin d = Fin r /\ 0 < r /\ r <= m
            /\ normalizeHours (Num (Fin r)) (Fin d) (Fin m) = Fin r
            /\ normalizeDays (Num (Fin r)) (Fin d) (Fin m) = Fin r).
  { exists d. destruct (Keep d Hd Hm). auto 6. }
  assert (Max : exists r : Q,
            Fin m = Fin r /\ Fin m = Fin r /\ 0 < r /\ r <= m
            /\ normalizeHours (Num (Fin r)) (Fin d) (Fin m) = Fin r
            /\ normalizeDays (Num (Fin r)) (Fin d) (Fin m) = Fin r).
  { exists m. destruct (Keep m); [lra | lra |]. repeat split; auto; lra. }
  destruct p as [| |[| | |v]]; try exact Dflt; try congruence; try exact Max.
  destruct (Qlt_le_dec 0 v) as [Hpos | Hneg].
  - destruct (Qlt_le_dec m v) as [Hbig | Hfit].
    + destruct (@normalize_gt (Fin v) (Fin d) (Fin m)) as [_ [-> ->]];
        [apply le_Fin_false; exact Hpos | apply gt_Fin; exact Hbig
        | exact Max].
    + destruct (@normalize_within (Fin v) (Fin d) (Fin m)) as [_ [-> ->]];
        [apply le_Fin_false; exact Hpos | apply gt_Fin_false; exact Hfit |].
      exists v. destruct (Keep v Hpos Hfit). auto 6.
  - destruct (@normalize_le (Fin v) (Fin d) (Fin m)) as [_ [-> ->]];
      [apply le_Fin; exact Hneg | exact Dflt].
Qed.

Lemma normalize_duration_range_witness :
  exists r : Q,
    normalizeHours (Num NegInf) (Fin 24) (Fin 168) = Fin r
    /\ 0 < r /\ r <= 168.
Proof.
  destruct (@normalize_duration_range (Num NegInf) 24 168)
    as [r [H [_ [H0 [H1 _]]]]];
    [reflexivity | discriminate | discriminate |].
  exists r. auto.
Defined.

Lemma normalizeLimit_whole (p : param) (d m : Z) :
  (0 < d <= m)%Z -> p <> Num NaN ->
  exists n : Z,
    normalizeLimit p (of_Z d) (of_Z m) = of_Z n /\ (0 <= n <= m)%Z.
Proof.
  intros Hd Hp.
  assert (Dflt : exists n : Z, of_Z d = of_Z n /\ (0 <= n <= m)%Z)
    by (exists d; split; [reflexivity | lia]).
  assert (Max : exists n : Z, of_Z m = of_Z n /\ (0 <= n <= m)%Z)
    by (exists m; split; [reflexivity | lia]).
  destruct p as [| |[| | |v]]; try exact Dflt; try congruence;
    try exact Max.
  destruct (Qlt_le_dec 0 v) as [Hpos | Hneg].
  - destruct (Qlt_le_dec (inject_Z m) v) as [Hbig | Hfit].
    + destruct (@normalize_gt (Fin v) (of_Z d) (of_Z m)) as [-> _];
        [apply le_Fin_false; exact Hpos | apply gt_Fin; exact Hbig
        | exact Max].
    + destruct (@normalize_within (Fin v) (of_Z d) (of_Z m)) as [-> _];
        [apply le_Fin_false; exact Hpos | apply gt_Fin_false; exact Hfit |].
      exists (Qfloor v). split; [reflexivity|].
      split.
      * change 0%Z with (Qfloor 0). apply Qfloor_resp_le. lra.
      * rewrite <- (Qfloor_Z m). apply Qfloor_resp_le. exact Hfit.
  - destruct (@normalize_le (Fin v) (of_Z d) (of_Z m)) as [-> _];
      [apply le_Fin; exact Hneg | exact Dflt].
Qed.

(** X15.  With whole numbers [0 < default <= max], [normalizeLimit]
    answers every argument other than [NaN] with a whole number between 0
    and [max].  The answer 0 does occur: a positive limit below 1 is
    floored to 0 rather than replaced by the default. *)
Theorem normalizeLimit_range (p : param) (d m : Z) :
  (0 < d <= m)%Z -> p <> Num NaN ->
  (exists n : Z,
      normalizeLimit p (of_Z d) (of_Z m) = of_Z n /\ (0 <= n <= m)%Z)
  /\ (forall v : Q, 0 < v -> v < 1 ->
      normalizeLimit (Num (Fin v)) (of_Z d) (of_Z m) = of_Z 0).
Proof.
  intros Hd Hp.
  assert (Hm1 : 1 <= inject_Z m)
    by (change 1%Q with (inject_Z 1); rewrite <- Zle_Qle; lia).
  split; [apply normalizeLimit_whole; assumption|].
  intros v H0 H1.
  destruct (@normalize_within (Fin v) (of_Z d) (of_Z m)) as [-> _];
    [apply le_Fin_false; exact H0 | apply gt_Fin_false; lra |].
  simpl. f_equal. f_equal.
  pose proof (Qfloor_le v) as L. pose proof (Qlt_floor v) as U.
  rewrite inject_Z_plus in U. change (inject_Z 1) with 1%Q in U.
  assert (A : inject_Z (Qfloor v) < inject_Z 1)
    by (change (inject_Z 1) with 1%Q; lra).
  assert (B : inject_Z (-1) < inject_Z (Qfloor v))
    by (change (inject_Z (-1)) with (-1 # 1); lra).
  rewrite <- Zlt_Qlt in A, B. lia.
Qed.

Lemma normalizeLimit_range_witness :
  (exists n : Z,
      normalizeLimit (Num PosInf) (of_Z 50) (of_Z 500) = of_Z n
      /\ (0 <= n <= 500)%Z)
  /\ normalizeLimit (Num (Fin 0.5)) (of_Z 50) (of_Z 500) = of_Z 0.
Proof.
  destruct (@normalizeLimit_range (Num PosInf) 50 500) as [H _];
    [split; [reflexivity | discriminate] | discriminate |].
  destruct (@normalizeLimit_range (Num (Fin 0.5)) 50 500) as [_ H'];
    [split; [reflexivity | discriminate] | discriminate |].
  split; [exact H | apply H'; reflexivity].
Defined.

End NormalizerMore.

(** ** What the substring patterns find *)

Module LikeMore.

Import LikeFacts.

Local Open Scope string_scope.

Lemma eq_nocase_refl (c : ascii) : eq_nocase c c = true.
Proof. unfold eq_nocase. apply Ascii.eqb_refl. Qed.

(** Every text matches itself read as a pattern. *)
Lemma like_refl (s : string) : like s s = true.
Proof.
  induction s as [|c s IH]; [reflexivity|].
  destruct (ascii_dec c "%") as [->|Hc].
  - rewrite like_percent. apply orb_true_iff. right.
    apply like_leading_percent. exists "", s. auto.
  - rewrite (like_char _ _ Hc), eq_nocase_refl, orb_true_r, IH. reflexivity.
Qed.

(** X16.  A text that contains the caller's string as it is always
    matches the pattern [%string%], whatever characters the string is made
    of: leaving [%] and [_] unescaped can add matches, never lose one. *)
Theorem literal_occurrence_matches (s pre post : string) :
  like (substring_pattern s) (pre ++ s ++ post) = true.
Proof.
  apply like_substring_pattern. exists pre, s, post.
  split; [reflexivity | apply like_refl].
Qed.

(** Without wildcards a pattern matches the texts that equal it up to
    case. *)
Lemma like_plain (s : string) :
  has_char "%" s = false -> has_char "_" s = false ->
  forall t, like s t = same_ignoring_case s t.
Proof.
  induction s as [|c s IH]; intros Hp Hu t.
  - destruct t; reflexivity.
  - simpl in Hp, Hu.
    apply orb_false_iff in Hp. destruct Hp as [Hc Hp].
    apply orb_false_iff in Hu. destruct Hu as [Hc' Hu].
    assert (Hne : c <> "%"%char) by (apply Ascii.eqb_neq; exact Hc).
    rewrite (like_char _ _ Hne). destruct t as [|d t]; [reflexivity|].
    simpl. rewrite Hc', (IH Hp Hu). reflexivity.
Qed.

(** X17.  When the caller's string holds neither [%] nor [_], the
    pattern [%string%] matches exactly the texts that contain the string
    up to the case of ASCII letters. *)
Theorem plain_substring_search (s t : string) :
  has_char "%" s = false -> has_char "_" s = false ->
  (like (substring_pattern s) t = true
   <-> exists pre mid post,
         t = pre ++ mid ++ post /\ same_ignoring_case s mid = true).
Proof.
  intros Hp Hu. rewrite like_substring_pattern.
  split; intros [pre [mid [post [E H]]]]; exists pre, mid, post;
    (split; [exact E|]);
    [rewrite <- (like_plain _ Hp Hu) | rewrite (like_plain _ Hp Hu)];
    exact H.
Qed.

Lemma plain_substring_search_witness :
  like (substring_pattern "Lunch") "let's do LUNCH tomorrow" = true.
Proof.
  apply (proj2 (@plain_substring_search "Lunch" "let's do LUNCH tomorrow"
                  eq_refl eq_refl)).
  exists "let's do ", "LUNCH", " tomorrow". split; reflexivity.
Defined.

End LikeMore.

(** ** What the message queries return *)

Module QueryMore.

Import OrderFacts.

Local Open Scope string_scope.

Lemma left_join_left {A B : Type} (on : A -> B -> bool) (l : list A)
  (r : list B) (a : A) (ob : option B) :
  In (a, ob) (left_join on l r) -> In a l.
Proof.
  unfold left_join. intro H. apply in_flat_map in H.
  destruct H as [x [Hx H]].
  destruct (filter (on x) r) as [|b bs].
  - destruct H as [H | []]. inversion H; subst. exact Hx.
  - apply in_map_iff in H. destruct H as [y [H _]].
    inversion H; subst. exact Hx.
Qed.

Lemma left_join_keeps {A B : Type} (on : A -> B -> bool) (l : list A)
  (r : list B) (a : A) :
  In a l -> exists ob, In (a, ob) (left_join on l r).
Proof.
  intro H. unfold left_join.
  destruct (filter (on a) r) as [|b bs] eqn:E.
  - exists None. apply in_flat_map. exists a. split; [exact H|].
    rewrite E. left. reflexivity.
  - exists (Some b). apply in_flat_map. exists a. split; [exact H|].
    rewrite E. left. reflexivity.
Qed.

(** Every joined row carries a message of the store, and every message
    of the store is carried by some joined row. *)
Lemma message_handle_chat_sound (db : Store) (r : joined) :
  In r (message_handle_chat db) -> In (j_m r) (tbl_message db).
Proof.
  unfold message_handle_chat. intro H. apply in_map_iff in H.
  destruct H as [[[[m oh] oj] oc] [<- H]]. simpl.
  apply left_join_left in H. apply left_join_left in H.
  apply left_join_left in H. exact H.
Qed.

Lemma message_handle_chat_complete (db : Store) (m : message_t) :
  In m (tbl_message db) ->
  exists r, In r (message_handle_chat db) /\ j_m r = m.
Proof.
  intro H. unfold message_handle_chat.
  destruct (left_join_keeps
              (fun m h => (m_handle_id m =? h_rowid h)%Z)
              (tbl_message db) (tbl_handle db) m H) as [oh H1].
  destruct (left_join_keeps
              (fun (mh : message_t * option handle_t) j =>
                 (m_rowid (fst mh) =? cmj_message_id j)%Z)
              _ (tbl_chat_message_join db) _ H1) as [oj H2].
  destruct (left_join_keeps
              (fun (r : (message_t * option handle_t)
                        * option chat_message_join_t) c =>
                 match snd r with
                 | Some j => (cmj_chat_id j =? c_rowid c)%Z
                 | None => false
                 end)
              _ (tbl_chat db) _ H2) as [oc H3].
  eexists. split; [apply in_map_iff; eexists; split; [reflexivity | exact H3]|].
  reflexivity.
Qed.

Lemma message_handle_only_sound (db : Store) (r : joined) :
  In r (message_handle_only db) ->
  In (j_m r) (tbl_message db)
  /\ forall h, j_h r = Some h -> In h (tbl_handle db).
Proof.
  unfold message_handle_only, message_handle. intro H.
  apply in_map_iff in H. destruct H as [[m oh] [<- H]]. simpl.
  split; [apply left_join_left in H; exact H|].
  intros h ->. unfold left_join in H. apply in_flat_map in H.
  destruct H as [x [_ H]].
  destruct (filter (fun h0 => (m_handle_id x =? h_rowid h0)%Z) (tbl_handle db))
    as [|b bs] eqn:E.
  - destruct H as [H | []]. discriminate.
  - apply in_map_iff in H. destruct H as [y [Hy Hin]].
    inversion Hy; subst.
    assert (Hf : In h (filter (fun h0 => (m_handle_id m =? h_rowid h0)%Z)
                         (tbl_handle db))) by (rewrite E; exact Hin).
    apply filter_In in Hf. apply Hf.
Qed.

(** The rows of a message query are rows of its source that pass its
    [WHERE]. *)
Lemma query_messages_sound (source : list joined) (keep : joined -> bool)
  (dir : joined -> joined -> bool) (limit : number)
  (rows : list RawMessageRow.t) (row : RawMessageRow.t) :
  query_messages source keep dir limit = Some rows ->
  In row rows ->
  exists r, In r source /\ keep r = true /\ row = select_message r.
Proof.
  unfold query_messages.
  destruct (limit_rows limit (order_by dir (filter keep source)))
    as [js|] eqn:E; [|discriminate].
  simpl. intro H. inversion H; subst. intro Hin.
  apply in_map_iff in Hin. destruct Hin as [r [<- Hr]].
  apply (limit_rows_incl _ _ E) in Hr.
  apply (Permutation_in _ (Permutation_sym (order_by_perm dir _))) in Hr.
  apply filter_In in Hr. destruct Hr as [Hs Hk].
  exists r. auto.
Qed.

(** When a message query returns fewer rows than its limit, it returns
    every row of its source that passes its [WHERE]. *)
Lemma query_messages_complete (source : list joined) (keep : joined -> bool)
  (dir : joined -> joined -> bool) (limit : number) (n : Z)
  (rows : list RawMessageRow.t) (r : joined) :
  query_messages source keep dir limit = Some rows ->
  limit ≡ of_Z n ->
  (Z.of_nat (List.length rows) < n)%Z ->
  In r source -> keep r = true ->
  In (select_message r) rows.
Proof.
  unfold query_messages. intros H Hn Hlen Hs Hk.
  destruct (limit_rows limit (order_by dir (filter keep source)))
    as [js|] eqn:El; [|discriminate].
  destruct (limit_rows_inv _ _ El) as [z [Hz [_ Ejs]]].
  assert (z = n).
  { apply same_of_Z. apply same_trans with limit; [apply same_sym|];
      assumption. }
  subst z js. clear El.
  simpl in H. inversion H; subst. clear H.
  rewrite length_map in Hlen.
  apply in_map.
  assert (Hin : In r (order_by dir (filter keep source))).
  { apply (Permutation_in _ (order_by_perm dir _)).
    apply filter_In. auto. }
  destruct (n <? 0)%Z eqn:E; [exact Hin|].
  apply Z.ltb_ge in E.
  rewrite firstn_all2; [exact Hin|].
  destruct (Nat.le_gt_cases
              (List.length (order_by dir (filter keep source)))
              (Z.to_nat n)) as [Hle | Hgt]; [exact Hle|].
  rewrite firstn_length_le in Hlen by lia. lia.
Qed.

Section Returned.

Variable formatDate : Date -> string.
Variable db : Store.
Variable now : Z.

(** X18.  Every entity returned by [getRecentMessages],
    [getConversation] or [searchMessages] stands for a message of the
    store, under the store's own row identifier, and that message is newer
    than the cutoff of the look-back.  Moreover every message returned by
    [searchMessages] has a text, passed on as it is, that matches the
    pattern bound for the query. *)
Theorem returned_messages_are_stored :
  (forall hours contact limit out e,
      getRecentMessages formatDate db now hours contact limit = Some out ->
      In e out ->
      exists m, In m (tbl_message db)
        /\ Message.id e = m_rowid m
        /\ (of_Z (m_date m)
            >? hoursAgoToCocoaTimestamp now (default_arg hours 24))%js = true)
  /\ (forall contact days limit out e,
      getConversation formatDate db now contact days limit = Some out ->
      In e out ->
      exists m, In m (tbl_message db)
        /\ ConversationMessage.id e = m_rowid m
        /\ (of_Z (m_date m)
            >? daysAgoToCocoaTimestamp now (default_arg days 7))%js = true)
  /\ (forall query days limit out e,
      searchMessages formatDate db now query days limit = Some out ->
      In e out ->
      exists m, In m (tbl_message db)
        /\ Message.id e = m_rowid m
        /\ (of_Z (m_date m)
            >? daysAgoToCocoaTimestamp now (default_arg days 30))%js = true
        /\ m_text m = Some (Message.text e)
        /\ like (substring_pattern query) (Message.text e) = true).
Proof.
  split; [|split].
  - intros hours contact limit out e. unfold getRecentMessages.
    destruct (all_recent _ _) as [rows|] eqn:E; [|discriminate].
    simpl. intro H. inversion H; subst. intro Hin.
    apply in_map_iff in Hin. destruct Hin as [row [<- Hrow]].
    unfold getRecentMessages_statement in E.
    assert (Hr : exists r, In r (message_handle_chat db)
                   /\ date_after
                        (hoursAgoToCocoaTimestamp now (default_arg hours 24))
                        r = true
                   /\ row = select_message r).
    { destruct contact as [c|]; [destruct (truthy (Some c))|]; simpl in E;
        destruct (@query_messages_sound _ _ _ _ _ _ E Hrow) as [r [Hs [Hk ->]]];
        exists r; (split; [exact Hs|]); (split; [|reflexivity]);
        try (apply andb_true_iff in Hk; destruct Hk as [Hk _]); exact Hk. }
    destruct Hr as [r [Hs [Hk ->]]].
    exists (j_m r). split; [apply message_handle_chat_sound; exact Hs|].
    split; [reflexivity | exact Hk].
  - intros contact days limit out e. unfold getConversation.
    destruct (all_conversation _ _) as [rows|] eqn:E; [|discriminate].
    simpl. intro H. inversion H; subst. intro Hin.
    apply in_map_iff in Hin. destruct Hin as [row [<- Hrow]].
    simpl in E.
    destruct (@query_messages_sound _ _ _ _ _ _ E Hrow) as [r [Hs [Hk ->]]].
    apply andb_true_iff in Hk. destruct Hk as [Hk _].
    exists (j_m r).
    split; [apply (message_handle_only_sound _ _ Hs)|].
    split; [reflexivity | exact Hk].
  - intros query days limit out e. unfold searchMessages.
    destruct (all_search _ _) as [rows|] eqn:E; [|discriminate].
    simpl. intro H. inversion H; subst. intro Hin.
    apply in_map_iff in Hin. destruct Hin as [row [<- Hrow]].
    simpl in E.
    destruct (@query_messages_sound _ _ _ _ _ _ E Hrow) as [r [Hs [Hk ->]]].
    apply andb_true_iff in Hk. destruct Hk as [Hk Ht].
    exists (j_m r). split; [apply message_handle_chat_sound; exact Hs|].
    split; [reflexivity|]. split; [exact Hk|].
    unfold text_like, like_opt in Ht. simpl.
    destruct (m_text (j_m r)) as [txt|]; [|discriminate].
    assert (Hor : or_else (Some txt) "" = txt).
    { simpl. destruct (String.eqb txt "") eqn:Ee; [|reflexivity].
      apply String.eqb_eq in Ee. auto. }
    rewrite Hor. auto.
Qed.

(** X19.  When [searchMessages] returns fewer messages than its limit,
    nothing was left out: every message of the store that is newer than
    the cutoff and whose text matches the pattern is among them.  The
    same holds for [getRecentMessages] without a contact and the messages
    newer than its cutoff. *)
Theorem short_results_are_complete (limit : option number) (n : Z) :
  (forall query days out m txt,
      default_arg limit 50 ≡ of_Z n ->
      searchMessages formatDate db now query days limit = Some out ->
      (Z.of_nat (List.length out) < n)%Z ->
      In m (tbl_message db) ->
      (of_Z (m_date m)
       >? daysAgoToCocoaTimestamp now (default_arg days 30))%js = true ->
      m_text m = Some txt ->
      like (substring_pattern query) txt = true ->
      exists e, In e out /\ Message.id e = m_rowid m)
  /\ (forall hours out m,
      default_arg limit 50 ≡ of_Z n ->
      getRecentMessages formatDate db now hours None limit = Some out ->
      (Z.of_nat (List.length out) < n)%Z ->
      In m (tbl_message db) ->
      (of_Z (m_date m)
       >? hoursAgoToCocoaTimestamp now (default_arg hours 24))%js = true ->
      exists e, In e out /\ Message.id e = m_rowid m).
Proof.
  split.
  - intros query days out m txt Hn. unfold searchMessages.
    destruct (all_search _ _) as [rows|] eqn:E; [|discriminate].
    simpl. intro H. inversion H; subst. rewrite length_map.
    intros Hlen Hm Hd Ht Hl. simpl in E.
    destruct (message_handle_chat_complete db m Hm) as [r [Hr Hj]].
    eexists. split.
    + apply in_map.
      apply (@query_messages_complete _ _ _ _ n rows r E Hn Hlen Hr).
      apply andb_true_iff. unfold date_after, text_like, like_opt.
      rewrite Hj, Ht. auto.
    + simpl. rewrite Hj. reflexivity.
  - intros hours out m Hn. unfold getRecentMessages.
    destruct (all_recent _ _) as [rows|] eqn:E; [|discriminate].
    simpl. intro H. inversion H; subst. rewrite length_map.
    intros Hlen Hm Hd. simpl in E.
    destruct (message_handle_chat_complete db m Hm) as [r [Hr Hj]].
    eexists. split.
    + apply in_map.
      apply (@query_messages_complete _ _ _ _ n rows r E Hn Hlen Hr).
      unfold date_after. rewrite Hj. exact Hd.
    + simpl. rewrite Hj. reflexivity.
Qed.

End Returned.

Lemma returned_messages_are_stored_witness :
  exists out e m,
    searchMessages no_format sample_store sample_now "a_c" None None
    = Some out
    /\ In e out /\ In m (tbl_message sample_store)
    /\ Message.id e = m_rowid m
    /\ like (substring_pattern "a_c") (Message.text e) = true.
Proof.
  destruct (searchMessages no_format sample_store sample_now "a_c" None None)
    as [[|e out]|] eqn:E;
    [vm_compute in E; discriminate | | vm_compute in E; discriminate].
  destruct (proj2 (proj2 (returned_messages_are_stored no_format sample_store
                            sample_now))
              "a_c" None None (e :: out) e E (or_introl eq_refl))
    as [m [Hm [Hid [_ [_ Hl]]]]].
  exists (e :: out), e, m. split; [reflexivity|].
  split; [left; reflexivity|]. auto.
Defined.

Lemma short_results_are_complete_witness :
  exists out e,
    getRecentMessages no_format sample_store sample_now None None None
    = Some out
    /\ In e out /\ Message.id e = 2%Z.
Proof.
  destruct (getRecentMessages no_format sample_store sample_now None None None)
    as [out|] eqn:E; [|vm_compute in E; discriminate].
  assert (Hlen : (Z.of_nat (List.length out) < 50)%Z).
  { vm_compute in E. inversion E; subst. reflexivity. }
  destruct (proj2 (short_results_are_complete no_format sample_store
                     sample_now None 50)
              None out (mk_message 2 "abc" 10 1)
              ltac:(reflexivity) E Hlen
              ltac:(right; left; reflexivity) ltac:(reflexivity))
    as [e [He Hid]].
  exists out, e. split; [reflexivity|]. split; [exact He | exact Hid].
Defined.

End QueryMore.

(** ** The fallbacks on the rows the queries return *)

Module MapperResults.

Import MapperFacts.

Local Open Scope string_scope.



Section OnResults.

Variable formatDate : Date -> string.
Variable db : Store.
Variable now : Z.


End OnResults.



End MapperResults.

(** ** Finding a contact's handle *)

Module ContactFacts.

Import LikeFacts.

Local Open Scope string_scope.

(** X20.  The contact filter, with the three values the operations bind
    for a contact string, accepts a handle that contains the string as
    typed, a handle that equals the normalized form, and a handle that
    contains the normalized form.  So however a ten-digit number is typed,
    with or without a leading [1], the handle stored as [+1] and the ten
    digits is found. *)
Theorem contact_filter_accepts (contact : string) (r : joined) (h : handle_t) :
  j_h r = Some h ->
  let accepted :=
    contact_match (substring_pattern contact) (formatPhoneNumber contact)
      (substring_pattern (formatPhoneNumber contact)) r = true in
  (forall pre post, h_id h = pre ++ contact ++ post -> accepted)
  /\ (forall pre post,
      h_id h = pre ++ formatPhoneNumber contact ++ post -> accepted)
  /\ (forall d,
      all_digits d = true -> String.length d = 10%nat ->
      keep_chars digit_or_plus contact = d
      \/ keep_chars digit_or_plus contact = "1" ++ d ->
      h_id h = "+1" ++ d -> accepted).
Proof.
  intros Hh accepted. subst accepted. unfold contact_match. rewrite Hh.
  split; [|split].
  - intros pre post ->.
    replace (like (substring_pattern contact) (pre ++ contact ++ post))
      with true; [reflexivity|].
    symmetry. apply like_substring_pattern. exists pre, contact, post.
    split; [reflexivity | apply LikeMore.like_refl].
  - intros pre post ->.
    replace (like (substring_pattern (formatPhoneNumber contact))
               (pre ++ formatPhoneNumber contact ++ post)) with true;
      [apply orb_true_r|].
    symmetry. apply like_substring_pattern.
    exists pre, (formatPhoneNumber contact), post.
    split; [reflexivity | apply LikeMore.like_refl].
  - intros d Hd Hl Hc ->.
    rewrite (PhoneFacts.format_ten_digits contact Hd Hl Hc).
    rewrite String.eqb_refl. rewrite orb_true_r. reflexivity.
Qed.

Lemma contact_filter_accepts_witness :
  contact_match (substring_pattern "(555) 123-4567")
    (formatPhoneNumber "(555) 123-4567")
    (substring_pattern (formatPhoneNumber "(555) 123-4567"))
    {| j_m := mk_message 1 "hi" 30 1;
       j_h := Some {| h_rowid := 1; h_id := "+15551234567" |};
       j_c := None |} = true.
Proof.
  apply (proj2 (proj2
           (@contact_filter_accepts "(555) 123-4567"
              {| j_m := mk_message 1 "hi" 30 1;
                 j_h := Some {| h_rowid := 1; h_id := "+15551234567" |};
                 j_c := None |}
              {| h_rowid := 1; h_id := "+15551234567" |} eq_refl))
         "5551234567"); try reflexivity.
  left. reflexivity.
Defined.

End ContactFacts.

(** ** The tools and their limits *)

Module HandlerFacts.

Import OrderFacts.

Local Open Scope string_scope.

(** The access check always returns, and a refusal carries a text. *)
Lemma checkDatabaseAccess_returns (path : string) (h : Host) :
  exists r,
    fst (checkDatabaseAccess path h) = Normal r
    /\ (accessible r = false -> exists text, error r = Some text).
Proof.
  unfold checkDatabaseAccess, try_catch, bind, ret, existsSync, accessSync,
    openDatabase, closeDatabase, of_outcome.
  destruct (host_exists h path); simpl;
    [|eexists; split; [reflexivity | intros _; eexists; reflexivity]].
  destruct (host_access h path); simpl;
    [eexists; split; [reflexivity | intros _; eexists; reflexivity]|].
  destruct (host_open h path); simpl;
    [eexists; split; [reflexivity | intros _; eexists; reflexivity]|].
  destruct (host_close h path); simpl;
    [eexists; split; [reflexivity | intros _; eexists; reflexivity]|].
  eexists. split; [reflexivity | discriminate].
Qed.

(** With a whole-number limit the message operations and [listChats]
    return, within the limit when it is not negative. *)
Lemma getRecentMessages_returns fd db now hours contact (n : Z) :
  (0 <= n < 9223372036854775808)%Z ->
  exists out,
    getRecentMessages fd db now hours contact (Some (of_Z n)) = Some out
    /\ (Z.of_nat (List.length out) <= n)%Z.
Proof.
  intro Hn. unfold getRecentMessages, getRecentMessages_statement.
  assert (Hq : forall keep,
             exists rows,
               query_messages (message_handle_chat db) keep date_desc
                 (of_Z n) = Some rows
               /\ StronglySorted newest_first rows
               /\ ((0 <= n)%Z -> (Z.of_nat (List.length rows) <= n)%Z)).
  { intro keep. apply QueryFacts.query_messages_ordered;
      [apply QueryFacts.date_desc_total | apply QueryFacts.date_desc_trans
      | apply QueryFacts.desc_newest_first | apply same_refl | lia]. }
  destruct contact as [c|]; [destruct (truthy (Some c))|]; simpl;
    match goal with
    | |- context [query_messages _ ?k _ _] =>
        destruct (Hq k) as [rows [E [_ Hb]]]
    end;
    rewrite E; simpl; eexists; (split; [reflexivity|]);
    rewrite length_map; apply Hb; lia.
Qed.

Lemma getConversation_returns fd db now contact days (n : Z) :
  (0 <= n < 9223372036854775808)%Z ->
  exists out,
    getConversation fd db now contact days (Some (of_Z n)) = Some out
    /\ (Z.of_nat (List.length out) <= n)%Z.
Proof.
  intro Hn. unfold getConversation. simpl.
  match goal with
  | |- context [query_messages ?s ?k ?d ?l] =>
      pose proof (@QueryFacts.query_messages_ordered oldest_first s k d l n
                    QueryFacts.date_asc_total QueryFacts.date_asc_trans
                    QueryFacts.asc_oldest_first (same_refl _)
                    ltac:(lia)) as Hq
  end.
  destruct Hq as [rows [E [_ Hb]]].
  rewrite E. simpl. eexists. split; [reflexivity|].
  rewrite length_map. apply Hb. lia.
Qed.

Lemma searchMessages_returns fd db now query days (n : Z) :
  (0 <= n < 9223372036854775808)%Z ->
  exists out,
    searchMessages fd db now query days (Some (of_Z n)) = Some out
    /\ (Z.of_nat (List.length out) <= n)%Z.
Proof.
  intro Hn. unfold searchMessages. simpl.
  match goal with
  | |- context [query_messages ?s ?k ?d ?l] =>
      pose proof (@QueryFacts.query_messages_ordered newest_first s k d l n
                    QueryFacts.date_desc_total QueryFacts.date_desc_trans
                    QueryFacts.desc_newest_first (same_refl _)
                    ltac:(lia)) as Hq
  end.
  destruct Hq as [rows [E [_ Hb]]].
  rewrite E. simpl. eexists. split; [reflexivity|].
  rewrite length_map. apply Hb. lia.
Qed.

Lemma listChats_returns fd db includeGroupChats (n : Z) :
  (0 <= n < 9223372036854775808)%Z ->
  exists out,
    listChats fd db (Some (of_Z n)) includeGroupChats = Some out
    /\ (Z.of_nat (List.length out) <= n)%Z.
Proof.
  intro Hn.
  unfold listChats, listChats_statement, all_chats, default_arg.
  cbv beta iota zeta delta [params].
  match goal with
  | |- context [limit_rows _ ?l] =>
      pose proof (@limit_rows_whole _ (of_Z n) l n (same_refl _)
                    ltac:(lia)) as E
  end.
  rewrite E. simpl. eexists. split; [reflexivity|].
  rewrite length_map.
  eapply limit_rows_bound; [exact E | apply same_refl | lia].
Qed.

(** A limit that is not a number makes every query throw. *)
Lemma limit_NaN_refused {A : Type} (l : list A) : limit_rows NaN l = None.
Proof. reflexivity. Qed.

Lemma normalizeLimit_NaN (d m : number) : normalizeLimit (Num NaN) d m = NaN.
Proof. reflexivity. Qed.

Section Tools.

Variable formatDate : Date -> string.
Variable number_to_string : number -> string.
Variable string_to_number : string -> number.
Variable path : string.
Variable host : Host.
Variable db : Store.
Variable now : Z.

Lemma with_database_within {A : Type} (bound n : Z) (query : option (list A)) :
  (n <= bound)%Z ->
  (exists out, query = Some out /\ (Z.of_nat (List.length out) <= n)%Z) ->
  within bound (with_database path host query).
Proof.
  intros Hb [out [-> Hlen]]. unfold with_database.
  destruct (checkDatabaseAccess_returns path host) as [r [-> Herr]].
  destruct (accessible r); simpl; [lia|].
  destruct (Herr eq_refl) as [text ->]. exact I.
Qed.

Lemma with_database_throws {A : Type} :
  fst (checkDatabaseAccess path host)
  = Normal {| accessible := true; error := None |} ->
  with_database path host (@None A) = ToolQueryThrow.
Proof. intro H. unfold with_database. rewrite H. reflexivity. Qed.

(** X21.  The arguments of a tool are untyped JSON.  Whatever is passed
    as limit, provided it is absent, [null], or reads as a number other
    than [NaN], each query tool either reports that the database cannot be
    opened, with a text, or answers with at most its maximum of entries:
    500 recent messages, 1000 messages of a conversation, 200 search
    results, 100 chats.  A conversation or a search without its required
    string is refused before anything else is done.  A limit that reads
    as [NaN] (a text that is not a number, say) is passed on as [NaN], and
    on a database that can be opened the query throws. *)
Theorem tools_respect_their_limits (limit : json) :
  (as_param string_to_number limit <> Num NaN ->
   (forall hours contact,
       within 500
         (tool_get_recent_messages formatDate number_to_string
            string_to_number path host db now hours contact limit))
   /\ (forall contact days,
       if String.eqb (string_or_empty number_to_string contact) "" then
         tool_get_conversation formatDate number_to_string string_to_number
           path host db now contact days limit
         = ToolThrow (ErrorObject "Contact is required")
       else
         within 1000
           (tool_get_conversation formatDate number_to_string
              string_to_number path host db now contact days limit))
   /\ (forall query days,
       if String.eqb (string_or_empty number_to_string query) "" then
         tool_search_messages formatDate number_to_string string_to_number
           path host db now query days limit
         = ToolThrow (ErrorObject "Search query is required")
       else
         within 200
           (tool_search_messages formatDate number_to_string
              string_to_number path host db now query days limit))
   /\ (forall includeGroupChats,
       within 100
         (tool_list_chats formatDate string_to_number path host db
            limit includeGroupChats)))
  /\ (as_param string_to_number limit = Num NaN ->
      fst (checkDatabaseAccess path host)
      = Normal {| accessible := true; error := None |} ->
      (forall hours contact,
          tool_get_recent_messages formatDate number_to_string
            string_to_number path host db now hours contact limit
          = ToolQueryThrow)
      /\ (forall includeGroupChats,
          tool_list_chats formatDate string_to_number path host db
            limit includeGroupChats
          = ToolQueryThrow)).
Proof.
  split.
  - intro Hp. split; [|split; [|split]].
    + intros hours contact. unfold tool_get_recent_messages.
      destruct (@NormalizerMore.normalizeLimit_whole
                  (as_param string_to_number limit) 50 500)
        as [n [-> Hn]]; [lia | exact Hp |].
      apply with_database_within with (n := n); [lia|].
      apply getRecentMessages_returns. lia.
    + intros contact days. unfold tool_get_conversation.
      destruct (String.eqb (string_or_empty number_to_string contact) "");
        [reflexivity|].
      destruct (@NormalizerMore.normalizeLimit_whole
                  (as_param string_to_number limit) 100 1000)
        as [n [-> Hn]]; [lia | exact Hp |].
      apply with_database_within with (n := n); [lia|].
      apply getConversation_returns. lia.
    + intros query days. unfold tool_search_messages.
      destruct (String.eqb (string_or_empty number_to_string query) "");
        [reflexivity|].
      destruct (@NormalizerMore.normalizeLimit_whole
                  (as_param string_to_number limit) 50 200)
        as [n [-> Hn]]; [lia | exact Hp |].
      apply with_database_within with (n := n); [lia|].
      apply searchMessages_returns. lia.
    + intros includeGroupChats. unfold tool_list_chats.
      destruct (@NormalizerMore.normalizeLimit_whole
                  (as_param string_to_number limit) 30 100)
        as [n [-> Hn]]; [lia | exact Hp |].
      apply with_database_within with (n := n); [lia|].
      apply listChats_returns. lia.
  - intros Hp Hok. split.
    + intros hours contact. unfold tool_get_recent_messages.
      rewrite Hp, normalizeLimit_NaN.
      replace (getRecentMessages formatDate db now _ _ (Some NaN))
        with (@None (list Message.t)); [apply with_database_throws, Hok|].
      unfold getRecentMessages, getRecentMessages_statement.
      destruct (ToBoolean contact);
        [destruct (truthy (Some (ToString number_to_string contact)))|];
        reflexivity.
    + intros includeGroupChats. unfold tool_list_chats.
      rewrite Hp, normalizeLimit_NaN.
      replace (listChats formatDate db (Some NaN) _)
        with (@None (list Chat.t)); [apply with_database_throws, Hok|].
      reflexivity.
Qed.

End Tools.

Lemma tools_respect_their_limits_witness :
  within 500
    (tool_get_recent_messages no_format sample_text sample_number
       "/Users/me/Library/Messages/chat.db" readable_host sample_store
       sample_now JUndefined JUndefined (JString "2"))
  /\ option_map (map Message.id)
       (match
          tool_get_recent_messages no_format sample_text sample_number
            "/Users/me/Library/Messages/chat.db" readable_host sample_store
            sample_now JUndefined JUndefined (JString "2")
        with
        | ToolContent payload => Some payload
        | _ => None
        end) = Some [1; 3]%Z
  /\ tool_get_recent_messages no_format sample_text sample_number
       "/Users/me/Library/Messages/chat.db" readable_host sample_store
       sample_now JUndefined JUndefined (JString "ten")
     = ToolQueryThrow.
Proof.
  destruct (@tools_respect_their_limits no_format sample_text sample_number
              "/Users/me/Library/Messages/chat.db" readable_host
              sample_store sample_now (JString "2")) as [Hin _].
  destruct (Hin ltac:(discriminate)) as [Hr _].
  destruct (@tools_respect_their_limits no_format sample_text sample_number
              "/Users/me/Library/Messages/chat.db" readable_host
              sample_store sample_now (JString "ten")) as [_ Hout].
  split; [apply Hr|]. split; [vm_compute; reflexivity|].
  apply (Hout eq_refl eq_refl).
Defined.

End HandlerFacts.

(** ** Finding a chat *)

Module FindChatFacts.

Import OrderFacts.

Local Open Scope string_scope.

Lemma null_first_le_refl (a : option Z) : null_first_le a a = true.
Proof. destruct a; simpl; [apply Z.leb_refl | reflexivity]. Qed.

Lemma sorted_head {A : Type} (R : A -> A -> Prop) (x : A) (l : list A) :
  (forall a, R a a) ->
  StronglySorted R (x :: l) -> forall y, In y (x :: l) -> R x y.
Proof.
  intros Hrefl Hs y [<- | Hy]; [apply Hrefl|].
  inversion Hs; subst. rewrite Forall_forall in *. auto.
Qed.

Lemma hd_error_firstn_1 {A : Type} (l : list A) :
  List.hd_error (firstn 1 l) = List.hd_error l.
Proof. destruct l; reflexivity. Qed.

Section Find.

Variable formatDate : Date -> string.
Variable db : Store.

(** X22.  [findChatByContact] answers [null] exactly when no chat of
    the store passes the contact filter on its identifier.  Otherwise it
    answers with one of the chats that pass, under its own row identifier,
    and no chat that passes has a more recent last message (a chat
    without messages counting as the oldest). *)
Theorem findChatByContact_most_recent (contact : string) :
  let passes :=
    identifier_match (substring_pattern contact) (formatPhoneNumber contact)
      (substring_pattern (formatPhoneNumber contact)) in
  (findChatByContact formatDate db contact = None
   <-> forall c, In c (tbl_chat db) -> passes c = false)
  /\ (forall found,
      findChatByContact formatDate db contact = Some found ->
      exists c,
        In c (tbl_chat db) /\ passes c = true
        /\ ChatSummary.id found = c_rowid c
        /\ ChatSummary.identifier found = c_chat_identifier c
        /\ forall c', In c' (tbl_chat db) -> passes c' = true ->
             null_first_le (max_date (chat_messages db c'))
               (max_date (chat_messages db c)) = true).
Proof.
  intro passes. unfold findChatByContact, findChatByContact_statement.
  cbv beta iota zeta delta [params get_found]. fold passes.
  rewrite hd_error_firstn_1.
  set (found_rows := map (select_found db) (filter passes (tbl_chat db))).
  pose proof (order_by_perm last_date_desc found_rows) as Hperm.
  pose proof (@order_by_sorted _ last_date_desc
                QueryFacts.last_date_desc_total
                QueryFacts.last_date_desc_trans found_rows) as Hsorted.
  destruct (order_by last_date_desc found_rows) as [|row rest] eqn:E.
  - simpl. split.
    + split; [|reflexivity]. intros _ c Hc.
      destruct (passes c) eqn:Ep; [|reflexivity]. exfalso.
      apply Permutation_sym, Permutation_nil in Hperm.
      assert (Hin : In (select_found db c) found_rows)
        by (apply in_map, filter_In; auto).
      rewrite Hperm in Hin. exact Hin.
    + intros found H. discriminate.
  - simpl. split.
    + split; [discriminate|]. intro Hnone. exfalso.
      assert (Hin : In row found_rows)
        by (apply (Permutation_in _ (Permutation_sym Hperm)); left; reflexivity).
      apply in_map_iff in Hin. destruct Hin as [c [_ Hc]].
      apply filter_In in Hc. destruct Hc as [Hc Hp].
      rewrite (Hnone c Hc) in Hp. discriminate.
    + intros found H. inversion H; subst; clear H. simpl.
      assert (Hin : In row found_rows)
        by (apply (Permutation_in _ (Permutation_sym Hperm)); left; reflexivity).
      apply in_map_iff in Hin. destruct Hin as [c [Hrow Hc]].
      apply filter_In in Hc. destruct Hc as [Hc Hp].
      exists c. split; [exact Hc|]. split; [exact Hp|].
      subst row. split; [reflexivity|]. split; [reflexivity|].
      intros c' Hc' Hp'.
      assert (Hin' : In (select_found db c')
                       (select_found db c :: rest)).
      { apply (Permutation_in _ Hperm). apply in_map, filter_In. auto. }
      apply (@sorted_head _ (fun a b => last_date_desc a b = true)
               (select_found db c) rest) in Hin'.
      * exact Hin'.
      * intro a. apply null_first_le_refl.
      * exact Hsorted.
Qed.

End Find.

Lemma findChatByContact_most_recent_witness :
  exists found,
    findChatByContact no_format sample_store "555-123-4567" = Some found
    /\ ChatSummary.id found = 7%Z.
Proof.
  destruct (findChatByContact no_format sample_store "555-123-4567")
    as [found|] eqn:E; [|vm_compute in E; discriminate].
  exists found. split; [reflexivity|].
  destruct (proj2 (findChatByContact_most_recent no_format sample_store
                     "555-123-4567") found E) as [c [_ [_ [Hid _]]]].
  vm_compute in E. inversion E; subst. reflexivity.
Defined.

End FindChatFacts.

(** ** Sending a message *)

Module SendFacts.

Local Open Scope string_scope.

Section Send.

Variable trim : string -> string.
Variable osascript : string -> string + thrown.
Variables recipient message : string.

Let first_script : string :=
  imessage_script (escapeAppleScript recipient) (escapeAppleScript message).
Let second_script : string :=
  sms_script (escapeAppleScript recipient) (escapeAppleScript message).
Let chat_script : string :=
  group_script (escapeAppleScript recipient) (escapeAppleScript message).

(** X23.  [sendMessage] to a person runs the iMessage script and, only
    if that fails, the SMS script, once; it reports which of the two went
    through.  If both fail the error it throws carries the text of the
    first failure, not of the second.  To a group chat it runs one script
    and never falls back to SMS.  It runs no other script. *)
Theorem sendMessage_fallback :
  (forall out, osascript first_script = inl out ->
      sendMessage trim osascript recipient message None
      = (inl ("Message sent successfully to " ++ recipient), [first_script]))
  /\ (forall e out,
      osascript first_script = inr e -> osascript second_script = inl out ->
      sendMessage trim osascript recipient message None
      = (inl ("Message sent via SMS to " ++ recipient
              ++ " (iMessage unavailable)"),
         [first_script; second_script]))
  /\ (forall e e',
      osascript first_script = inr e -> osascript second_script = inr e' ->
      sendMessage trim osascript recipient message None
      = (inr (ErrorObject
                ("Failed to send message: AppleScript error: "
                 ++ getErrorMessage e)),
         [first_script; second_script]))
  /\ (forall out, osascript chat_script = inl out ->
      sendMessage trim osascript recipient message (Some true)
      = (inl ("Message sent successfully to " ++ recipient), [chat_script]))
  /\ (forall e, osascript chat_script = inr e ->
      sendMessage trim osascript recipient message (Some true)
      = (inr (ErrorObject
                ("Failed to send message: AppleScript error: "
                 ++ getErrorMessage e)),
         [chat_script])).
Proof.
  unfold sendMessage, runAppleScript.
  fold first_script second_script chat_script.
  split; [|split; [|split; [|split]]].
  - intros out ->. reflexivity.
  - intros e out -> ->. reflexivity.
  - intros e e' -> ->. reflexivity.
  - intros out ->. reflexivity.
  - intros e ->. reflexivity.
Qed.

End Send.

Lemma sendMessage_fallback_witness :
  sendMessage (fun s => s) (fun _ => inr (StringValue "not signed in"))
    "+15551234567" "hello" None
  = (inr (ErrorObject
            "Failed to send message: AppleScript error: not signed in"),
     [imessage_script (escapeAppleScript "+15551234567")
        (escapeAppleScript "hello");
      sms_script (escapeAppleScript "+15551234567")
        (escapeAppleScript "hello")]).
Proof.
  apply (proj1 (proj2 (proj2
           (@sendMessage_fallback (fun s => s)
              (fun _ => inr (StringValue "not signed in"))
              "+15551234567" "hello")))
         (StringValue "not signed in") (StringValue "not signed in"));
    reflexivity.
Defined.

End SendFacts.

(** ** Attachments of a message *)

Module AttachmentFacts.

Import LikeFacts.

Local Open Scope string_scope.

Local Arguments like : simpl never.

Lemma like_audio_prefix (t : string) :
  like "audio/%" t = true <-> opens_with "audio/" t.
Proof.
  change "audio/%" with ("audio/" ++ "%").
  rewrite like_trailing_percent. unfold opens_with.
  split; intros [head [rest [E H]]]; exists head, rest; (split; [exact E|]);
    [rewrite <- (@LikeMore.like_plain "audio/" eq_refl eq_refl)
    | rewrite (@LikeMore.like_plain "audio/" eq_refl eq_refl)]; exact H.
Qed.

Lemma like_audio_message (t : string) :
  like "%Audio Message%" t = true <-> contains "Audio Message" t.
Proof.
  change "%Audio Message%" with (substring_pattern "Audio Message").
  rewrite like_substring_pattern. unfold contains.
  split; intros [pre [mid [post [E H]]]]; exists pre, mid, post;
    (split; [exact E|]);
    [rewrite <- (@LikeMore.like_plain "Audio Message" eq_refl eq_refl)
    | rewrite (@LikeMore.like_plain "Audio Message" eq_refl eq_refl)];
    exact H.
Qed.

(** X24.  Every attachment returned by [getAttachmentsForMessage] is an
    attachment of the store joined to the message asked for, under its own
    row identifier; it is named by its transfer name when it has one and by
    its file name otherwise; and it is flagged as an audio message exactly
    when its MIME type opens with [audio/] and its transfer name contains
    [Audio Message], both up to the case of letters. *)
Theorem attachments_of_a_message (adb : AttachmentStore) (messageId : Z)
  (out : list Attachment.t) (att : Attachment.t) :
  getAttachmentsForMessage adb (of_Z messageId) = Some out ->
  In att out ->
  exists a,
    In a (tbl_attachment adb)
    /\ In {| maj_message_id := messageId; maj_attachment_id := a_rowid a |}
         (tbl_message_attachment_join adb)
    /\ Attachment.id att = a_rowid a
    /\ Attachment.filename att
       = (if truthy (a_transfer_name a) then a_transfer_name a
          else a_filename a)
    /\ (Attachment.isAudioMessage att = true
        <-> exists mime name,
              a_mime_type a = Some mime /\ a_transfer_name a = Some name
              /\ opens_with "audio/" mime
              /\ contains "Audio Message" name).
Proof.
  unfold getAttachmentsForMessage. simpl. intro H. inversion H; subst.
  clear H. intro Hin.
  apply in_map_iff in Hin. destruct Hin as [row [<- Hrow]].
  apply in_flat_map in Hrow. destruct Hrow as [a [Ha Hrow]].
  apply in_map_iff in Hrow. destruct Hrow as [j [<- Hj]].
  apply filter_In in Hj. destruct Hj as [Hj Hk].
  apply andb_true_iff in Hk. destruct Hk as [Hid Hmsg].
  apply Z.eqb_eq in Hid. unfold equals_bound, of_Z in Hmsg.
  apply Qeq_bool_iff in Hmsg.
  apply (proj1 (inject_Z_injective _ _)) in Hmsg.
  exists a. split; [exact Ha|]. split.
  - destruct j as [mid aid]. simpl in *. subst. exact Hj.
  - split; [reflexivity|]. split; [reflexivity|]. simpl.
    unfold audio_message_case, like_opt.
    destruct (a_mime_type a) as [mime|]; simpl.
    + destruct (a_transfer_name a) as [name|]; simpl.
      * destruct (like "audio/%" mime) eqn:E1; simpl.
        -- destruct (like "%Audio Message%" name) eqn:E2; simpl.
           ++ split; [|reflexivity]. intros _. exists mime, name.
              split; [reflexivity|]. split; [reflexivity|].
              split; [apply like_audio_prefix | apply like_audio_message];
                assumption.
           ++ split; [discriminate|].
              intros [m [n [Hm [Hn [_ Hc]]]]]. inversion Hn; subst.
              apply like_audio_message in Hc. congruence.
        -- split; [discriminate|].
           intros [m [n [Hm [Hn [Ho _]]]]]. inversion Hm; subst.
           apply like_audio_prefix in Ho. congruence.
      * rewrite andb_false_r. simpl. split; [discriminate|].
        intros [m [n [_ [Hn _]]]]. discriminate.
    + split; [discriminate|]. intros [m [n [Hm _]]]. discriminate.
Qed.

Lemma attachments_of_a_message_witness :
  let adb :=
    {| tbl_attachment :=
         [{| a_rowid := 4; a_filename := Some "~/Library/x.caf";
             a_mime_type := Some "audio/x-caf";
             a_transfer_name := Some "Audio Message.caf";
             a_total_bytes := Some 1536%Z; a_is_sticker := 0 |}];
       tbl_message_attachment_join :=
         [{| maj_message_id := 9; maj_attachment_id := 4 |}] |} in
  exists out att,
    getAttachmentsForMessage adb (of_Z 9) = Some out
    /\ In att out /\ Attachment.id att = 4%Z
    /\ Attachment.filename att = Some "Audio Message.caf".
Proof.
  intro adb.
  destruct (getAttachmentsForMessage adb (of_Z 9)) as [[|att out]|] eqn:E;
    [vm_compute in E; discriminate | | vm_compute in E; discriminate].
  destruct (@attachments_of_a_message adb 9 (att :: out) att E
              (or_introl eq_refl)) as [a [Ha [_ [Hid [Hname _]]]]].
  exists (att :: out), att. split; [reflexivity|].
  split; [left; reflexivity|].
  destruct Ha as [<- | []]. split; [exact Hid | exact Hname].
Defined.

End AttachmentFacts.
